(** * GlobalTrotter: itinerary consistency and budget aggregation

    A shallow embedding of the trip planner's core logic:
    - the budget screen's cost breakdown ([calculateCosts], [averagePerDay]),
    - the summary panel's pace label ([calculateTripPace]),
    - the conflict alerts' date-range pass,
    - the trip builder's stop ordering ([handleAddStop], [handleReorderStop]),
    - sharing ([handleShare], [loadSharedTrip]),
    - the export / import codec ([validateImportedData],
      [prepareImportedTripForInsert], [handleImport]).

    Conventions.  Currency amounts, durations and order indices are JavaScript
    numbers in the source; the store keeps whole amounts and they are modelled
    as [Z].  Results of a division are modelled by [number], exact rationals
    extended with the two infinities and NaN.  Date columns hold calendar days
    written YYYY-MM-DD and stay strings in the records, as in the source. *)

From Stdlib Require Import ZArith QArith Qround String Ascii List Lia Bool.
From stdpp Require Import base list strings infinite gmap pretty sorting.

Local Open Scope Z_scope.

(** ** JavaScript value helpers *)

(** [x || d] on numbers: [0] is the only falsy number of the model. *)
Definition num_or (x d : Z) : Z := if x =? 0 then d else x.

(** Truthiness of a [string | null] field: [null] and the empty string are
    falsy. *)
Definition truthy (s : option string) : bool :=
  match s with
  | Some s => negb (String.eqb s "")
  | None => false
  end.

(** [String.prototype.toLowerCase], on the ASCII letters. *)
Definition lower_char (c : ascii) : ascii :=
  let n := nat_of_ascii c in
  if ((65 <=? n) && (n <=? 90))%nat then ascii_of_nat (n + 32) else c.

Fixpoint toLowerCase (s : string) : string :=
  match s with
  | EmptyString => EmptyString
  | String c s' => String (lower_char c) (toLowerCase s')
  end.

(** [String.prototype.includes]: [pat] occurs somewhere in [s]. *)
Fixpoint includes (s pat : string) : bool :=
  String.prefix pat s ||
  match s with
  | EmptyString => false
  | String _ s' => includes s' pat
  end.

(** ** Entities (lib/supabase.ts) *)

(** The fields of a [TripActivity] other than [id] and [trip_stop_id]: what the
    rest pattern [{ id, trip_stop_id, ...activity }] binds to [activity]. *)
Module ActivityFields.
Record t := mk {
    activity_id : option string;
    name : string;
    description : option string;
    scheduled_date : option string;
    scheduled_time : option string;
    duration_hours : Z;
    estimated_cost : Z;
    order_index : Z;
    category : option string;
    is_custom : bool
  }.
End ActivityFields.

Module TripActivity.
Record t := mk {
    id : string;
    trip_stop_id : string;
    fields : ActivityFields.t
  }.
Definition name (a : t) := ActivityFields.name (fields a).
Definition scheduled_date (a : t) := ActivityFields.scheduled_date (fields a).
Definition estimated_cost (a : t) := ActivityFields.estimated_cost (fields a).
Definition order_index (a : t) := ActivityFields.order_index (fields a).
Definition category (a : t) := ActivityFields.category (fields a).
End TripActivity.

(** The fields of a [TripStop] other than [id] and [trip_id].  [activities] is
    the optional property the screens attach after loading a stop. *)
Module StopFields.
Record t := mk {
    city_id : option string;
    city_name : string;
    country : option string;
    start_date : option string;
    end_date : option string;
    order_index : Z;
    transport_cost : Z;
    accommodation_cost : Z;
    notes : option string;
    activities : option (list TripActivity.t)
  }.
End StopFields.

Module TripStop.
Record t := mk {
    id : string;
    trip_id : string;
    fields : StopFields.t
  }.
Definition city_name (s : t) := StopFields.city_name (fields s).
Definition start_date (s : t) := StopFields.start_date (fields s).
Definition end_date (s : t) := StopFields.end_date (fields s).
Definition order_index (s : t) := StopFields.order_index (fields s).
Definition transport_cost (s : t) := StopFields.transport_cost (fields s).
Definition accommodation_cost (s : t) := StopFields.accommodation_cost (fields s).
Definition activities (s : t) := StopFields.activities (fields s).

(** [stop.order_index = v], an assignment to one property of the object. *)
Definition set_order_index (v : Z) (s : t) : t :=
    let f := fields s in
    mk (id s) (trip_id s)
       (StopFields.mk (StopFields.city_id f) (StopFields.city_name f)
          (StopFields.country f) (StopFields.start_date f)
          (StopFields.end_date f) v (StopFields.transport_cost f)
          (StopFields.accommodation_cost f) (StopFields.notes f)
          (StopFields.activities f)).
End TripStop.

Module Trip.
Record t := mk {
    id : string;
    user_id : string;
    name : string;
    description : option string;
    start_date : option string;
    end_date : option string;
    cover_image : option string;
    is_public : bool;
    share_code : option string;
    total_budget : Z;
    created_at : string;
    updated_at : string
  }.
End Trip.

(** [stop.activities?.forEach] and [stop.activities?.length || 0] see an
    absent list as an empty one. *)
Definition activities_of (s : TripStop.t) : list TripActivity.t :=
  default [] (TripStop.activities s).

(** ** Budget screen: cost breakdown (components/budget-screen.tsx) *)

Module Costs.
Record t := mk {
    transport : Z;
    accommodation : Z;
    activities : Z;
    meals : Z
  }.
End Costs.

(** The condition of the [if] inside the activity loop. *)
Definition is_meal_category (category : option string) : bool :=
  match category with
  | Some c => includes (toLowerCase c) "food" || includes (toLowerCase c) "dining"
  | None => false
  end.

(** Body of [stop.activities?.forEach(activity => ...)]. *)
Definition add_activity (acc : Costs.t) (a : TripActivity.t) : Costs.t :=
  let cost := num_or (TripActivity.estimated_cost a) 0 in
  if is_meal_category (TripActivity.category a)
  then Costs.mk (Costs.transport acc) (Costs.accommodation acc)
                (Costs.activities acc) (Costs.meals acc + cost)
  else Costs.mk (Costs.transport acc) (Costs.accommodation acc)
                (Costs.activities acc + cost) (Costs.meals acc).

(** Body of [stops.forEach(stop => ...)]. *)
Definition add_stop (acc : Costs.t) (s : TripStop.t) : Costs.t :=
  fold_left add_activity (activities_of s)
    (Costs.mk (Costs.transport acc + num_or (TripStop.transport_cost s) 0)
              (Costs.accommodation acc + num_or (TripStop.accommodation_cost s) 0)
              (Costs.activities acc) (Costs.meals acc)).

Definition MEAL_ALLOWANCE_PER_STOP : Z := 1500.

Definition calculateCosts (stops : list TripStop.t) : Costs.t :=
  let acc := fold_left add_stop stops (Costs.mk 0 0 0 0) in
  let estimatedMeals := Z.of_nat (length stops) * MEAL_ALLOWANCE_PER_STOP in
  Costs.mk (Costs.transport acc) (Costs.accommodation acc)
           (Costs.activities acc) (num_or (Costs.meals acc) estimatedMeals).

Definition totalEstimated (stops : list TripStop.t) : Z :=
  let costs := calculateCosts stops in
  Costs.transport costs + Costs.accommodation costs
  + Costs.activities costs + Costs.meals costs.

(** ** JavaScript numbers produced by arithmetic

    Exact rationals with the two infinities and NaN (signed zeros are not
    distinguished). *)

Inductive number :=
| Finite (q : Q)
| PosInfinity
| NegInfinity
| NaN.

Definition of_Z (z : Z) : number := Finite (inject_Z z).

Definition number_eq (a b : number) : Prop :=
  match a, b with
  | Finite p, Finite q => Qeq p q
  | PosInfinity, PosInfinity => True
  | NegInfinity, NegInfinity => True
  | NaN, NaN => True
  | _, _ => False
  end.

Definition num_neg (a : number) : number :=
  match a with
  | Finite q => Finite (Qopp q)
  | PosInfinity => NegInfinity
  | NegInfinity => PosInfinity
  | NaN => NaN
  end.

Definition num_add (a b : number) : number :=
  match a, b with
  | NaN, _ | _, NaN => NaN
  | Finite p, Finite q => Finite (Qplus p q)
  | PosInfinity, NegInfinity | NegInfinity, PosInfinity => NaN
  | PosInfinity, _ | _, PosInfinity => PosInfinity
  | NegInfinity, _ | _, NegInfinity => NegInfinity
  end.

Definition num_sub (a b : number) : number := num_add a (num_neg b).

Definition Qis_neg (q : Q) : bool := negb (Qle_bool 0 q).
Definition Qis_zero (q : Q) : bool := Qeq_bool q 0.

Definition num_div (a b : number) : number :=
  match a, b with
  | NaN, _ | _, NaN => NaN
  | Finite p, Finite q =>
      if Qis_zero q
      then (if Qis_zero p then NaN
            else if Qis_neg p then NegInfinity else PosInfinity)
      else Finite (Qdiv p q)
  | Finite _, _ => Finite 0
  | PosInfinity, Finite q => if Qis_neg q then NegInfinity else PosInfinity
  | NegInfinity, Finite q => if Qis_neg q then PosInfinity else NegInfinity
  | _, _ => NaN
  end.

(** [a <= b]; any comparison with NaN is false. *)
Definition num_le (a b : number) : bool :=
  match a, b with
  | NaN, _ | _, NaN => false
  | Finite p, Finite q => Qle_bool p q
  | NegInfinity, _ | _, PosInfinity => true
  | _, _ => false
  end.

(** [a < b] *)
Definition num_lt (a b : number) : bool :=
  match a, b with
  | NaN, _ | _, NaN => false
  | _, _ => negb (num_le b a)
  end.

(** [a > b] *)
Definition num_gt (a b : number) : bool := num_lt b a.

Definition Math_ceil (a : number) : number :=
  match a with
  | Finite q => of_Z (Qceiling q)
  | _ => a
  end.

Definition Math_max (a b : number) : number :=
  match a, b with
  | NaN, _ | _, NaN => NaN
  | _, _ => if num_le a b then b else a
  end.

(** ** Dates

    Modelled from the spec: the date library (date-fns) and the [Date] object
    are not part of the repository.  A [Date] is its time value in
    milliseconds, [None] for an Invalid Date.  The date columns hold calendar
    days written YYYY-MM-DD (data model: "calendar dates, no time component");
    such a text denotes the midnight that starts the day, for [parseISO] as for
    [new Date], and the time zone has no daylight-saving shifts.  Any other
    text is an Invalid Date. *)

Definition Date := option Z.

Definition MS_PER_DAY : Z := 1000 * 60 * 60 * 24.

Definition digit_of (c : ascii) : option Z :=
  let n := nat_of_ascii c in
  if ((48 <=? n) && (n <=? 57))%nat then Some (Z.of_nat n - 48) else None.

Fixpoint digits_value (acc : Z) (cs : list ascii) : option Z :=
  match cs with
  | [] => Some acc
  | c :: cs' =>
      match digit_of c with
      | Some d => digits_value (10 * acc + d) cs'
      | None => None
      end
  end.

Definition is_leap_year (y : Z) : bool :=
  ((y mod 4 =? 0) && negb (y mod 100 =? 0)) || (y mod 400 =? 0).

Definition days_in_month (y m : Z) : Z :=
  if m =? 2 then (if is_leap_year y then 29 else 28)
  else if (m =? 4) || (m =? 6) || (m =? 9) || (m =? 11) then 30
  else 31.

(** Days from 1970-01-01 to the civil date [y]-[m]-[d]. *)
Definition days_from_civil (y m d : Z) : Z :=
  let y' := if m <=? 2 then y - 1 else y in
  let era := y' / 400 in
  let yoe := y' - era * 400 in
  let mp := (m + 9) mod 12 in
  let doy := (153 * mp + 2) / 5 + d - 1 in
  let doe := yoe * 365 + yoe / 4 - yoe / 100 + doy in
  era * 146097 + doe - 719468.

Definition parse_ymd (s : string) : option (Z * Z * Z) :=
  match list_ascii_of_string s with
  | [y1; y2; y3; y4; "-"%char; m1; m2; "-"%char; d1; d2] =>
      match digits_value 0 [y1; y2; y3; y4],
            digits_value 0 [m1; m2], digits_value 0 [d1; d2] with
      | Some y, Some m, Some d =>
          if (1 <=? m) && (m <=? 12) && (1 <=? d) && (d <=? days_in_month y m)
          then Some (y, m, d) else None
      | _, _, _ => None
      end
  | _ => None
  end.

(** [parseISO(text)] and [new Date(text)] *)
Definition parseISO (s : string) : Date :=
  match parse_ymd s with
  | Some (y, m, d) => Some (days_from_civil y m d * MS_PER_DAY)
  | None => None
  end.

(** [date.getTime()] *)
Definition getTime (d : Date) : number :=
  match d with
  | Some t => of_Z t
  | None => NaN
  end.

(** [differenceInDays(later, earlier)]: the number of full days between the
    two, NaN when either is invalid. *)
Definition differenceInDays (later earlier : Date) : number :=
  match later, earlier with
  | Some l, Some e => of_Z (Z.quot (l - e) MS_PER_DAY)
  | _, _ => NaN
  end.


(** ** Summary panel: pace (components/trip-summary-panel.tsx) *)

Inductive PaceLabel := Planning | Relaxed | Balanced | Packed.

(** [stops.reduce((sum, stop) => sum + (stop.activities?.length || 0), 0)] *)
Definition totalActivities (stops : list TripStop.t) : Z :=
  fold_left (fun sum stop => sum + Z.of_nat (length (activities_of stop))) stops 0.

(** [differenceInDays(parseISO(end_date), parseISO(start_date)) + 1] *)
Definition inclusiveDays (start_date end_date : string) : number :=
  num_add (differenceInDays (parseISO end_date) (parseISO start_date)) (of_Z 1).

Definition calculateTripPace (trip : Trip.t) (stops : list TripStop.t) : PaceLabel :=
  match Trip.start_date trip, Trip.end_date trip with
  | Some start_date, Some end_date =>
      if String.eqb start_date "" || String.eqb end_date ""
         || (length stops =? 0)%nat
      then Planning
      else
        let totalDays := inclusiveDays start_date end_date in
        let activitiesPerDay := num_div (of_Z (totalActivities stops)) totalDays in
        if num_lt activitiesPerDay (of_Z 2) then Relaxed
        else if num_le activitiesPerDay (of_Z 4) then Balanced
        else Packed
  | _, _ => Planning
  end.

(** ** Budget screen: average per day *)

Definition averagePerDay (trip : Trip.t) (stops : list TripStop.t) : number :=
  match Trip.start_date trip, Trip.end_date trip with
  | Some start_date, Some end_date =>
      if String.eqb start_date "" || String.eqb end_date "" then of_Z 0
      else
        num_div (of_Z (totalEstimated stops))
          (Math_max (of_Z 1)
             (Math_ceil
                (num_div
                   (num_sub (getTime (parseISO end_date))
                            (getTime (parseISO start_date)))
                   (of_Z MS_PER_DAY))))
  | _, _ => of_Z 0
  end.

(** ** Conflict alerts: activities outside the city's dates
    (components/conflict-alerts.tsx, the third loop of [ConflictAlerts])

    The first two loops of the component push alerts of the types "budget"
    and "activities" only; the alerts of type "date" are those of the third
    loop, which is the one embedded here. *)

Inductive AlertType := budget_alert | activities_alert | date_alert.
Inductive Severity := warning | error.

Module Alert.
Record t := mk {
  type : AlertType;
  message : string;
  severity : Severity
}.
End Alert.






(** ** The entity store

    Modelled from the spec: the persistence client is a collaborator outside
    the repository ("insert(partialRecord) -> created record (with assigned
    id/timestamps)", update and delete by id, lists filtered by equality).
    Like the offline store of lib/local-data.ts, a table is the list of its
    rows in insertion order and an insert keeps the payload and adds a fresh
    id.  A store that is not [available] rejects every request and is left
    unchanged. *)

Module TripInsert.
Record t := mk {
  user_id : string;
  name : string;
  description : option string;
  start_date : option string;
  end_date : option string;
  cover_image : option string;
  is_public : bool;
  share_code : option string;
  total_budget : Z
}.
End TripInsert.

Module Store.
Record t := mk {
  trips : list Trip.t;
  trip_stops : list TripStop.t;
  trip_activities : list TripActivity.t;
  available : bool;
  now : string
}.

Definition empty : t := mk [] [] [] true "2024-01-01T00:00:00.000Z".

Definition insert_trip (payload : TripInsert.t) (st : t) : option Trip.t * t :=
  if available st then
    let row :=
      Trip.mk (fresh (Trip.id <$> trips st))
        (TripInsert.user_id payload) (TripInsert.name payload)
        (TripInsert.description payload) (TripInsert.start_date payload)
        (TripInsert.end_date payload) (TripInsert.cover_image payload)
        (TripInsert.is_public payload) (TripInsert.share_code payload)
        (TripInsert.total_budget payload) (now st) (now st) in
    (Some row, mk (trips st ++ [row]) (trip_stops st) (trip_activities st)
                  (available st) (now st))
  else (None, st).

Definition insert_stop (trip_id : string) (payload : StopFields.t) (st : t)
    : option TripStop.t * t :=
  if available st then
    let row := TripStop.mk (fresh (TripStop.id <$> trip_stops st)) trip_id payload in
    (Some row, mk (trips st) (trip_stops st ++ [row]) (trip_activities st)
                  (available st) (now st))
  else (None, st).

Definition insert_activity (trip_stop_id : string) (payload : ActivityFields.t) (st : t)
    : option TripActivity.t * t :=
  if available st then
    let row :=
      TripActivity.mk (fresh (TripActivity.id <$> trip_activities st))
        trip_stop_id payload in
    (Some row, mk (trips st) (trip_stops st) (trip_activities st ++ [row])
                  (available st) (now st))
  else (None, st).

(** A bulk insert: the rows are added in the order of the payload. *)
Definition insert_activities (payloads : list (string * ActivityFields.t)) (st : t) : t :=
  fold_left (fun st p => snd (insert_activity (fst p) (snd p) st)) payloads st.

(** [update({ order_index }).eq("id", id)]; the result is the error flag. *)
Definition update_stop_order_index (id : string) (order_index : Z) (st : t) : bool * t :=
  if available st then
    (false,
     mk (trips st)
        ((fun row => if decide (TripStop.id row = id)
                     then TripStop.set_order_index order_index row else row)
           <$> trip_stops st)
        (trip_activities st) (available st) (now st))
  else (true, st).

(** [delete().eq("id", id)] on trip_stops *)
Definition delete_stop (id : string) (st : t) : bool * t :=
  if available st then
    (false,
     mk (trips st) (filter (fun row => TripStop.id row ≠ id) (trip_stops st))
        (trip_activities st) (available st) (now st))
  else (true, st).

(** [update({ share_code, is_public }).eq("id", id)] on trips *)
Definition update_trip_share (id : string) (share_code : string) (is_public : bool)
    (st : t) : bool * t :=
  if available st then
    (false,
     mk ((fun row =>
            if decide (Trip.id row = id)
            then Trip.mk (Trip.id row) (Trip.user_id row) (Trip.name row)
                   (Trip.description row) (Trip.start_date row) (Trip.end_date row)
                   (Trip.cover_image row) is_public (Some share_code)
                   (Trip.total_budget row) (Trip.created_at row) (Trip.updated_at row)
            else row) <$> trips st)
        (trip_stops st) (trip_activities st) (available st) (now st))
  else (true, st).

(** [.single()]: the row when exactly one matches, no data otherwise. *)
Definition single {A} (rows : list A) : option A :=
  match rows with
  | [row] => Some row
  | _ => None
  end.

Definition stops_of_trip (trip_id : string) (st : t) : list TripStop.t :=
  filter (fun row => TripStop.trip_id row = trip_id) (trip_stops st).
(** [delete().eq("id", id)] on trip_activities *)
Definition delete_activity (id : string) (st : t) : bool * t :=
  if available st then
    (false,
     mk (trips st) (trip_stops st)
        (filter (fun row => TripActivity.id row ≠ id) (trip_activities st))
        (available st) (now st))
  else (true, st).
End Store.

(** [Math.random().toString(36).substring(2, 10)]: the generator is the list
    of the codes it is going to produce. *)
Definition random_code (rng : list string) : string * list string :=
  match rng with
  | code :: rest => (code, rest)
  | [] => ("", [])
  end.

(** ** Trip builder: the list of stops (unnamed/part_004, [TripBuilder])

    The component state [stops] is an array of stop objects; a handler takes
    it with the store and returns both as it leaves them.  The handlers are
    those of the builder opened on an existing trip (on a new trip, [trip] is
    null and each of them returns at once). *)

Module TripBuilder.

(** The "add stop" form. *)
Record NewStop := mkNewStop {
  city_name : string;
  country : string;
  start_date : string;
  end_date : string
}.

Definition is_space (c : ascii) : bool :=
  let n := nat_of_ascii c in
  ((n =? 32) || ((9 <=? n) && (n <=? 13)))%nat.

(** [!text.trim()] *)
Fixpoint is_blank (s : string) : bool :=
  match s with
  | EmptyString => true
  | String c s' => is_space c && is_blank s'
  end.

(** [text || null] *)
Definition or_null (s : string) : option string :=
  if String.eqb s "" then None else Some s.

Definition handleAddStop (trip : Trip.t) (newStop : NewStop)
    (stops : list TripStop.t) (st : Store.t) : list TripStop.t * Store.t :=
  if is_blank (city_name newStop) then (stops, st)
  else
    match Store.insert_stop (Trip.id trip)
            (StopFields.mk None (city_name newStop) (Some (country newStop))
               (or_null (start_date newStop)) (or_null (end_date newStop))
               (Z.of_nat (length stops)) 0 0 None None) st with
    | (Some data, st') =>
        (stops ++ [TripStop.mk (TripStop.id data) (TripStop.trip_id data)
                     (let f := TripStop.fields data in
                      StopFields.mk (StopFields.city_id f) (StopFields.city_name f)
                        (StopFields.country f) (StopFields.start_date f)
                        (StopFields.end_date f) (StopFields.order_index f)
                        (StopFields.transport_cost f)
                        (StopFields.accommodation_cost f) (StopFields.notes f)
                        (Some []))],
         st')
    | (None, st') => (stops, st')
    end.

Definition handleDeleteStop (stopId : string)
    (stops : list TripStop.t) (st : Store.t) : list TripStop.t * Store.t :=
  match Store.delete_stop stopId st with
  | (true, st') => (stops, st')
  | (false, st') => (filter (fun s => TripStop.id s ≠ stopId) stops, st')
  end.

Inductive Direction := up | down.

(** [objects[i].order_index = v]: the array copy [[...stops]] holds the same
    stop objects as the state, so the assignment shows in the state too. *)
Definition assign_order_index (i : nat) (v : Z) (objects : list TripStop.t)
    : list TripStop.t :=
  alter (TripStop.set_order_index v) i objects.

Definition handleReorderStop (stopId : string) (direction : Direction)
    (stops : list TripStop.t) (st : Store.t) : list TripStop.t * Store.t :=
  match list_find (fun s => TripStop.id s = stopId) stops with
  | None => (stops, st)
  | Some (currentIndex, _) =>
      let newIndex :=
        match direction with
        | up => Z.of_nat currentIndex - 1
        | down => Z.of_nat currentIndex + 1
        end in
      if (newIndex <? 0) || (Z.of_nat (length stops) <=? newIndex) then (stops, st)
      else
        let newIndex := Z.to_nat newIndex in
        match stops !! currentIndex, stops !! newIndex with
        | Some current, Some other =>
            (* Swap order indices *)
            let temp := TripStop.order_index current in
            let updatedStops :=
              assign_order_index newIndex temp
                (assign_order_index currentIndex (TripStop.order_index other) stops) in
            match updatedStops !! currentIndex, updatedStops !! newIndex with
            | Some current', Some other' =>
                (* Update in database *)
                let '(error1, st1) :=
                  Store.update_stop_order_index stopId
                    (TripStop.order_index current') st in
                let '(error2, st2) :=
                  Store.update_stop_order_index (TripStop.id other')
                    (TripStop.order_index other') st1 in
                if error1 || error2 then (updatedStops, st2)
                else
                  (* Update local state - swap array positions *)
                  (<[newIndex := current']> (<[currentIndex := other']> updatedStops),
                   st2)
            | _, _ => (stops, st)
            end
        | _, _ => (stops, st)
        end
  end.

(** [Partial<TripActivity>], as far as [handleAddActivity] reads it. *)
Record PartialActivity := mkPartialActivity {
  p_name : option string;
  p_description : option string;
  p_estimated_cost : option Z;
  p_duration_hours : option Z;
  p_category : option string
}.

(** [text || fallback] on a property that may be missing *)
Definition text_or (text : option string) (fallback : string) : string :=
  match text with
  | Some s => if String.eqb s "" then fallback else s
  | None => fallback
  end.

(** [{ ...s, activities }] *)
Definition with_activities (activities : option (list TripActivity.t)) (s : TripStop.t)
    : TripStop.t :=
  let f := TripStop.fields s in
  TripStop.mk (TripStop.id s) (TripStop.trip_id s)
    (StopFields.mk (StopFields.city_id f) (StopFields.city_name f)
       (StopFields.country f) (StopFields.start_date f) (StopFields.end_date f)
       (StopFields.order_index f) (StopFields.transport_cost f)
       (StopFields.accommodation_cost f) (StopFields.notes f) activities).

(** The insert names seven columns; [is_custom] stands for the value the
    table gives to the column of that name, and the other columns left out
    are nullable. *)
Definition handleAddActivity (is_custom : bool) (stopId : string)
    (activity : PartialActivity) (stops : list TripStop.t) (st : Store.t)
    : list TripStop.t * Store.t :=
  match list_find (fun s => TripStop.id s = stopId) stops with
  | None => (stops, st)
  | Some (_, stop) =>
      match Store.insert_activity stopId
              (ActivityFields.mk None (text_or (p_name activity) "New Activity")
                 (p_description activity) None None
                 (num_or (default 0 (p_duration_hours activity)) 1)
                 (num_or (default 0 (p_estimated_cost activity)) 0)
                 (Z.of_nat (length (default [] (TripStop.activities stop))))
                 (p_category activity) is_custom) st with
      | (Some data, st') =>
          ((fun s => if decide (TripStop.id s = stopId)
                     then with_activities
                            (Some (default [] (TripStop.activities s) ++ [data])) s
                     else s) <$> stops,
           st')
      | (None, st') => (stops, st')
      end
  end.

Definition handleDeleteActivity (stopId activityId : string)
    (stops : list TripStop.t) (st : Store.t) : list TripStop.t * Store.t :=
  match Store.delete_activity activityId st with
  | (true, st') => (stops, st')
  | (false, st') =>
      ((fun s => if decide (TripStop.id s = stopId)
                 then with_activities
                        (filter (fun a => TripActivity.id a ≠ activityId)
                           <$> TripStop.activities s) s
                 else s) <$> stops,
       st')
  end.

(** [expandedStops], a set of stop ids *)
Definition toggleStopExpand (stopId : string) (expandedStops : gset string)
    : gset string :=
  if decide (stopId ∈ expandedStops)
  then expandedStops ∖ {[stopId]}
  else expandedStops ∪ {[stopId]}.

End TripBuilder.

(** ** Destination suggestions: adding a spot
    (components/budget-screen.tsx, [DestinationSuggestions]) *)

Module DestinationSuggestions.

Record TouristSpot := mkSpot {
  name : string;
  description : string;
  category : string;
  estimatedCost : Z;
  (** [parseFloat(spot.duration)], 0 standing for NaN *)
  duration : Z
}.

(** [destination] is [destinationData?.destination || searchQuery] and
    [country] is [destinationData?.country || "India"]. *)
Definition handleAddSpot (trip : Trip.t) (destination country : string)
    (spot : TouristSpot) (st : Store.t) : Store.t :=
  let existingStops :=
    Store.single
      (filter (fun row => TripStop.trip_id row = Trip.id trip
                          ∧ TripStop.city_name row = destination)
              (Store.trip_stops st)) in
  let created :=
    match existingStops with
    | Some row =>
        if String.eqb (TripStop.id row) ""
        then
          let '(newStop, st') :=
            Store.insert_stop (Trip.id trip)
              (StopFields.mk None destination (Some country) None None 0 0 0 None None)
              st in
          (TripStop.id <$> newStop, st')
        else (Some (TripStop.id row), st)
    | None =>
        let '(newStop, st') :=
          Store.insert_stop (Trip.id trip)
            (StopFields.mk None destination (Some country) None None 0 0 0 None None)
            st in
        (TripStop.id <$> newStop, st')
    end in
  match created with
  | (Some stopId, st') =>
      snd (Store.insert_activity stopId
             (ActivityFields.mk None (name spot) (Some (description spot)) None None
                (num_or (duration spot) 3) (estimatedCost spot) 0
                (Some (category spot)) true) st')
  | (None, st') => st'
  end.

End DestinationSuggestions.

(** ** Sharing (unnamed/part_005 [TripView.handleShare],
    components/shared-trip-view.tsx [loadSharedTrip], app/page.tsx) *)

Module Sharing.

(** The link put on the clipboard. *)
Record Url := mkUrl {
  origin : string;
  share : string
}.

Definition handleShare (origin : string) (trip : Trip.t) (rng : list string)
    (st : Store.t) : Url * list string * Store.t :=
  let '(rng1, st1) :=
    if negb (truthy (Trip.share_code trip))
    then
      (* Generate share code if missing *)
      let '(shareCode, rng') := random_code rng in
      (rng', snd (Store.update_trip_share (Trip.id trip) shareCode true st))
    else (rng, st) in
  let '(shareCode, rng2) :=
    if truthy (Trip.share_code trip)
    then (default "" (Trip.share_code trip), rng1)
    else random_code rng1 in
  (mkUrl origin shareCode, rng2, st1).

(** [new URLSearchParams(window.location.search).get('share')] followed by
    the lookup of [loadSharedTrip]. *)
Definition loadSharedTrip (shareCode : string) (st : Store.t) : option Trip.t :=
  if Store.available st then
    Store.single
      (filter (fun row => Trip.share_code row = Some shareCode
                          ∧ Trip.is_public row = true)
              (Store.trips st))
  else None.

Definition resolve (url : Url) (st : Store.t) : option Trip.t :=
  if String.eqb (share url) "" then None else loadSharedTrip (share url) st.

End Sharing.

(** ** Export / import codec (unnamed/part_007, lib/trip-export) *)

(** Values produced by [JSON.parse].  An object lists its properties, one
    entry per key. *)
#[local] Unset Elimination Schemes.
Inductive js_value :=
| JNull
| JBool (b : bool)
| JNum (z : Z)
| JStr (s : string)
| JArr (items : list js_value)
| JObj (props : list (string * js_value)).
#[local] Set Elimination Schemes.

Fixpoint assoc_get (props : list (string * js_value)) (key : string) : option js_value :=
  match props with
  | [] => None
  | (k, v) :: rest => if String.eqb k key then Some v else assoc_get rest key
  end.

(** [value.key]; [None] is [undefined].  Only the keys [trip], [stops],
    [activities] and [name] are read, none of which is a property of an array
    or of a primitive. *)
Definition get (value : option js_value) (key : string) : option js_value :=
  match value with
  | Some (JObj props) => assoc_get props key
  | _ => None
  end.

(** [!!value] *)
Definition js_truthy (value : option js_value) : bool :=
  match value with
  | None | Some JNull => false
  | Some (JBool b) => b
  | Some (JNum z) => negb (z =? 0)
  | Some (JStr s) => negb (String.eqb s "")
  | Some (JArr _) | Some (JObj _) => true
  end.

(** [typeof value === 'object'] *)
Definition typeof_object (value : option js_value) : bool :=
  match value with
  | Some JNull | Some (JArr _) | Some (JObj _) => true
  | _ => false
  end.

(** [typeof value === 'string'] *)
Definition typeof_string (value : option js_value) : bool :=
  match value with
  | Some (JStr _) => true
  | _ => false
  end.

(** [Array.isArray(value)] *)
Definition isArray (value : option js_value) : bool :=
  match value with
  | Some (JArr _) => true
  | _ => false
  end.

Definition validateImportedData (data : option js_value) : bool :=
  if negb (js_truthy data) || negb (typeof_object data) then false
  else if negb (js_truthy (get data "trip")) || negb (typeof_object (get data "trip"))
  then false
  else if negb (isArray (get data "stops")) then false
  else if negb (isArray (get data "activities")) then false
  else if negb (js_truthy (get (get data "trip") "name"))
          || negb (typeof_string (get (get data "trip") "name"))
  then false
  else true.

(** [importTrip(file)]: the parsed text when it passes the structural check,
    [null] otherwise.  [parsed] is the result of [JSON.parse], [None] when it
    throws. *)
Definition importTrip (parsed : option js_value) : option js_value :=
  match parsed with
  | Some data => if validateImportedData (Some data) then Some data else None
  | None => None
  end.

Module ExportedTrip.
Record t := mk {
  version : string;
  trip : Trip.t;
  stops : list TripStop.t;
  activities : list TripActivity.t;
  exportedAt : string
}.
End ExportedTrip.

Definition EXPORT_VERSION : string := "1.0".

(** The document [exportTrip] serialises; [exportedAt] is the clock reading. *)
Definition exportTrip (trip : Trip.t) (stops : list TripStop.t)
    (activities : list TripActivity.t) (exportedAt : string) : ExportedTrip.t :=
  ExportedTrip.mk EXPORT_VERSION trip stops activities exportedAt.

(** *** [JSON.stringify] at the declared types *)

Definition enc_nullable (s : option string) : js_value :=
  match s with
  | Some s => JStr s
  | None => JNull
  end.

Definition activity_to_json (a : TripActivity.t) : js_value :=
  let f := TripActivity.fields a in
  JObj [("id", JStr (TripActivity.id a));
        ("trip_stop_id", JStr (TripActivity.trip_stop_id a));
        ("activity_id", enc_nullable (ActivityFields.activity_id f));
        ("name", JStr (ActivityFields.name f));
        ("description", enc_nullable (ActivityFields.description f));
        ("scheduled_date", enc_nullable (ActivityFields.scheduled_date f));
        ("scheduled_time", enc_nullable (ActivityFields.scheduled_time f));
        ("duration_hours", JNum (ActivityFields.duration_hours f));
        ("estimated_cost", JNum (ActivityFields.estimated_cost f));
        ("order_index", JNum (ActivityFields.order_index f));
        ("category", enc_nullable (ActivityFields.category f));
        ("is_custom", JBool (ActivityFields.is_custom f))].

(** An absent [activities] property is [undefined] and is not written. *)
Definition stop_to_json (s : TripStop.t) : js_value :=
  let f := TripStop.fields s in
  JObj ([("id", JStr (TripStop.id s));
         ("trip_id", JStr (TripStop.trip_id s));
         ("city_id", enc_nullable (StopFields.city_id f));
         ("city_name", JStr (StopFields.city_name f));
         ("country", enc_nullable (StopFields.country f));
         ("start_date", enc_nullable (StopFields.start_date f));
         ("end_date", enc_nullable (StopFields.end_date f));
         ("order_index", JNum (StopFields.order_index f));
         ("transport_cost", JNum (StopFields.transport_cost f));
         ("accommodation_cost", JNum (StopFields.accommodation_cost f));
         ("notes", enc_nullable (StopFields.notes f))]
        ++ match StopFields.activities f with
           | Some l => [("activities", JArr (activity_to_json <$> l))]
           | None => []
           end).

Definition trip_to_json (t : Trip.t) : js_value :=
  JObj [("id", JStr (Trip.id t));
        ("user_id", JStr (Trip.user_id t));
        ("name", JStr (Trip.name t));
        ("description", enc_nullable (Trip.description t));
        ("start_date", enc_nullable (Trip.start_date t));
        ("end_date", enc_nullable (Trip.end_date t));
        ("cover_image", enc_nullable (Trip.cover_image t));
        ("is_public", JBool (Trip.is_public t));
        ("share_code", enc_nullable (Trip.share_code t));
        ("total_budget", JNum (Trip.total_budget t));
        ("created_at", JStr (Trip.created_at t));
        ("updated_at", JStr (Trip.updated_at t))].

Definition toJSON (doc : ExportedTrip.t) : js_value :=
  JObj [("version", JStr (ExportedTrip.version doc));
        ("trip", trip_to_json (ExportedTrip.trip doc));
        ("stops", JArr (stop_to_json <$> ExportedTrip.stops doc));
        ("activities", JArr (activity_to_json <$> ExportedTrip.activities doc));
        ("exportedAt", JStr (ExportedTrip.exportedAt doc))].

(** *** The parsed value seen at the declared types

    The type guard of [validateImportedData] lets the importer read the parsed
    value as an [ExportedTrip].  The functions below give that reading when
    every property has the declared shape and [None] otherwise. *)

Definition as_string (v : option js_value) : option string :=
  match v with
  | Some (JStr s) => Some s
  | _ => None
  end.

Definition as_nullable (v : option js_value) : option (option string) :=
  match v with
  | Some (JStr s) => Some (Some s)
  | Some JNull => Some None
  | _ => None
  end.

Definition as_number (v : option js_value) : option Z :=
  match v with
  | Some (JNum z) => Some z
  | _ => None
  end.

Definition as_boolean (v : option js_value) : option bool :=
  match v with
  | Some (JBool b) => Some b
  | _ => None
  end.

Definition as_array {A} (item : js_value -> option A) (v : option js_value)
    : option (list A) :=
  match v with
  | Some (JArr items) => mapM item items
  | _ => None
  end.

Definition as_activity (v : js_value) : option TripActivity.t :=
  let o := Some v in
  id ← as_string (get o "id");
  trip_stop_id ← as_string (get o "trip_stop_id");
  activity_id ← as_nullable (get o "activity_id");
  name ← as_string (get o "name");
  description ← as_nullable (get o "description");
  scheduled_date ← as_nullable (get o "scheduled_date");
  scheduled_time ← as_nullable (get o "scheduled_time");
  duration_hours ← as_number (get o "duration_hours");
  estimated_cost ← as_number (get o "estimated_cost");
  order_index ← as_number (get o "order_index");
  category ← as_nullable (get o "category");
  is_custom ← as_boolean (get o "is_custom");
  Some (TripActivity.mk id trip_stop_id
          (ActivityFields.mk activity_id name description scheduled_date
             scheduled_time duration_hours estimated_cost order_index category
             is_custom)).

Definition as_optional_activities (v : option js_value)
    : option (option (list TripActivity.t)) :=
  match v with
  | None => Some None
  | Some _ => Some <$> as_array as_activity v
  end.

Definition as_stop (v : js_value) : option TripStop.t :=
  let o := Some v in
  id ← as_string (get o "id");
  trip_id ← as_string (get o "trip_id");
  city_id ← as_nullable (get o "city_id");
  city_name ← as_string (get o "city_name");
  country ← as_nullable (get o "country");
  start_date ← as_nullable (get o "start_date");
  end_date ← as_nullable (get o "end_date");
  order_index ← as_number (get o "order_index");
  transport_cost ← as_number (get o "transport_cost");
  accommodation_cost ← as_number (get o "accommodation_cost");
  notes ← as_nullable (get o "notes");
  activities ← as_optional_activities (get o "activities");
  Some (TripStop.mk id trip_id
          (StopFields.mk city_id city_name country start_date end_date order_index
             transport_cost accommodation_cost notes activities)).

Definition as_trip (v : option js_value) : option Trip.t :=
  id ← as_string (get v "id");
  user_id ← as_string (get v "user_id");
  name ← as_string (get v "name");
  description ← as_nullable (get v "description");
  start_date ← as_nullable (get v "start_date");
  end_date ← as_nullable (get v "end_date");
  cover_image ← as_nullable (get v "cover_image");
  is_public ← as_boolean (get v "is_public");
  share_code ← as_nullable (get v "share_code");
  total_budget ← as_number (get v "total_budget");
  created_at ← as_string (get v "created_at");
  updated_at ← as_string (get v "updated_at");
  Some (Trip.mk id user_id name description start_date end_date cover_image
          is_public share_code total_budget created_at updated_at).

Definition asExportedTrip (data : js_value) : option ExportedTrip.t :=
  let o := Some data in
  version ← as_string (get o "version");
  trip ← as_trip (get o "trip");
  stops ← as_array as_stop (get o "stops");
  activities ← as_array as_activity (get o "activities");
  exportedAt ← as_string (get o "exportedAt");
  Some (ExportedTrip.mk version trip stops activities exportedAt).

(** *** [prepareImportedTripForInsert] *)

(** A stop without [id] and [trip_id], with the original id kept for the
    mapping of the activities. *)
Module NewStop.
Record t := mk {
  fields : StopFields.t;
  _original_stop_id : string
}.
End NewStop.

Module NewActivity.
Record t := mk {
  fields : ActivityFields.t;
  _original_stop_id : string
}.
End NewActivity.

Module Prepared.
Record t := mk {
  trip : TripInsert.t;
  stops : list NewStop.t;
  activities : list NewActivity.t
}.
End Prepared.

(** [{ ...stop, order_index: stop.order_index || 0 }] *)
Definition stop_with_order_index (stop : StopFields.t) : StopFields.t :=
  StopFields.mk (StopFields.city_id stop) (StopFields.city_name stop)
    (StopFields.country stop) (StopFields.start_date stop)
    (StopFields.end_date stop) (num_or (StopFields.order_index stop) 0)
    (StopFields.transport_cost stop) (StopFields.accommodation_cost stop)
    (StopFields.notes stop) (StopFields.activities stop).

(** [{ ...activity, order_index: activity.order_index || 0 }] *)
Definition activity_with_order_index (activity : ActivityFields.t) : ActivityFields.t :=
  ActivityFields.mk (ActivityFields.activity_id activity)
    (ActivityFields.name activity) (ActivityFields.description activity)
    (ActivityFields.scheduled_date activity)
    (ActivityFields.scheduled_time activity)
    (ActivityFields.duration_hours activity)
    (ActivityFields.estimated_cost activity)
    (num_or (ActivityFields.order_index activity) 0)
    (ActivityFields.category activity) (ActivityFields.is_custom activity).

Definition prepareImportedTripForInsert (importedData : ExportedTrip.t)
    (userId : string) : Prepared.t :=
  let trip := ExportedTrip.trip importedData in
  let stops := ExportedTrip.stops importedData in
  let activities := ExportedTrip.activities importedData in
  (* Prepare trip without IDs *)
  let newTrip :=
    TripInsert.mk userId (Trip.name trip +:+ " (Imported)")
      (Trip.description trip) (Trip.start_date trip) (Trip.end_date trip)
      (Trip.cover_image trip) false None (Trip.total_budget trip) in
  (* Prepare stops without IDs and trip_id, but keep original ID for mapping *)
  let newStops :=
    (fun s => NewStop.mk (stop_with_order_index (TripStop.fields s)) (TripStop.id s))
      <$> stops in
  (* Prepare activities without IDs and trip_stop_id *)
  let newActivities :=
    (fun a => NewActivity.mk (activity_with_order_index (TripActivity.fields a))
                (TripActivity.trip_stop_id a))
      <$> activities in
  Prepared.mk newTrip newStops newActivities.

(** *** [TripView.handleImport] (unnamed/part_005) *)

Module TripView.

(** [exportTrip(trip, stops, allActivities)] with the activities gathered from
    the stops of the screen. *)
Definition handleExport (trip : Trip.t) (stops : list TripStop.t)
    (exportedAt : string) : ExportedTrip.t :=
  exportTrip trip stops (concat (activities_of <$> stops)) exportedAt.

(** One turn of the loop that creates the stops; the state is the store and
    the map from old stop ids to new ones. *)
Definition createStop (tripId : string)
    (acc : Store.t * gmap string string) (stopData : NewStop.t)
    : Store.t * gmap string string :=
  let '(st, stopIdMap) := acc in
  let '(createdStop, st') := Store.insert_stop tripId (NewStop.fields stopData) st in
  match createdStop with
  | Some created =>
      if negb (String.eqb (NewStop._original_stop_id stopData) "")
      then (st', <[NewStop._original_stop_id stopData := TripStop.id created]> stopIdMap)
      else (st', stopIdMap)
  | None => (st', stopIdMap)
  end.

(** [.filter(a => a._original_stop_id && stopIdMap.has(a._original_stop_id))
     .map(a => ({ ...activityData, trip_stop_id: stopIdMap.get(...) }))] *)
Definition activitiesToInsert (stopIdMap : gmap string string)
    (newActivitiesData : list NewActivity.t) : list (string * ActivityFields.t) :=
  omap (fun a =>
          if String.eqb (NewActivity._original_stop_id a) "" then None
          else
            match stopIdMap !! NewActivity._original_stop_id a with
            | Some newStopId => Some (newStopId, NewActivity.fields a)
            | None => None
            end)
       newActivitiesData.

(** The two phases after a successful [importTrip]. *)
Definition insertImported (prepared : Prepared.t) (rng : list string) (st : Store.t)
    : list string * Store.t :=
  let newTripData := Prepared.trip prepared in
  let '(shareCode, rng') := random_code rng in
  (* Create trip *)
  let '(createdTrip, st1) :=
    Store.insert_trip
      (TripInsert.mk (TripInsert.user_id newTripData) (TripInsert.name newTripData)
         (TripInsert.description newTripData) (TripInsert.start_date newTripData)
         (TripInsert.end_date newTripData) (TripInsert.cover_image newTripData)
         (TripInsert.is_public newTripData) (Some shareCode)
         (TripInsert.total_budget newTripData)) st in
  match createdTrip with
  | None => (rng', st1)
  | Some createdTrip =>
      (* Create stops and map old IDs to new IDs *)
      let '(st2, stopIdMap) :=
        fold_left (createStop (Trip.id createdTrip)) (Prepared.stops prepared)
                  (st1, ∅) in
      (* Create activities with mapped stop IDs *)
      let toInsert := activitiesToInsert stopIdMap (Prepared.activities prepared) in
      if (0 <? length toInsert)%nat
      then (rng', Store.insert_activities toInsert st2)
      else (rng', st2)
  end.

(** [parsed] is the parsed text of the chosen file ([None] when [JSON.parse]
    throws) and [user] the signed-in user's id.  A value that passes the
    structural check without having the declared shape of an [ExportedTrip]
    is outside the typed model; the last branch stands for it. *)
Definition handleImport (parsed : option js_value) (user : option string)
    (rng : list string) (st : Store.t) : list string * Store.t :=
  match user with
  | None => (rng, st)
  | Some userId =>
      match importTrip parsed with
      | None => (rng, st)
      | Some importedData =>
          match asExportedTrip importedData with
          | Some doc => insertImported (prepareImportedTripForInsert doc userId) rng st
          | None => (rng, st)
          end
      end
  end.

(** [calculateTotalCost] of the trip view *)
Definition calculateTotalCost (stops : list TripStop.t) : Z :=
  fold_left
    (fun total stop =>
       fold_left (fun total activity =>
                    total + num_or (TripActivity.estimated_cost activity) 0)
         (activities_of stop)
         (total + num_or (TripStop.transport_cost stop) 0
          + num_or (TripStop.accommodation_cost stop) 0))
    stops 0.

End TripView.

(** ** Reference definitions, in the words of the specification *)

(** Sum of [f] over a list. *)
Definition Zsum {A} (f : A -> Z) (l : list A) : Z :=
  foldr (fun x acc => f x + acc) 0 l.

(** Every activity of every stop, in order. *)
Definition all_activities (stops : list TripStop.t) : list TripActivity.t :=
  concat (activities_of <$> stops).

(** Two texts are equal up to the case of their letters. *)
Definition eq_ignore_case (a b : string) : Prop := toLowerCase a = toLowerCase b.

(** [label] contains [word] case-insensitively: some segment of [label]
    equals [word] up to case. *)
Definition contains_ignoring_case (label word : string) : Prop :=
  exists pre mid post, label = pre +:+ mid +:+ post /\ eq_ignore_case mid word.

(** The category label routes the cost to meals. *)
Definition meal_label (category : option string) : Prop :=
  exists label, category = Some label
    /\ (contains_ignoring_case label "food" \/ contains_ignoring_case label "dining").

(** Costs of the activities whose label routes them to meals, and of the
    others. *)
Definition meal_costs (activities : list TripActivity.t) : Z :=
  Zsum TripActivity.estimated_cost
    (List.filter (fun a => is_meal_category (TripActivity.category a)) activities).

Definition other_costs (activities : list TripActivity.t) : Z :=
  Zsum TripActivity.estimated_cost
    (List.filter (fun a => negb (is_meal_category (TripActivity.category a))) activities).

(** The stop and the activity of the worked example of the specification. *)
Definition sightseeing : TripActivity.t :=
  TripActivity.mk "a1" "s1"
    (ActivityFields.mk None "City tour" None None None 2 500 0 (Some "Sightseeing") true).

Definition example_stop : TripStop.t :=
  TripStop.mk "s1" "t1"
    (StopFields.mk None "Jaipur" (Some "India") (Some "2024-01-01") (Some "2024-01-02")
       0 1000 2000 None (Some [sightseeing])).

(** A trip with the given dates, and stops with a given number of
    activities, for the worked examples. *)
Definition trip_dated (start_date end_date : option string) : Trip.t :=
  Trip.mk "t1" "u1" "Rajasthan" None start_date end_date None false None 10000
    "2024-01-01T00:00:00.000Z" "2024-01-01T00:00:00.000Z".

Definition stop_with (n : nat) : TripStop.t :=
  TripStop.mk "s1" "t1"
    (StopFields.mk None "Jaipur" None None None 0 0 0 None
       (Some (replicate n sightseeing))).

(** [computeDurationDays] of the specification: "if both start and end date
    present, (end - start in whole days) + 1; else 0". *)
Definition computeDurationDays (trip : Trip.t) : number :=
  match Trip.start_date trip, Trip.end_date trip with
  | Some start_date, Some end_date =>
      if String.eqb start_date "" || String.eqb end_date "" then of_Z 0
      else inclusiveDays start_date end_date
  | _, _ => of_Z 0
  end.

(** [computeAverageDailyCost] of the specification:
    "computeTotalEstimated / max(1, computeDurationDays)". *)
Definition computeAverageDailyCost (trip : Trip.t) (stops : list TripStop.t) : number :=
  num_div (of_Z (totalEstimated stops)) (Math_max (of_Z 1) (computeDurationDays trip)).



(** The stop of the specification's example, dated 2024-01-01 to 2024-01-02,
    with one activity on the given day. *)
Definition museum_on (day : string) : TripActivity.t :=
  TripActivity.mk "a1" "s1"
    (ActivityFields.mk None "Museum" None (Some day) None 2 500 0 (Some "Culture"%string)
       true).

Definition two_day_stop (day : string) : TripStop.t :=
  TripStop.mk "s1" "t1"
    (StopFields.mk None "Jaipur" None (Some "2024-01-01"%string)
       (Some "2024-01-02"%string) 0 0 0 None (Some [museum_on day])).


(** The list of stops after the stops at positions [i] and [j] have changed
    places while the order indices have stayed at their positions. *)
Definition swapped (i j : nat) (stops : list TripStop.t) : list TripStop.t :=
  match stops !! i, stops !! j with
  | Some x, Some y =>
      <[i := TripStop.set_order_index (TripStop.order_index x) y]>
        (<[j := TripStop.set_order_index (TripStop.order_index y) x]> stops)
  | _, _ => stops
  end.

(** The rows of the store after the order indices of [x] and [y] have been
    exchanged. *)
Definition exchange_row (x y row : TripStop.t) : TripStop.t :=
  if decide (TripStop.id row = TripStop.id x)
  then TripStop.set_order_index (TripStop.order_index y) row
  else if decide (TripStop.id row = TripStop.id y)
       then TripStop.set_order_index (TripStop.order_index x) row
       else row.

(** The order index of every stop of the state is the one of its row. *)
Definition state_matches_store (stops : list TripStop.t) (st : Store.t) : Prop :=
  forall s row, s ∈ stops -> row ∈ Store.trip_stops st ->
    TripStop.id row = TripStop.id s ->
    TripStop.order_index row = TripStop.order_index s.

(** The states of the two scenarios in which a new stop takes an order index
    that is in use. *)
Definition paris_trip : Trip.t :=
  Trip.mk "t1" "u1" "Europe" None None None None false None 0
    "2024-01-01T00:00:00.000Z" "2024-01-01T00:00:00.000Z".

Definition store_with_paris : Store.t :=
  Store.mk [paris_trip]
    [TripStop.mk "s1" "t1"
       (StopFields.mk None "Paris" (Some "France"%string) None None 0 0 0 None None)]
    [] true "2024-01-01T00:00:00.000Z".

Definition temple : DestinationSuggestions.TouristSpot :=
  DestinationSuggestions.mkSpot "Senso-ji" "A temple" "Culture" 0 2.

Definition city (name : string) : TripBuilder.NewStop :=
  TripBuilder.mkNewStop name "" "" "".

(** Three stops are added to an empty trip, the second one is deleted and a
    fourth one is added. *)
Definition add_delete_add : list TripStop.t * Store.t :=
  let st0 := Store.mk [paris_trip] [] [] true "2024-01-01T00:00:00.000Z" in
  let '(stops1, st1) := TripBuilder.handleAddStop paris_trip (city "Paris") [] st0 in
  let '(stops2, st2) := TripBuilder.handleAddStop paris_trip (city "Rome") stops1 st1 in
  let '(stops3, st3) := TripBuilder.handleAddStop paris_trip (city "Vienna") stops2 st2 in
  let second := default "" (TripStop.id <$> stops3 !! 1%nat) in
  let '(stops4, st4) := TripBuilder.handleDeleteStop second stops3 st3 in
  TripBuilder.handleAddStop paris_trip (city "Prague") stops4 st4.

(** A trip that has no share code yet, and a private one that has a code. *)
Definition unshared_trip : Trip.t :=
  Trip.mk "t1" "u1" "Europe" None None None None false None 0
    "2024-01-01T00:00:00.000Z" "2024-01-01T00:00:00.000Z".

Definition private_trip : Trip.t :=
  Trip.mk "t1" "u1" "Europe" None None None None false (Some "k3x9q2ab"%string) 0
    "2024-01-01T00:00:00.000Z" "2024-01-01T00:00:00.000Z".

Definition store_of (trip : Trip.t) : Store.t :=
  Store.mk [trip] [] [] true "2024-01-01T00:00:00.000Z".

(** A trip graph: the trip is named, the stops have distinct non-empty ids
    and every activity belongs to one of the stops. *)
Definition trip_graph (trip : Trip.t) (stops : list TripStop.t)
    (activities : list TripActivity.t) : Prop :=
  Trip.name trip <> ""%string
  /\ NoDup (TripStop.id <$> stops)
  /\ Forall (fun s => TripStop.id s <> ""%string) stops
  /\ Forall (fun a => TripActivity.trip_stop_id a ∈ (TripStop.id <$> stops)) activities.

(** The activities attached to a stop, without their identifiers. *)
Definition attached (stop_id : string) (activities : list TripActivity.t)
    : list ActivityFields.t :=
  TripActivity.fields
    <$> filter (fun a => TripActivity.trip_stop_id a = stop_id) activities.

(** The graph of the specification's example: two stops with three and two
    activities. *)
Definition europe : Trip.t :=
  Trip.mk "trip-1" "alice" "Europe" (Some "Summer"%string) (Some "2024-07-01"%string)
    (Some "2024-07-05"%string) None true (Some "k3x9q2ab"%string) 90000
    "2024-05-01T10:00:00.000Z" "2024-05-02T10:00:00.000Z".

Definition europe_stops : list TripStop.t :=
  [TripStop.mk "stop-a" "trip-1"
     (StopFields.mk None "Paris" (Some "France"%string) (Some "2024-07-01"%string)
        (Some "2024-07-03"%string) 0 12000 20000 None None);
   TripStop.mk "stop-b" "trip-1"
     (StopFields.mk None "Rome" (Some "Italy"%string) (Some "2024-07-03"%string)
        (Some "2024-07-05"%string) 1 8000 18000 (Some "Book early"%string) None)].

Definition europe_activity (id stop name : string) (cost : Z) : TripActivity.t :=
  TripActivity.mk id stop
    (ActivityFields.mk None name None None None 2 cost 0 (Some "Culture"%string) true).

Definition europe_activities : list TripActivity.t :=
  [europe_activity "act-1" "stop-a" "Louvre" 1500;
   europe_activity "act-2" "stop-b" "Colosseum" 1800;
   europe_activity "act-3" "stop-a" "Eiffel Tower" 2500;
   europe_activity "act-4" "stop-a" "Seine cruise" 1200;
   europe_activity "act-5" "stop-b" "Vatican" 2000].

(** [rows.find(r => r.id === id)] *)
Definition find_by {A} (ident : A -> string) (id : string) (rows : list A) : option A :=
  snd <$> list_find (fun r => ident r = id) rows.

(** ** The offline data layer (lib/local-data.ts)

    [localStorage] keeps one JSON text per collection; [getStorage] parses it
    and [setStorage] writes it back whole.  A collection is modelled by the
    list it parses to, [None] when its key was never written.  The functions
    are those of the browser, where [window] is defined. *)

Module LocalData.

Record Storage := mkStorage {
  TRIPS : option (list Trip.t);
  TRIP_STOPS : option (list TripStop.t);
  TRIP_ACTIVITIES : option (list TripActivity.t)
}.

(** [getStorage(key)]: [data ? JSON.parse(data) : []] *)
Definition getStorage {A} (collection : option (list A)) : list A :=
  default [] collection.

(** The readings of [Date.now()] and [new Date().toISOString()]. *)
Record Clock := mkClock {
  ms : Z;
  iso : string
}.

(** [`${prefix}-${Date.now()}-${Math.random().toString(36).substr(2, 9)}`] *)
Definition make_id (prefix : string) (now : Clock) (code : string) : string :=
  prefix +:+ "-" +:+ pretty (ms now) +:+ "-" +:+ code.

(** [array.sort((a, b) => key(a) - key(b))]: the sort of the language is
    stable, as is this insertion sort. *)
Fixpoint insert_by {A} (key : A -> Z) (x : A) (l : list A) : list A :=
  match l with
  | [] => [x]
  | y :: l' => if key x <=? key y then x :: y :: l' else y :: insert_by key x l'
  end.

Definition sort_by {A} (key : A -> Z) (l : list A) : list A :=
  foldr (insert_by key) [] l.

(** *** [localTripAPI] *)

Definition trips_getAll (userId : option string) (s : Storage) : list Trip.t :=
  let trips := getStorage (TRIPS s) in
  if truthy userId
  then filter (fun t => Some (Trip.user_id t) = userId) trips
  else trips.

Definition trips_getById (id : string) (s : Storage) : option Trip.t :=
  find_by Trip.id id (trips_getAll None s).

Definition trips_create (trip : TripInsert.t) (now later : Clock) (code : string)
    (s : Storage) : Trip.t * Storage :=
  let newTrip :=
    Trip.mk (make_id "trip" now code) (TripInsert.user_id trip) (TripInsert.name trip)
      (TripInsert.description trip) (TripInsert.start_date trip)
      (TripInsert.end_date trip) (TripInsert.cover_image trip)
      (TripInsert.is_public trip) (TripInsert.share_code trip)
      (TripInsert.total_budget trip) (iso now) (iso later) in
  let trips := getStorage (TRIPS s) in
  (newTrip, mkStorage (Some (trips ++ [newTrip])) (TRIP_STOPS s) (TRIP_ACTIVITIES s)).

(** [Partial<Trip>]: the properties that are present. *)
Record TripUpdates := mkTripUpdates {
  u_id : option string;
  u_user_id : option string;
  u_name : option string;
  u_description : option (option string);
  u_start_date : option (option string);
  u_end_date : option (option string);
  u_cover_image : option (option string);
  u_is_public : option bool;
  u_share_code : option (option string);
  u_total_budget : option Z;
  u_created_at : option string;
  u_updated_at : option string
}.

(** [{ ...trip, ...updates, updated_at: new Date().toISOString() }] *)
Definition apply_updates (trip : Trip.t) (updates : TripUpdates) (now : Clock) : Trip.t :=
  Trip.mk (default (Trip.id trip) (u_id updates))
    (default (Trip.user_id trip) (u_user_id updates))
    (default (Trip.name trip) (u_name updates))
    (default (Trip.description trip) (u_description updates))
    (default (Trip.start_date trip) (u_start_date updates))
    (default (Trip.end_date trip) (u_end_date updates))
    (default (Trip.cover_image trip) (u_cover_image updates))
    (default (Trip.is_public trip) (u_is_public updates))
    (default (Trip.share_code trip) (u_share_code updates))
    (default (Trip.total_budget trip) (u_total_budget updates))
    (default (Trip.created_at trip) (u_created_at updates))
    (iso now).

Definition trips_update (id : string) (updates : TripUpdates) (now : Clock)
    (s : Storage) : option Trip.t * Storage :=
  let trips := getStorage (TRIPS s) in
  match list_find (fun t => Trip.id t = id) trips with
  | None => (None, s)
  | Some (index, found) =>
      let updated := apply_updates found updates now in
      (Some updated,
       mkStorage (Some (<[index := updated]> trips)) (TRIP_STOPS s) (TRIP_ACTIVITIES s))
  end.

Definition trips_delete (id : string) (s : Storage) : bool * Storage :=
  let trips := getStorage (TRIPS s) in
  let filtered := filter (fun t => Trip.id t <> id) trips in
  ((length filtered <? length trips)%nat,
   mkStorage (Some filtered) (TRIP_STOPS s) (TRIP_ACTIVITIES s)).

(** *** [localTripStopAPI] *)

Definition stops_getByTrip (tripId : string) (s : Storage) : list TripStop.t :=
  sort_by TripStop.order_index
    (filter (fun stop => TripStop.trip_id stop = tripId) (getStorage (TRIP_STOPS s))).

(** [create(stop: Omit<TripStop, 'id'>)] *)
Definition stops_create (trip_id : string) (stop : StopFields.t) (now : Clock)
    (code : string) (s : Storage) : TripStop.t * Storage :=
  let newStop := TripStop.mk (make_id "stop" now code) trip_id stop in
  (newStop,
   mkStorage (TRIPS s) (Some (getStorage (TRIP_STOPS s) ++ [newStop]))
     (TRIP_ACTIVITIES s)).

Definition stops_delete (id : string) (s : Storage) : bool * Storage :=
  let stops := getStorage (TRIP_STOPS s) in
  let filtered := filter (fun stop => TripStop.id stop <> id) stops in
  ((length filtered <? length stops)%nat,
   mkStorage (TRIPS s) (Some filtered) (TRIP_ACTIVITIES s)).

(** One turn of [stopIds.forEach((id, index) => ...)]: the first stop with
    this id in this trip, if any, gets [index] as its order index. *)
Definition renumber (tripId id : string) (index : nat) (stops : list TripStop.t)
    : list TripStop.t :=
  match list_find (fun stop => TripStop.id stop = id /\ TripStop.trip_id stop = tripId)
                  stops with
  | Some (position, _) =>
      alter (TripStop.set_order_index (Z.of_nat index)) position stops
  | None => stops
  end.

Fixpoint renumber_from (tripId : string) (index : nat) (stopIds : list string)
    (stops : list TripStop.t) : list TripStop.t :=
  match stopIds with
  | [] => stops
  | id :: rest => renumber_from tripId (S index) rest (renumber tripId id index stops)
  end.

Definition stops_reorder (tripId : string) (stopIds : list string) (s : Storage)
    : Storage :=
  mkStorage (TRIPS s)
    (Some (renumber_from tripId 0 stopIds (getStorage (TRIP_STOPS s))))
    (TRIP_ACTIVITIES s).

(** *** [localTripActivityAPI] *)

Definition activities_getByStop (stopId : string) (s : Storage) : list TripActivity.t :=
  sort_by TripActivity.order_index
    (filter (fun a => TripActivity.trip_stop_id a = stopId)
            (getStorage (TRIP_ACTIVITIES s))).

(** [create(activity: Omit<TripActivity, 'id'>)] *)
Definition activities_create (trip_stop_id : string) (activity : ActivityFields.t)
    (now : Clock) (code : string) (s : Storage) : TripActivity.t * Storage :=
  let newActivity := TripActivity.mk (make_id "activity" now code) trip_stop_id activity in
  (newActivity,
   mkStorage (TRIPS s) (TRIP_STOPS s)
     (Some (getStorage (TRIP_ACTIVITIES s) ++ [newActivity]))).

Definition activities_delete (id : string) (s : Storage) : bool * Storage :=
  let activities := getStorage (TRIP_ACTIVITIES s) in
  let filtered := filter (fun a => TripActivity.id a <> id) activities in
  ((length filtered <? length activities)%nat,
   mkStorage (TRIPS s) (TRIP_STOPS s) (Some filtered)).

End LocalData.

(** ** What [reorder] does to one stop

    [renumber_one] is one turn of the loop of [localTripStopAPI.reorder] seen
    from a stop that the turn finds; [renumbered] is the whole loop seen from
    that stop, and [position_in] the index at which an id first stands in
    the list of ids, counted from [index]. *)

Definition renumber_one (tripId id : string) (index : nat) (stop : TripStop.t)
    : TripStop.t :=
  if decide (TripStop.id stop = id /\ TripStop.trip_id stop = tripId)
  then TripStop.set_order_index (Z.of_nat index) stop
  else stop.

Fixpoint renumbered (tripId : string) (index : nat) (stopIds : list string)
    (stop : TripStop.t) : TripStop.t :=
  match stopIds with
  | [] => stop
  | id :: rest => renumbered tripId (S index) rest (renumber_one tripId id index stop)
  end.

Fixpoint position_in (x : string) (index : nat) (stopIds : list string) : nat :=
  match stopIds with
  | [] => index
  | id :: rest => if decide (x = id) then index else position_in x (S index) rest
  end.

(** A stop after some turns of the loop of [reorder]: itself, or, for a stop
    of the trip, itself with another order index. *)
Definition reordered (tripId : string) (before after : TripStop.t) : Prop :=
  after = before
  \/ (TripStop.trip_id before = tripId
      /\ exists v, after = TripStop.set_order_index v before).

(** The stops of the worked example, as the offline layer stores them. *)
Definition europe_offline : LocalData.Storage :=
  LocalData.mkStorage None (Some europe_stops) None.

(** A store that rejects every request, holding the worked example. *)
Definition rejecting_store : Store.t :=
  Store.mk [europe] europe_stops [] false "2024-05-02T10:00:00.000Z".

(** A store and a builder state that hold one stop with one activity. *)
Definition store_with_museum : Store.t :=
  Store.mk [paris_trip] [two_day_stop "2024-01-01"] [museum_on "2024-01-01"] true
    "2024-01-01T00:00:00.000Z".

Definition unnamed_activity : TripBuilder.PartialActivity :=
  TripBuilder.mkPartialActivity None None None None None.

(** ** Copying a shared trip (components/shared-trip-view.tsx, [handleCopyTrip])

    [trip] and [stops] are the state of the view, the stops with their
    activities nested as [loadSharedTrip] left them; [user] is the signed-in
    user's id.  The first component of the result is the [copied] flag. *)

Module SharedTripView.

(** The payload of the insert of one stop: the nine columns it names. *)
Definition stopToInsert (stop : TripStop.t) : StopFields.t :=
  let f := TripStop.fields stop in
  StopFields.mk (StopFields.city_id f) (StopFields.city_name f) (StopFields.country f)
    (StopFields.start_date f) (StopFields.end_date f) (StopFields.order_index f)
    (StopFields.transport_cost f) (StopFields.accommodation_cost f)
    (StopFields.notes f) None.

(** [stop.activities.map(activity => ({ trip_stop_id: newStop.id, ... }))] *)
Definition activitiesToInsert (newStopId : string) (activities : list TripActivity.t)
    : list (string * ActivityFields.t) :=
  (fun activity =>
     let f := TripActivity.fields activity in
     (newStopId,
      ActivityFields.mk (ActivityFields.activity_id f) (ActivityFields.name f)
        (ActivityFields.description f) (ActivityFields.scheduled_date f)
        (ActivityFields.scheduled_time f) (ActivityFields.duration_hours f)
        (ActivityFields.estimated_cost f) (ActivityFields.order_index f)
        (ActivityFields.category f) (ActivityFields.is_custom f)))
    <$> activities.

(** One turn of [for (const stop of stops)]. *)
Definition copyStop (newTripId : string) (st : Store.t) (stop : TripStop.t) : Store.t :=
  let '(newStop, st') := Store.insert_stop newTripId (stopToInsert stop) st in
  match newStop with
  | None => st'
  | Some newStop =>
      (* Copy all activities for this stop *)
      match TripStop.activities stop with
      | Some ((_ :: _) as activities) =>
          Store.insert_activities (activitiesToInsert (TripStop.id newStop) activities) st'
      | _ => st'
      end
  end.

Definition handleCopyTrip (user : option string) (trip : option Trip.t)
    (stops : list TripStop.t) (rng : list string) (st : Store.t)
    : bool * list string * Store.t :=
  match user, trip with
  | Some userId, Some trip =>
      (* Create a new trip based on the shared one *)
      let '(shareCode, rng') := random_code rng in
      let '(newTrip, st1) :=
        Store.insert_trip
          (TripInsert.mk userId (Trip.name trip +:+ " (Copy)") (Trip.description trip)
             (Trip.start_date trip) (Trip.end_date trip) (Trip.cover_image trip)
             false (Some shareCode) (Trip.total_budget trip)) st in
      match newTrip with
      | None => (false, rng', st1)
      | Some newTrip =>
          (* Copy all stops *)
          (true, rng', fold_left (copyStop (Trip.id newTrip)) stops st1)
      end
  | _, _ => (false, rng, st)
  end.

(** [totalCost] of the shared view *)
Definition totalCost (stops : list TripStop.t) : Z :=
  fold_left
    (fun sum stop =>
       let stopCost :=
         match TripStop.activities stop with
         | Some activities =>
             num_or (fold_left (fun a act => a + num_or (TripActivity.estimated_cost act) 0)
                       activities 0) 0
         | None => 0
         end in
       sum + stopCost + num_or (TripStop.transport_cost stop) 0
       + num_or (TripStop.accommodation_cost stop) 0)
    stops 0.

End SharedTripView.

(** A stop of the view and what the copy holds for it: the row of the new
    stop and the rows of its activities. *)
Definition copy_of (newTripId : string) (stop : TripStop.t)
    (copy : TripStop.t * list TripActivity.t) : Prop :=
  TripStop.trip_id (fst copy) = newTripId
  /\ TripStop.fields (fst copy) = SharedTripView.stopToInsert stop
  /\ Forall2 (fun activity row =>
                TripActivity.trip_stop_id row = TripStop.id (fst copy)
                /\ TripActivity.fields row = TripActivity.fields activity)
       (default [] (TripStop.activities stop)) (snd copy).

(** ** Summary panel: estimated budget (components/trip-summary-panel.tsx) *)

(** [a * b] *)
Definition num_mul (a b : number) : number :=
  match a, b with
  | NaN, _ | _, NaN => NaN
  | Finite p, Finite q => Finite (Qmult p q)
  | Finite p, PosInfinity | PosInfinity, Finite p =>
      if Qis_zero p then NaN else if Qis_neg p then NegInfinity else PosInfinity
  | Finite p, NegInfinity | NegInfinity, Finite p =>
      if Qis_zero p then NaN else if Qis_neg p then PosInfinity else NegInfinity
  | PosInfinity, PosInfinity | NegInfinity, NegInfinity => PosInfinity
  | PosInfinity, NegInfinity | NegInfinity, PosInfinity => NegInfinity
  end.

Definition MEAL_ALLOWANCE_PER_DAY : Z := 1500.

Definition calculateEstimatedBudget (trip : Trip.t) (stops : list TripStop.t) : number :=
  let total :=
    fold_left
      (fun total stop =>
         fold_left (fun total activity =>
                      total + num_or (TripActivity.estimated_cost activity) 0)
           (activities_of stop)
           (total + num_or (TripStop.transport_cost stop) 0
            + num_or (TripStop.accommodation_cost stop) 0))
      stops 0 in
  (* Add estimated meals if not tracked *)
  if truthy (Trip.start_date trip) && truthy (Trip.end_date trip)
  then
    let days :=
      inclusiveDays (default "" (Trip.start_date trip)) (default "" (Trip.end_date trip)) in
    let estimatedMeals := num_mul days (of_Z MEAL_ALLOWANCE_PER_DAY) in
    num_add (of_Z total) estimatedMeals
  else of_Z total.

(** [barData] of the budget screen, without the label of the bar. *)
Record Bar := mkBar {
  Transport : Z;
  Accommodation : Z;
  Activities : Z
}.

Definition barData (stops : list TripStop.t) : list Bar :=
  (fun stop =>
     let stopActivitiesCost :=
       match TripStop.activities stop with
       | Some activities =>
           num_or (fold_left (fun sum a => sum + num_or (TripActivity.estimated_cost a) 0)
                     activities 0) 0
       | None => 0
       end in
     mkBar (num_or (TripStop.transport_cost stop) 0)
       (num_or (TripStop.accommodation_cost stop) 0) stopActivitiesCost)
    <$> stops.

(** ** Conflict alerts: too many activities in a day
    (components/conflict-alerts.tsx, the second loop of [ConflictAlerts]) *)

(** [Math.round(a)]: the nearest whole number, a half going up. *)
Definition Math_round (a : number) : number :=
  match a with
  | Finite q => of_Z (Qfloor (q + (1 # 2)))
  | _ => a
  end.

(** [`${a}`] on the values the template is filled with: infinities, NaN and
    whole numbers, which are written in decimal notation (a number of
    activities per day is below the greatest length of an array). *)
Definition number_text (a : number) : string :=
  match a with
  | Finite q => pretty (Qfloor q)
  | PosInfinity => "Infinity"
  | NegInfinity => "-Infinity"
  | NaN => "NaN"
  end.

Definition tooManyAlert (stop : TripStop.t) (activitiesPerDay : number) : Alert.t :=
  Alert.mk activities_alert
    (TripStop.city_name stop +:+ " has " +:+ number_text (Math_round activitiesPerDay)
       +:+ " activities/day - consider spreading them out")
    warning.

(** Body of the second [stops.forEach(stop => ...)]. *)
Definition checkStopActivities (stop : TripStop.t) : list Alert.t :=
  match TripStop.activities stop, TripStop.start_date stop, TripStop.end_date stop with
  | Some activities, Some start_date, Some end_date =>
      if (length activities =? 0)%nat
         || String.eqb start_date "" || String.eqb end_date ""
      then []
      else
        let stopDays := inclusiveDays start_date end_date in
        let activitiesPerDay :=
          num_div (of_Z (Z.of_nat (length activities))) stopDays in
        if num_gt activitiesPerDay (of_Z 5)
        then [tooManyAlert stop activitiesPerDay]
        else []
  | _, _, _ => []
  end.

Definition tooManyActivitiesAlerts (stops : list TripStop.t) : list Alert.t :=
  concat (checkStopActivities <$> stops).

(** A stop of the worked examples with dates and a number of activities. *)
Definition crowded_stop (n : nat) (start_date end_date : string) : TripStop.t :=
  TripStop.mk "s1" "t1"
    (StopFields.mk None "Jaipur" None (Some start_date) (Some end_date) 0 0 0 None
       (Some (replicate n sightseeing))).

(** ** The list of trips (components/my-trips.tsx) *)

Module MyTrips.

(** [trips.filter(trip =>
      trip.name.toLowerCase().includes(searchQuery.toLowerCase()))] *)
Definition filteredTrips (searchQuery : string) (trips : list Trip.t) : list Trip.t :=
  List.filter (fun trip => includes (toLowerCase (Trip.name trip)) (toLowerCase searchQuery))
    trips.

End MyTrips.

(** ** The offline data layer: cities (lib/local-data.ts, [localCityAPI]) *)

Module City.
Record t := mk {
  id : string;
  name : string;
  country : string;
  region : option string;
  cost_index : Z;
  popularity : Z;
  image_url : option string;
  description : option string;
  latitude : option Q;
  longitude : option Q
}.
End City.

(** A [Map] with text keys: its entries in insertion order. *)
Definition JsMap (V : Type) : Type := list (string * V).

(** [map.set(key, value)]: the value of a key that is present is replaced
    where it stands, a new key goes to the end. *)
Fixpoint map_set {V} (key : string) (value : V) (map : JsMap V) : JsMap V :=
  match map with
  | [] => [(key, value)]
  | (k, v) :: rest =>
      if decide (k = key) then (key, value) :: rest
      else (k, v) :: map_set key value rest
  end.

(** [new Map(entries)] *)
Definition map_of {V} (entries : list (string * V)) : JsMap V :=
  foldl (fun map entry => map_set (fst entry) (snd entry) map) [] entries.

Module LocalCities.

(** [STATIC_CITIES] is the list of cities written in the module and [stored]
    the collection kept under the key of the cities. *)
Definition getAll (STATIC_CITIES : list City.t) (stored : option (list City.t))
    : list City.t :=
  (* Merge with static cities, preferring stored data *)
  let staticMap := map_of ((fun c => (City.id c, c)) <$> STATIC_CITIES) in
  let staticMap :=
    foldl (fun map c => map_set (City.id c) c map) staticMap
          (LocalData.getStorage stored) in
  snd <$> staticMap.

Definition getById (STATIC_CITIES : list City.t) (stored : option (list City.t))
    (id : string) : option City.t :=
  find_by City.id id (getAll STATIC_CITIES stored).

End LocalCities.

(** ** Texts written in ASCII

    A text of the model is a string of bytes.  On a text whose characters are
    all ASCII characters, [toLowerCase] is [String.prototype.toLowerCase] and
    [TripBuilder.is_blank] is [!text.trim()]; on other texts the functions of
    the language also lower the letters, and strip the white space, that lie
    outside ASCII.  [isAscii] is the hypothesis of the properties of the
    builder's form and of the search of the trip list that are stated for
    every text of the user. *)
Fixpoint isAscii (text : string) : bool :=
  match text with
  | EmptyString => true
  | String c rest => (nat_of_ascii c <? 128)%nat && isAscii rest
  end.

(** ** Amounts that add up exactly

    An amount of the model is a whole number; the source adds amounts as
    double-precision numbers, and such sums are those of the whole numbers as
    long as none passes [Number.MAX_SAFE_INTEGER].  [exact_amounts stops] says
    that the absolute values of all the amounts of the stops and of their
    activities, with the meal allowance of every stop, stay within it, so
    that every sum the screens form, in whatever order, is exact. *)
Definition MAX_SAFE_INTEGER : Z := 2 ^ 53 - 1.

Definition exact_amounts (stops : list TripStop.t) : Prop :=
  Zsum (fun stop => Z.abs (TripStop.transport_cost stop)
                    + Z.abs (TripStop.accommodation_cost stop)
                    + MEAL_ALLOWANCE_PER_STOP) stops
  + Zsum (fun activity => Z.abs (TripActivity.estimated_cost activity))
      (all_activities stops)
  <= MAX_SAFE_INTEGER.

(** An export in which two stops have the same id and one activity names a
    stop that the export does not hold. *)
Definition stray_export : ExportedTrip.t :=
  exportTrip europe (europe_stops ++ europe_stops)
    (europe_activities ++ [europe_activity "act-6" "stop-z" "Ghost tour" 900])
    "2024-06-01T08:00:00.000Z".

(** * Properties *)

(** ** Texts *)

Lemma num_or_zero x : num_or x 0 = x.
Proof. unfold num_or. destruct (Z.eqb_spec x 0); congruence. Qed.

Lemma prefix_iff (p s : string) :
  String.prefix p s = true <-> exists post, s = p +:+ post.
Proof.
  revert p. induction s as [|d s IH]; intros [|c p]; simpl.
  - split; [intros _; now exists EmptyString | reflexivity].
  - split; [discriminate | intros [post H]; discriminate].
  - split; [intros _; now exists (String d s) | reflexivity].
  - destruct (ascii_dec c d) as [->|Hne].
    + rewrite IH. split; intros [post H]; exists post.
      * change (String d s = String d (p +:+ post)). now rewrite H.
      * now inversion H.
    + split; [discriminate | intros [post H]; inversion H; congruence].
Qed.

Lemma includes_iff (s p : string) :
  includes s p = true <-> exists pre post, s = pre +:+ p +:+ post.
Proof.
  induction s as [|c s IH]; cbn [includes].
  - rewrite orb_false_r, prefix_iff. split.
    + intros [post H]. now exists EmptyString, post.
    + intros (pre & post & H). destruct pre; [now exists post | discriminate].
  - rewrite orb_true_iff, prefix_iff, IH. split.
    + intros [[post H] | (pre & post & H)].
      * now exists EmptyString, post.
      * exists (String c pre), post.
        change (String c s = String c (pre +:+ p +:+ post)). now rewrite H.
    + intros (pre & post & H). destruct pre as [|d pre].
      * left. now exists post.
      * right. inversion H. now exists pre, post.
Qed.

Lemma toLowerCase_app (a b : string) :
  toLowerCase (a +:+ b) = toLowerCase a +:+ toLowerCase b.
Proof.
  induction a as [|c a IH]; [reflexivity|].
  change (String (lower_char c) (toLowerCase (a +:+ b))
          = String (lower_char c) (toLowerCase a +:+ toLowerCase b)).
  now rewrite IH.
Qed.

Lemma toLowerCase_split (s a b : string) :
  toLowerCase s = a +:+ b ->
  exists s1 s2, s = s1 +:+ s2 /\ toLowerCase s1 = a /\ toLowerCase s2 = b.
Proof.
  revert s. induction a as [|c a IH]; intros s H.
  - exists EmptyString, s. auto.
  - destruct s as [|d s]; [discriminate|]. simpl in H. inversion H as [[Hc Ht]].
    destruct (IH _ Ht) as (s1 & s2 & -> & H1 & H2).
    exists (String d s1), s2. simpl. now rewrite H1.
Qed.

(** The test of the source is containment up to case, for a lower-case word. *)
Lemma includes_toLowerCase (label word : string) :
  toLowerCase word = word ->
  includes (toLowerCase label) word = true <-> contains_ignoring_case label word.
Proof.
  intros Hw. rewrite includes_iff. split.
  - intros (pre & post & H).
    apply toLowerCase_split in H as (s1 & s2 & -> & H1 & H2).
    apply toLowerCase_split in H2 as (m & s3 & -> & Hm & H3).
    exists s1, m, s3. split; [reflexivity|]. unfold eq_ignore_case. congruence.
  - intros (pre & mid & post & -> & Hm). unfold eq_ignore_case in Hm.
    exists (toLowerCase pre), (toLowerCase post).
    rewrite !toLowerCase_app. congruence.
Qed.

Lemma is_meal_category_iff (category : option string) :
  is_meal_category category = true <-> meal_label category.
Proof.
  unfold is_meal_category, meal_label. destruct category as [label|].
  - rewrite orb_true_iff, !includes_toLowerCase by reflexivity. split.
    + intros H. now exists label.
    + intros (l & [= <-] & H). exact H.
  - split; [discriminate | intros (l & H & _); discriminate].
Qed.

(** ** Cost breakdown *)

Lemma Zsum_cons {A} (f : A -> Z) (x : A) (l : list A) :
  Zsum f (x :: l) = f x + Zsum f l.
Proof. reflexivity. Qed.

Lemma Zsum_app {A} (f : A -> Z) (l1 l2 : list A) :
  Zsum f (l1 ++ l2) = Zsum f l1 + Zsum f l2.
Proof. induction l1 as [|x l1 IH]; simpl; [reflexivity | rewrite IH; lia]. Qed.

Lemma meal_costs_app (l1 l2 : list TripActivity.t) :
  meal_costs (l1 ++ l2) = meal_costs l1 + meal_costs l2.
Proof. unfold meal_costs. now rewrite List.filter_app, Zsum_app. Qed.

Lemma other_costs_app (l1 l2 : list TripActivity.t) :
  other_costs (l1 ++ l2) = other_costs l1 + other_costs l2.
Proof. unfold other_costs. now rewrite List.filter_app, Zsum_app. Qed.

(** The inner loop adds the meal costs to [meals] and the others to
    [activities]. *)
Lemma fold_add_activity (activities : list TripActivity.t) (acc : Costs.t) :
  fold_left add_activity activities acc
  = Costs.mk (Costs.transport acc) (Costs.accommodation acc)
      (Costs.activities acc + other_costs activities)
      (Costs.meals acc + meal_costs activities).
Proof.
  revert acc. induction activities as [|a l IH]; intros acc.
  - destruct acc. unfold other_costs, meal_costs. simpl. f_equal; lia.
  - cbn [fold_left]. rewrite IH. unfold add_activity, other_costs, meal_costs.
    rewrite num_or_zero. cbn [List.filter].
    destruct (is_meal_category (TripActivity.category a)); simpl; f_equal; lia.
Qed.

Lemma fold_add_stop (stops : list TripStop.t) (acc : Costs.t) :
  fold_left add_stop stops acc
  = Costs.mk (Costs.transport acc + Zsum TripStop.transport_cost stops)
      (Costs.accommodation acc + Zsum TripStop.accommodation_cost stops)
      (Costs.activities acc + other_costs (all_activities stops))
      (Costs.meals acc + meal_costs (all_activities stops)).
Proof.
  revert acc. induction stops as [|s l IH]; intros acc.
  - destruct acc. unfold other_costs, meal_costs. simpl. f_equal; lia.
  - cbn [fold_left]. rewrite IH. unfold add_stop. rewrite fold_add_activity.
    rewrite !num_or_zero. unfold all_activities. cbn [fmap list_fmap concat].
    fold (all_activities l). rewrite meal_costs_app, other_costs_app.
    rewrite !Zsum_cons.
    cbn [Costs.transport Costs.accommodation Costs.activities Costs.meals].
    f_equal; lia.
Qed.

Lemma calculateCosts_eq (stops : list TripStop.t) :
  calculateCosts stops
  = Costs.mk (Zsum TripStop.transport_cost stops)
      (Zsum TripStop.accommodation_cost stops)
      (other_costs (all_activities stops))
      (num_or (meal_costs (all_activities stops))
         (Z.of_nat (length stops) * MEAL_ALLOWANCE_PER_STOP)).
Proof.
  unfold calculateCosts. rewrite fold_add_stop.
  cbn [Costs.transport Costs.accommodation Costs.activities Costs.meals].
  reflexivity.
Qed.

(** C5. The breakdown sums the transport and accommodation costs of the
    stops, sends the estimated cost of an activity to meals exactly when its
    category label contains "food" or "dining" up to case and to activities
    otherwise, and replaces the accumulated meals by stops x 1500 exactly when
    that accumulated figure is zero; the worked example yields
    1000 / 2000 / 500 / 1500 and a total of 5000, the sum of the four fields. *)
Theorem calculateCosts_breakdown (stops : list TripStop.t) :
  let costs := calculateCosts stops in
  let accumulated := meal_costs (all_activities stops) in
  Costs.transport costs = Zsum TripStop.transport_cost stops
  /\ Costs.accommodation costs = Zsum TripStop.accommodation_cost stops
  /\ Costs.activities costs = other_costs (all_activities stops)
  /\ Costs.meals costs
     = (if accumulated =? 0
        then Z.of_nat (length stops) * MEAL_ALLOWANCE_PER_STOP
        else accumulated)
  /\ (forall a : TripActivity.t,
        is_meal_category (TripActivity.category a) = true
        <-> meal_label (TripActivity.category a))
  /\ MEAL_ALLOWANCE_PER_STOP = 1500
  /\ totalEstimated stops
     = Costs.transport costs + Costs.accommodation costs
       + Costs.activities costs + Costs.meals costs
  /\ calculateCosts [example_stop] = Costs.mk 1000 2000 500 1500
  /\ totalEstimated [example_stop] = 5000.
Proof.
  cbv zeta. unfold totalEstimated. rewrite calculateCosts_eq.
  cbn [Costs.transport Costs.accommodation Costs.activities Costs.meals].
  repeat split; try reflexivity; try apply is_meal_category_iff.
Qed.

(** C10. An activity whose category is null adds its estimated cost to the
    activities bucket and leaves meals alone; when every activity of the trip
    has a null category the accumulated meals are zero and the meals figure is
    the per-stop estimate. *)
Theorem null_category_costs (stops : list TripStop.t)
    (Hnull : Forall (fun a => TripActivity.category a = None) (all_activities stops)) :
  (forall acc a, a ∈ all_activities stops ->
     add_activity acc a
     = Costs.mk (Costs.transport acc) (Costs.accommodation acc)
         (Costs.activities acc + TripActivity.estimated_cost a) (Costs.meals acc))
  /\ Costs.activities (calculateCosts stops)
     = Zsum TripActivity.estimated_cost (all_activities stops)
  /\ meal_costs (all_activities stops) = 0
  /\ Costs.meals (calculateCosts stops)
     = Z.of_nat (length stops) * MEAL_ALLOWANCE_PER_STOP.
Proof.
  assert (Hm : meal_costs (all_activities stops) = 0
               /\ other_costs (all_activities stops)
                  = Zsum TripActivity.estimated_cost (all_activities stops)).
  { unfold meal_costs, other_costs.
    induction Hnull as [|a l Ha _ [IHm IHo]]; [split; reflexivity|].
    cbn [List.filter]. rewrite Ha. cbn [is_meal_category negb].
    rewrite !Zsum_cons. split; [exact IHm | now rewrite IHo]. }
  destruct Hm as [Hm Ho]. split; [|split; [|split]].
  - intros acc a Hin. rewrite Forall_forall in Hnull.
    unfold add_activity. rewrite (Hnull a Hin), num_or_zero. reflexivity.
  - rewrite calculateCosts_eq. exact Ho.
  - exact Hm.
  - rewrite calculateCosts_eq. cbn [Costs.meals]. now rewrite Hm.
Qed.

Lemma null_category_costs_witness :
  Forall (fun a => TripActivity.category a = None)
    (all_activities
       [TripStop.mk "s1" "t1"
          (StopFields.mk None "Jaipur" None None None 0 100 200 None
             (Some [TripActivity.mk "a1" "s1"
                      (ActivityFields.mk None "Walk" None None None 1 300 0 None true)]))])
  /\ Costs.meals
       (calculateCosts
          [TripStop.mk "s1" "t1"
             (StopFields.mk None "Jaipur" None None None 0 100 200 None
                (Some [TripActivity.mk "a1" "s1"
                         (ActivityFields.mk None "Walk" None None None 1 300 0 None
                            true)]))])
     = 1500.
Proof.
  split.
  - repeat constructor.
  - apply (null_category_costs
             [TripStop.mk "s1" "t1"
                (StopFields.mk None "Jaipur" None None None 0 100 200 None
                   (Some [TripActivity.mk "a1" "s1"
                            (ActivityFields.mk None "Walk" None None None 1 300 0 None
                               true)]))]).
    repeat constructor.
Defined.

(** ** Numbers *)

Lemma num_le_not_lt (a b : number) : num_le a b = true -> num_lt b a = false.
Proof.
  intros H. destruct a, b; simpl in *; try discriminate; try reflexivity;
    now rewrite H.
Qed.

Lemma num_lt_not_le (a b : number) : num_lt a b = true -> num_le b a = false.
Proof.
  destruct a, b; simpl; try discriminate; try reflexivity;
    intros H; now apply negb_true_iff in H.
Qed.

Lemma num_gt_4_not_lt_2 (r : number) :
  num_gt r (of_Z 4) = true -> num_lt r (of_Z 2) = false.
Proof.
  unfold num_gt. destruct r as [q| | |]; simpl; try discriminate; try reflexivity.
  intros H. apply negb_true_iff in H. apply negb_false_iff.
  apply Qle_bool_iff. destruct (Qlt_le_dec (inject_Z 4) q) as [Hlt|Hle].
  - apply Qlt_le_weak in Hlt. eapply Qle_trans; [|exact Hlt]. discriminate.
  - apply Qle_bool_iff in Hle. congruence.
Qed.

(** ** Pace *)

Lemma truthy_false_iff (s : option string) :
  truthy s = false <-> s = None \/ s = Some ""%string.
Proof.
  destruct s as [s|]; simpl.
  - rewrite negb_false_iff, String.eqb_eq. split.
    + intros ->. now right.
    + intros [H|H]; congruence.
  - split; [now left | reflexivity].
Qed.

(** C3. The label is Planning exactly when a trip date is missing or there is
    no stop; otherwise, with r the number of activities divided by the
    inclusive number of days, r < 2 gives Relaxed, 2 <= r <= 4 gives Balanced
    and r > 4 gives Packed.  Over three days, 9 activities are Balanced, 3 are
    Relaxed and 20 are Packed. *)
Theorem calculateTripPace_label (trip : Trip.t) (stops : list TripStop.t) :
  (calculateTripPace trip stops = Planning
   <-> truthy (Trip.start_date trip) = false
       \/ truthy (Trip.end_date trip) = false
       \/ stops = [])
  /\ (forall start_date end_date,
        Trip.start_date trip = Some start_date ->
        Trip.end_date trip = Some end_date ->
        calculateTripPace trip stops <> Planning ->
        let r := num_div (of_Z (totalActivities stops))
                         (inclusiveDays start_date end_date) in
        (num_lt r (of_Z 2) = true -> calculateTripPace trip stops = Relaxed)
        /\ (num_le (of_Z 2) r = true /\ num_le r (of_Z 4) = true ->
            calculateTripPace trip stops = Balanced)
        /\ (num_gt r (of_Z 4) = true -> calculateTripPace trip stops = Packed))
  /\ inclusiveDays "2024-01-01" "2024-01-03" = of_Z 3
  /\ calculateTripPace (trip_dated (Some "2024-01-01"%string) (Some "2024-01-03"%string))
       [stop_with 4; stop_with 5] = Balanced
  /\ calculateTripPace (trip_dated (Some "2024-01-01"%string) (Some "2024-01-03"%string))
       [stop_with 1; stop_with 2] = Relaxed
  /\ calculateTripPace (trip_dated (Some "2024-01-01"%string) (Some "2024-01-03"%string))
       [stop_with 12; stop_with 8] = Packed.
Proof.
  split; [|split; [|repeat split; vm_compute; reflexivity]].
  - rewrite !truthy_false_iff. unfold calculateTripPace.
    destruct (Trip.start_date trip) as [sd|], (Trip.end_date trip) as [ed|];
      try (split; [intros _; auto | reflexivity]).
    destruct (String.eqb_spec sd "") as [->|Hsd]; cbn [orb].
    { split; [intros _; auto | reflexivity]. }
    destruct (String.eqb_spec ed "") as [->|Hed]; cbn [orb].
    { split; [intros _; auto | reflexivity]. }
    destruct stops as [|s l]; cbn [length Nat.eqb].
    { split; [intros _; auto | reflexivity]. }
    split.
    + destruct (num_lt _ _); [discriminate|]. destruct (num_le _ _); discriminate.
    + intros [[H|H] | [[H|H] | H]]; congruence.
  - intros sd ed Hs He Hne. revert Hne. unfold calculateTripPace. rewrite Hs, He.
    destruct (_ || _ || _); [congruence|]. intros _. cbv zeta.
    set (r := num_div _ _). repeat split.
    + now intros ->.
    + intros [H2 H4]. now rewrite (num_le_not_lt _ _ H2), H4.
    + intros H. rewrite (num_gt_4_not_lt_2 _ H).
      unfold num_gt in H. now rewrite (num_lt_not_le _ _ H).
Qed.

(** ** Average per day *)

Lemma num_sub_Finite (p q : Q) : num_sub (Finite p) (Finite q) = Finite (p + - q).
Proof. reflexivity. Qed.

Lemma num_div_Finite (p q : Q) :
  Qis_zero q = false -> num_div (Finite p) (Finite q) = Finite (p / q).
Proof. intros H. cbn [num_div]. now rewrite H. Qed.

Lemma Math_max_of_Z (a b : Z) : Math_max (of_Z a) (of_Z b) = of_Z (Z.max a b).
Proof.
  unfold Math_max, of_Z. cbn [num_le].
  destruct (Qle_bool (inject_Z a) (inject_Z b)) eqn:Hle.
  - apply Qle_bool_iff in Hle. rewrite <- Zle_Qle in Hle. do 2 f_equal. lia.
  - destruct (Z.max_spec a b) as [[Hlt ->]|[_ ->]]; [|reflexivity].
    assert (Qle_bool (inject_Z a) (inject_Z b) = true); [|congruence].
    apply Qle_bool_iff. rewrite <- Zle_Qle. lia.
Qed.

(** The average of the budget screen on a trip with both dates: the total over
    a whole number of days that is at least 1. *)
Lemma averagePerDay_dated (trip : Trip.t) (stops : list TripStop.t)
    (start_date end_date : string) (t1 t2 : Z) :
  Trip.start_date trip = Some start_date ->
  Trip.end_date trip = Some end_date ->
  parseISO start_date = Some t1 ->
  parseISO end_date = Some t2 ->
  averagePerDay trip stops
  = num_div (of_Z (totalEstimated stops))
      (of_Z (Z.max 1 (Qceiling ((inject_Z t2 + - inject_Z t1) / inject_Z MS_PER_DAY)))).
Proof.
  intros Hs He H1 H2. unfold averagePerDay. rewrite Hs, He.
  destruct (String.eqb_spec start_date "") as [->|_]; [discriminate H1|].
  destruct (String.eqb_spec end_date "") as [->|_]; [discriminate H2|].
  cbn [orb]. rewrite H1, H2. cbn [getTime]. unfold of_Z at 3 4 5.
  rewrite num_sub_Finite, num_div_Finite by reflexivity.
  cbn [Math_ceil]. now rewrite Math_max_of_Z.
Qed.

Lemma computeAverageDailyCost_same_day (trip : Trip.t) (stops : list TripStop.t)
    (start_date end_date : string) (t : Z) :
  Trip.start_date trip = Some start_date ->
  Trip.end_date trip = Some end_date ->
  parseISO start_date = Some t ->
  parseISO end_date = Some t ->
  computeAverageDailyCost trip stops
  = num_div (of_Z (totalEstimated stops)) (Finite (inject_Z 0 + inject_Z 1)).
Proof.
  intros Hs He H1 H2. unfold computeAverageDailyCost, computeDurationDays.
  rewrite Hs, He.
  destruct (String.eqb_spec start_date "") as [->|_]; [discriminate H1|].
  destruct (String.eqb_spec end_date "") as [->|_]; [discriminate H2|].
  cbn [orb]. unfold inclusiveDays. rewrite H1, H2. cbn [differenceInDays].
  rewrite Z.sub_diag. reflexivity.
Qed.

(** C4, as amended.  The average is 0 when a trip date is missing; when both
    dates are present it is the estimated total divided by a whole number of
    days that is at least 1, and for a trip that starts and ends on the same
    day that number is 1, as [computeAverageDailyCost] has it. *)
Theorem averagePerDay_amended (trip : Trip.t) (stops : list TripStop.t) :
  (truthy (Trip.start_date trip) && truthy (Trip.end_date trip) = false ->
   averagePerDay trip stops = of_Z 0)
  /\ (forall start_date end_date t1 t2,
        Trip.start_date trip = Some start_date ->
        Trip.end_date trip = Some end_date ->
        parseISO start_date = Some t1 ->
        parseISO end_date = Some t2 ->
        exists days : Z,
          1 <= days
          /\ averagePerDay trip stops
             = num_div (of_Z (totalEstimated stops)) (of_Z days)
          /\ (t1 = t2 ->
              days = 1
              /\ number_eq (averagePerDay trip stops)
                           (computeAverageDailyCost trip stops)))
  /\ averagePerDay (trip_dated None None) [example_stop] = of_Z 0
  /\ number_eq
       (averagePerDay (trip_dated (Some "2024-01-01"%string) (Some "2024-01-01"%string))
          [example_stop])
       (of_Z 5000).
Proof.
  split; [|split; [|split; [reflexivity | vm_compute; reflexivity]]].
  - unfold averagePerDay, truthy.
    destruct (Trip.start_date trip) as [sd|], (Trip.end_date trip) as [ed|];
      try reflexivity.
    destruct (String.eqb sd ""), (String.eqb ed ""); try reflexivity; discriminate.
  - intros sd ed t1 t2 Hs He H1 H2.
    exists (Z.max 1 (Qceiling ((inject_Z t2 + - inject_Z t1) / inject_Z MS_PER_DAY))).
    split; [lia|]. split; [exact (averagePerDay_dated _ _ _ _ _ _ Hs He H1 H2)|].
    intros ->.
    assert (Hc : Qceiling ((inject_Z t2 + - inject_Z t2) / inject_Z MS_PER_DAY) = 0).
    { assert (Hq : (inject_Z t2 + - inject_Z t2) / inject_Z MS_PER_DAY == 0).
      { rewrite Qplus_opp_r. reflexivity. }
      rewrite Hq. reflexivity. }
    split; [rewrite Hc; reflexivity|].
    rewrite (averagePerDay_dated _ _ _ _ _ _ Hs He H1 H2), Hc.
    rewrite (computeAverageDailyCost_same_day _ _ _ _ _ Hs He H1 H2).
    unfold of_Z. rewrite !num_div_Finite by reflexivity.
    cbn [number_eq]. apply Qdiv_comp; reflexivity.
Qed.

(** C4, as stated, fails: without dates the screen shows 0 where the claim
    has the total over one day, and for a trip from 2024-01-01 to 2024-01-02
    the screen divides by 1 where the claim divides by the 2 inclusive days. *)
Lemma averagePerDay_is_not_computeAverageDailyCost :
  ~ number_eq (averagePerDay (trip_dated None None) [example_stop])
              (computeAverageDailyCost (trip_dated None None) [example_stop])
  /\ ~ number_eq
         (averagePerDay (trip_dated (Some "2024-01-01"%string) (Some "2024-01-02"%string))
            [example_stop])
         (computeAverageDailyCost
            (trip_dated (Some "2024-01-01"%string) (Some "2024-01-02"%string))
            [example_stop]).
Proof. split; intros H; vm_compute in H; discriminate H. Qed.

(** ** Conflict alerts *)






(** ** Reordering the stops *)

Lemma set_order_index_same (s : TripStop.t) :
  TripStop.set_order_index (TripStop.order_index s) s = s.
Proof. destruct s as [i t []]. reflexivity. Qed.

Lemma id_set_order_index (v : Z) (s : TripStop.t) :
  TripStop.id (TripStop.set_order_index v s) = TripStop.id s.
Proof. reflexivity. Qed.

Lemma order_index_set_order_index (v : Z) (s : TripStop.t) :
  TripStop.order_index (TripStop.set_order_index v s) = v.
Proof. reflexivity. Qed.

Lemma set_order_index_twice (v w : Z) (s : TripStop.t) :
  TripStop.set_order_index v (TripStop.set_order_index w s)
  = TripStop.set_order_index v s.
Proof. reflexivity. Qed.

Lemma update_stop_order_index_available (id : string) (v : Z) (st : Store.t) :
  Store.available st = true ->
  Store.update_stop_order_index id v st
  = (false,
     Store.mk (Store.trips st)
       ((fun row => if decide (TripStop.id row = id)
                    then TripStop.set_order_index v row else row)
          <$> Store.trip_stops st)
       (Store.trip_activities st) true (Store.now st)).
Proof. intros H. unfold Store.update_stop_order_index. now rewrite H. Qed.

Lemma list_find_by_id (stops : list TripStop.t) (c : nat) (cur : TripStop.t) :
  NoDup (TripStop.id <$> stops) ->
  stops !! c = Some cur ->
  list_find (fun s => TripStop.id s = TripStop.id cur) stops = Some (c, cur).
Proof.
  intros Hnd Hc. apply list_find_Some. split; [exact Hc|]. split; [reflexivity|].
  intros j y Hy Hlt Hid.
  assert (j = c); [|lia].
  apply (NoDup_lookup _ j c (TripStop.id cur) Hnd);
    rewrite list_lookup_fmap; [rewrite Hy | rewrite Hc]; simpl; congruence.
Qed.

Lemma distinct_ids (stops : list TripStop.t) (i j : nat) (x y : TripStop.t) :
  NoDup (TripStop.id <$> stops) ->
  stops !! i = Some x -> stops !! j = Some y -> i <> j ->
  TripStop.id x <> TripStop.id y.
Proof.
  intros Hnd Hi Hj Hne Hid. apply Hne.
  apply (NoDup_lookup _ i j (TripStop.id x) Hnd);
    rewrite list_lookup_fmap; [rewrite Hi | rewrite Hj]; simpl; congruence.
Qed.

(** What the handler does when the stop at position [c] is moved to the
    adjacent position [n]. *)
Lemma handleReorderStop_swap (direction : TripBuilder.Direction)
    (stops : list TripStop.t) (st : Store.t) (c n : nat) (cur other : TripStop.t) :
  NoDup (TripStop.id <$> stops) ->
  Store.available st = true ->
  stops !! c = Some cur ->
  stops !! n = Some other ->
  (direction = TripBuilder.up /\ c = S n) \/ (direction = TripBuilder.down /\ n = S c) ->
  TripBuilder.handleReorderStop (TripStop.id cur) direction stops st
  = (swapped c n stops,
     Store.mk (Store.trips st) (exchange_row cur other <$> Store.trip_stops st)
       (Store.trip_activities st) true (Store.now st)).
Proof.
  intros Hnd Hav Hc Hn Hadj.
  assert (Hcn : c <> n) by (destruct Hadj as [[_ ->]|[_ ->]]; lia).
  pose proof (lookup_lt_Some _ _ _ Hc) as Hlc.
  pose proof (lookup_lt_Some _ _ _ Hn) as Hln.
  unfold TripBuilder.handleReorderStop. rewrite (list_find_by_id _ _ _ Hnd Hc).
  set (newIndex := match direction with
                   | TripBuilder.up => Z.of_nat c - 1
                   | TripBuilder.down => Z.of_nat c + 1
                   end).
  assert (HnewIndex : newIndex = Z.of_nat n).
  { subst newIndex. destruct Hadj as [[-> ->]|[-> ->]]; lia. }
  rewrite HnewIndex.
  destruct (Z.ltb_spec (Z.of_nat n) 0); [lia|].
  destruct (Z.leb_spec (Z.of_nat (length stops)) (Z.of_nat n)); [lia|].
  cbn [orb]. rewrite Nat2Z.id, Hc, Hn. unfold TripBuilder.assign_order_index.
  rewrite list_lookup_alter_ne, list_lookup_alter_eq, Hc by congruence.
  rewrite list_lookup_alter_eq, list_lookup_alter_ne, Hn by exact Hcn.
  cbn [fmap option_fmap option_map].
  rewrite (update_stop_order_index_available _ _ _ Hav).
  rewrite update_stop_order_index_available by reflexivity.
  cbn [orb Store.trips Store.trip_stops Store.trip_activities Store.now].
  f_equal.
  - unfold swapped. rewrite Hc, Hn. apply list_eq. intros i.
    destruct (decide (i = n)) as [->|Hin].
    { rewrite list_lookup_insert_eq, list_lookup_insert_ne by
        (rewrite ?length_insert, ?length_alter; lia || congruence).
      rewrite list_lookup_insert_eq by (rewrite ?length_insert; lia). reflexivity. }
    rewrite list_lookup_insert_ne by congruence.
    destruct (decide (i = c)) as [->|Hic].
    { rewrite !list_lookup_insert_eq by
        (rewrite ?length_insert, ?length_alter; lia). reflexivity. }
    rewrite !list_lookup_insert_ne, !list_lookup_alter_ne by congruence.
    reflexivity.
  - f_equal. rewrite <- list_fmap_compose. apply list_fmap_ext.
    intros _ row _. unfold exchange_row. cbn [compose].
    rewrite !id_set_order_index, !order_index_set_order_index.
    pose proof (distinct_ids _ _ _ _ _ Hnd Hc Hn Hcn) as Hids.
    destruct (decide (TripStop.id row = TripStop.id cur)) as [Heq|Hne].
    + rewrite id_set_order_index.
      destruct (decide (TripStop.id row = TripStop.id other)); [congruence|].
      reflexivity.
    + reflexivity.
Qed.

Lemma swapped_lookup (stops : list TripStop.t) (i j : nat) (x y : TripStop.t) :
  stops !! i = Some x -> stops !! j = Some y -> i <> j ->
  swapped i j stops !! i = Some (TripStop.set_order_index (TripStop.order_index x) y)
  /\ swapped i j stops !! j = Some (TripStop.set_order_index (TripStop.order_index y) x)
  /\ (forall m, m <> i -> m <> j -> swapped i j stops !! m = stops !! m).
Proof.
  intros Hi Hj Hne. unfold swapped. rewrite Hi, Hj.
  pose proof (lookup_lt_Some _ _ _ Hi). pose proof (lookup_lt_Some _ _ _ Hj).
  split; [|split].
  - rewrite list_lookup_insert_eq by (rewrite length_insert; lia). reflexivity.
  - rewrite list_lookup_insert_ne, list_lookup_insert_eq by (lia || congruence).
    reflexivity.
  - intros m Hmi Hmj. now rewrite !list_lookup_insert_ne by congruence.
Qed.

Lemma swapped_order_indices (stops : list TripStop.t) (i j : nat) :
  TripStop.order_index <$> swapped i j stops = TripStop.order_index <$> stops.
Proof.
  unfold swapped.
  destruct (stops !! i) as [x|] eqn:Hi; [|reflexivity].
  destruct (stops !! j) as [y|] eqn:Hj; [|reflexivity].
  rewrite !list_fmap_insert, !order_index_set_order_index.
  rewrite (list_insert_id _ j) by (now rewrite list_lookup_fmap, Hj).
  apply list_insert_id. now rewrite list_lookup_fmap, Hi.
Qed.

Lemma swapped_NoDup (stops : list TripStop.t) (i j : nat) (x y : TripStop.t) :
  stops !! i = Some x -> stops !! j = Some y -> i <> j ->
  NoDup (TripStop.id <$> stops) ->
  NoDup (TripStop.id <$> swapped i j stops).
Proof.
  intros Hi Hj Hne Hnd.
  destruct (swapped_lookup _ _ _ _ _ Hi Hj Hne) as (Si & Sj & So).
  apply NoDup_alt. intros a b s Ha Hb.
  rewrite list_lookup_fmap in Ha, Hb.
  assert (Hsrc : forall m, exists m',
            (TripStop.id <$> swapped i j stops !! m) = (TripStop.id <$> stops !! m')
            /\ (m' = (if decide (m = i) then j else if decide (m = j) then i else m))).
  { intros m. eexists. split; [|reflexivity].
    destruct (decide (m = i)) as [->|Hmi]; [now rewrite Si, Hj|].
    destruct (decide (m = j)) as [->|Hmj]; [now rewrite Sj, Hi|].
    now rewrite So. }
  destruct (Hsrc a) as (a' & Ea & Da). destruct (Hsrc b) as (b' & Eb & Db).
  rewrite Ea in Ha. rewrite Eb in Hb.
  assert (a' = b').
  { apply (NoDup_lookup _ a' b' s Hnd); now rewrite list_lookup_fmap. }
  subst a' b'. repeat case_decide; congruence.
Qed.

Lemma exchange_row_other (x y row : TripStop.t) :
  TripStop.id row <> TripStop.id x -> TripStop.id row <> TripStop.id y ->
  exchange_row x y row = row.
Proof. intros Hx Hy. unfold exchange_row. now rewrite !decide_False. Qed.

(** C2. Moving the stop at position k+1 up, or the stop at position k down,
    makes the two stops change places while the order indices stay where they
    were: the two stops have exchanged their order_index values, no other stop
    of the list and no other row of the store is modified, and the list of
    order indices read by position is unchanged.  Moving the stop that went up
    down again restores the list, and the store as well when the state had
    the order indices of the store. *)
Theorem reorder_swap_and_inverse (stops : list TripStop.t) (st : Store.t)
    (k : nat) (upper lower : TripStop.t)
    (Hids : NoDup (TripStop.id <$> stops))
    (Havailable : Store.available st = true)
    (Hupper : stops !! k = Some upper)
    (Hlower : stops !! S k = Some lower) :
  let moved_up :=
    TripBuilder.handleReorderStop (TripStop.id lower) TripBuilder.up stops st in
  let moved_down :=
    TripBuilder.handleReorderStop (TripStop.id upper) TripBuilder.down stops st in
  let back :=
    TripBuilder.handleReorderStop (TripStop.id lower) TripBuilder.down
      (fst moved_up) (snd moved_up) in
  fst moved_up !! k
  = Some (TripStop.set_order_index (TripStop.order_index upper) lower)
  /\ fst moved_up !! S k
     = Some (TripStop.set_order_index (TripStop.order_index lower) upper)
  /\ (forall i, i <> k -> i <> S k -> fst moved_up !! i = stops !! i)
  /\ TripStop.order_index <$> fst moved_up = TripStop.order_index <$> stops
  /\ Store.trip_stops (snd moved_up)
     = exchange_row lower upper <$> Store.trip_stops st
  /\ (forall row, TripStop.id row <> TripStop.id lower ->
                  TripStop.id row <> TripStop.id upper ->
                  exchange_row lower upper row = row)
  /\ Store.trips (snd moved_up) = Store.trips st
  /\ Store.trip_activities (snd moved_up) = Store.trip_activities st
  /\ fst moved_down = fst moved_up
  /\ Store.trip_stops (snd moved_down) = Store.trip_stops (snd moved_up)
  /\ fst back = stops
  /\ (state_matches_store stops st ->
      Store.trip_stops (snd back) = Store.trip_stops st).
Proof.
  cbv zeta.
  assert (Hne : S k <> k) by lia.
  rewrite (handleReorderStop_swap TripBuilder.up stops st (S k) k lower upper)
    by (auto; left; auto).
  rewrite (handleReorderStop_swap TripBuilder.down stops st k (S k) upper lower)
    by (auto; right; auto).
  cbn [fst snd Store.trips Store.trip_stops Store.trip_activities].
  destruct (swapped_lookup _ _ _ _ _ Hlower Hupper Hne) as (Sl & Su & So).
  pose proof (distinct_ids _ _ _ _ _ Hids Hlower Hupper Hne) as Hdist.
  assert (Hsame : swapped k (S k) stops = swapped (S k) k stops).
  { unfold swapped. rewrite Hupper, Hlower.
    apply list_insert_insert_ne. lia. }
  rewrite (handleReorderStop_swap TripBuilder.down (swapped (S k) k stops) _ k (S k)
             (TripStop.set_order_index (TripStop.order_index upper) lower)
             (TripStop.set_order_index (TripStop.order_index lower) upper));
    [| now apply (swapped_NoDup _ _ _ _ _ Hlower Hupper) | reflexivity
     | exact Su | exact Sl | right; auto ].
  cbn [fst snd Store.trips Store.trip_stops Store.trip_activities].
  repeat split.
  - exact Su.
  - exact Sl.
  - intros i Hik HiS. now apply So.
  - apply swapped_order_indices.
  - intros row. apply exchange_row_other.
  - exact Hsame.
  - apply list_fmap_ext. intros _ row _. unfold exchange_row.
    repeat case_decide; congruence.
  - apply list_eq. intros i. unfold swapped at 1. rewrite Su, Sl.
    rewrite !order_index_set_order_index.
    destruct (decide (i = k)) as [->|Hik].
    { rewrite list_lookup_insert_eq by
        (rewrite length_insert; eapply lookup_lt_Some; exact Su).
      rewrite Hupper. f_equal. rewrite set_order_index_twice.
      apply set_order_index_same. }
    rewrite list_lookup_insert_ne by congruence.
    destruct (decide (i = S k)) as [->|HiS].
    { rewrite list_lookup_insert_eq by (eapply lookup_lt_Some; exact Sl).
      rewrite Hlower. f_equal. rewrite set_order_index_twice.
      apply set_order_index_same. }
    rewrite list_lookup_insert_ne by congruence. now apply So.
  - intros Hmatch. rewrite <- list_fmap_compose.
    rewrite <- (list_fmap_id (Store.trip_stops st)) at 2.
    apply Forall_fmap_ext_1. apply Forall_forall.
    intros row Hrow. cbn [compose]. unfold exchange_row.
    rewrite !id_set_order_index, !order_index_set_order_index.
    pose proof (list_elem_of_lookup_2 _ _ _ Hlower) as Hl.
    pose proof (list_elem_of_lookup_2 _ _ _ Hupper) as Hu.
    destruct (decide (TripStop.id row = TripStop.id lower)) as [El|Nl].
    + rewrite id_set_order_index, decide_True by exact El.
      rewrite set_order_index_twice.
      rewrite <- (Hmatch lower row Hl Hrow El). apply set_order_index_same.
    + destruct (decide (TripStop.id row = TripStop.id upper)) as [Eu|Nu].
      * rewrite id_set_order_index, decide_False, decide_True by assumption.
        rewrite set_order_index_twice.
        rewrite <- (Hmatch upper row Hu Hrow Eu). apply set_order_index_same.
      * rewrite decide_False, decide_False by assumption. reflexivity.
Qed.

Lemma reorder_swap_and_inverse_witness :
  let paris := TripStop.mk "p" "t1"
                 (StopFields.mk None "Paris" None None None 0 0 0 None (Some [])) in
  let rome := TripStop.mk "r" "t1"
                (StopFields.mk None "Rome" None None None 1 0 0 None (Some [])) in
  let st := Store.mk [] [paris; rome] [] true "now" in
  fst (TripBuilder.handleReorderStop "r" TripBuilder.up [paris; rome] st)
  = [TripStop.set_order_index 0 rome; TripStop.set_order_index 1 paris]
  /\ fst (TripBuilder.handleReorderStop "r" TripBuilder.down
            (fst (TripBuilder.handleReorderStop "r" TripBuilder.up [paris; rome] st))
            (snd (TripBuilder.handleReorderStop "r" TripBuilder.up [paris; rome] st)))
     = [paris; rome].
Proof.
  cbv zeta.
  pose proof (reorder_swap_and_inverse
    [TripStop.mk "p" "t1"
       (StopFields.mk None "Paris" None None None 0 0 0 None (Some []));
     TripStop.mk "r" "t1"
       (StopFields.mk None "Rome" None None None 1 0 0 None (Some []))]
    (Store.mk []
       [TripStop.mk "p" "t1"
          (StopFields.mk None "Paris" None None None 0 0 0 None (Some []));
        TripStop.mk "r" "t1"
          (StopFields.mk None "Rome" None None None 1 0 0 None (Some []))]
       [] true "now")
    0%nat
    (TripStop.mk "p" "t1"
       (StopFields.mk None "Paris" None None None 0 0 0 None (Some [])))
    (TripStop.mk "r" "t1"
       (StopFields.mk None "Rome" None None None 1 0 0 None (Some [])))
    ltac:(refine (bool_decide_unpack _ _); vm_compute; exact I)
    eq_refl eq_refl eq_refl) as H.
  cbv zeta in H. destruct H as (_ & _ & _ & _ & _ & _ & _ & _ & _ & _ & Hback & _).
  split; [vm_compute; reflexivity | exact Hback].
Defined.

(** ** Order indices of new stops *)

(** C6 fails on the code.  [handleAddSpot] gives every stop it creates the
    order index 0, so a trip that has a stop at 0 gets a second one; and
    [handleAddStop] uses the number of stops, which is in use once a stop
    that was not the last has been deleted. *)
Theorem new_stop_takes_order_index_in_use :
  (forall trip newStop stops st,
     TripBuilder.is_blank (TripBuilder.city_name newStop) = false ->
     Store.available st = true ->
     exists added,
       fst (TripBuilder.handleAddStop trip newStop stops st) = stops ++ [added]
       /\ TripStop.order_index added = Z.of_nat (length stops))
  /\ TripStop.order_index
       <$> Store.stops_of_trip "t1"
             (DestinationSuggestions.handleAddSpot paris_trip "Tokyo" "Japan" temple
                store_with_paris)
     = [0; 0]
  /\ TripStop.city_name <$> fst add_delete_add = ["Paris"; "Vienna"; "Prague"]%string
  /\ TripStop.order_index <$> fst add_delete_add = [0; 2; 2]
  /\ TripStop.order_index <$> Store.stops_of_trip "t1" (snd add_delete_add) = [0; 2; 2]
  /\ ~ NoDup (TripStop.order_index <$> fst add_delete_add).
Proof.
  split.
  { intros trip newStop stops st Hblank Hav.
    unfold TripBuilder.handleAddStop, Store.insert_stop. rewrite Hblank, Hav.
    eexists. split; reflexivity. }
  repeat split; try (vm_compute; reflexivity).
  intros H. vm_compute in H. apply NoDup_cons_1_2 in H.
  apply NoDup_cons_1_1 in H. apply H. left.
Qed.

(** ** Share links *)

(** C8 fails on the code.  For a trip without a share code, [handleShare]
    stores one generated code and puts a second, newly generated one in the
    link, which then resolves to nothing; for a trip that has a code but is
    not public it stores nothing, and the link does not resolve either. *)
Theorem share_link_does_not_resolve :
  (forall origin trip code1 code2 rest st,
     truthy (Trip.share_code trip) = false ->
     Sharing.handleShare origin trip (code1 :: code2 :: rest) st
     = (Sharing.mkUrl origin code2, rest,
        snd (Store.update_trip_share (Trip.id trip) code1 true st)))
  /\ (forall origin trip rng st,
        truthy (Trip.share_code trip) = true ->
        Sharing.handleShare origin trip rng st
        = (Sharing.mkUrl origin (default ""%string (Trip.share_code trip)), rng, st))
  /\ let '(url, _, st) :=
       Sharing.handleShare "https://globetrotter.app" unshared_trip
         ["aaaa1111"; "bbbb2222"]%string (store_of unshared_trip) in
     Sharing.share url = "bbbb2222"%string
     /\ Trip.share_code <$> Store.trips st = [Some "aaaa1111"%string]
     /\ Trip.is_public <$> Store.trips st = [true]
     /\ Sharing.resolve url st = None
     /\ let '(url', _, st') :=
          Sharing.handleShare "https://globetrotter.app" private_trip
            ["aaaa1111"; "bbbb2222"]%string (store_of private_trip) in
        Sharing.share url' = "k3x9q2ab"%string
        /\ st' = store_of private_trip
        /\ Sharing.resolve url' st' = None.
Proof.
  split; [|split].
  - intros origin trip code1 code2 rest st H. unfold Sharing.handleShare.
    rewrite H. reflexivity.
  - intros origin trip rng st H. unfold Sharing.handleShare.
    rewrite H. reflexivity.
  - vm_compute. repeat split; reflexivity.
Qed.

(** ** Import: validation *)

(** Case analysis on the tests of the structural check. *)
Ltac js_cases :=
  repeat (cbn; rewrite ?orb_true_r; cbn;
          try discriminate;
          match goal with
          | |- context [match ?x with _ => _ end] => destruct x
          end);
  cbn; discriminate.

(** C9. A parsed document passes the structural check exactly when it is an
    object whose [trip] is an object with a non-empty string [name] and whose
    [stops] and [activities] are arrays; and when [stops] is not an array the
    check fails, [importTrip] gives null and [handleImport] returns before
    any insert, with the store as it was. *)
Theorem validateImportedData_spec (data : js_value) :
  (validateImportedData (Some data) = true
   <-> exists props trip_props name stops activities,
         data = JObj props
         /\ assoc_get props "trip" = Some (JObj trip_props)
         /\ assoc_get trip_props "name" = Some (JStr name)
         /\ name <> ""%string
         /\ assoc_get props "stops" = Some (JArr stops)
         /\ assoc_get props "activities" = Some (JArr activities))
  /\ (isArray (get (Some data) "stops") = false ->
      validateImportedData (Some data) = false
      /\ importTrip (Some data) = None
      /\ forall user rng st,
           TripView.handleImport (Some data) user rng st = (rng, st)).
Proof.
  split.
  - unfold validateImportedData. split.
    + destruct data as [| b | z | s | items | props]; try (js_cases; fail).
      cbn [get js_truthy typeof_object negb orb].
      destruct (assoc_get props "trip") as [trip|] eqn:Htrip; [|js_cases].
      destruct (assoc_get props "stops") as [stops|] eqn:Hstops; [|js_cases].
      destruct (assoc_get props "activities") as [activities|] eqn:Hacts; [|js_cases].
      destruct trip as [| | | | | trip_props]; try (js_cases; fail).
      destruct stops as [| | | | stops |]; try (js_cases; fail).
      destruct activities as [| | | | activities |]; try (js_cases; fail).
      cbn [get js_truthy typeof_object isArray negb orb].
      destruct (assoc_get trip_props "name") as [[| | | name | |]|] eqn:Hname;
        try (js_cases; fail).
      cbn. destruct (String.eqb_spec name ""); [discriminate|]. intros _.
      exists props, trip_props, name, stops, activities. auto 10.
    + intros (props & trip_props & name & stops & activities
              & -> & Htrip & Hname & Hne & Hstops & Hacts).
      cbn. rewrite Htrip, Hstops, Hacts. cbn. rewrite Hname. cbn.
      destruct (String.eqb_spec name ""); [contradiction | reflexivity].
  - intros Hstops.
    assert (Hv : validateImportedData (Some data) = false).
    { unfold validateImportedData. rewrite Hstops. cbn [negb].
      repeat match goal with |- context [if ?c then _ else _] => destruct c end;
        reflexivity. }
    split; [exact Hv|]. split.
    + unfold importTrip. now rewrite Hv.
    + intros user rng st. unfold TripView.handleImport, importTrip. rewrite Hv.
      destruct user; reflexivity.
Qed.

(** ** Import: the parsed export read back at the declared types *)

Lemma as_activity_to_json (a : TripActivity.t) :
  as_activity (activity_to_json a) = Some a.
Proof.
  destruct a as [id sid [activity_id name description scheduled_date scheduled_time
                           duration_hours estimated_cost order_index category is_custom]].
  destruct activity_id, description, scheduled_date, scheduled_time, category;
    reflexivity.
Qed.

Lemma as_activities_to_json (l : list TripActivity.t) :
  mapM as_activity (activity_to_json <$> l) = Some l.
Proof.
  induction l as [|a l IH]; [reflexivity|].
  cbn [fmap list_fmap mapM]. rewrite as_activity_to_json, IH. reflexivity.
Qed.

Lemma as_stop_to_json (s : TripStop.t) : as_stop (stop_to_json s) = Some s.
Proof.
  destruct s as [id tid [city_id city_name country start_date end_date order_index
                           transport_cost accommodation_cost notes activities]].
  destruct activities as [l|].
  - pose proof (as_activities_to_json l) as Hl.
    destruct city_id, country, start_date, end_date, notes;
      cbn in *; rewrite Hl; reflexivity.
  - destruct city_id, country, start_date, end_date, notes; reflexivity.
Qed.

Lemma as_stops_to_json (l : list TripStop.t) :
  mapM as_stop (stop_to_json <$> l) = Some l.
Proof.
  induction l as [|s l IH]; [reflexivity|].
  cbn [fmap list_fmap mapM]. rewrite as_stop_to_json, IH. reflexivity.
Qed.

Lemma as_trip_to_json (t : Trip.t) : as_trip (Some (trip_to_json t)) = Some t.
Proof.
  destruct t as [id user_id name description start_date end_date cover_image
                   is_public share_code total_budget created_at updated_at].
  destruct description, start_date, end_date, cover_image, share_code; reflexivity.
Qed.

(** Parsing what [exportTrip] wrote gives the exported document back. *)
Lemma asExportedTrip_toJSON (doc : ExportedTrip.t) :
  asExportedTrip (toJSON doc) = Some doc.
Proof.
  destruct doc as [version trip stops activities exportedAt].
  unfold asExportedTrip, toJSON.
  cbn [get assoc_get String.eqb Ascii.eqb Bool.eqb andb as_string as_array
       ExportedTrip.version ExportedTrip.trip ExportedTrip.stops
       ExportedTrip.activities ExportedTrip.exportedAt mbind option_bind].
  rewrite as_trip_to_json, as_stops_to_json, as_activities_to_json. reflexivity.
Qed.

Lemma validate_toJSON (doc : ExportedTrip.t) :
  validateImportedData (Some (toJSON doc))
  = negb (String.eqb (Trip.name (ExportedTrip.trip doc)) "").
Proof.
  destruct doc as [version [id user_id name description start_date end_date
                              cover_image is_public share_code total_budget
                              created_at updated_at] stops activities exportedAt].
  cbn. destruct (String.eqb name ""); reflexivity.
Qed.

(** ** Import: the two-phase insert *)

Lemma stop_with_order_index_id (f : StopFields.t) : stop_with_order_index f = f.
Proof. destruct f. unfold stop_with_order_index. cbn. now rewrite num_or_zero. Qed.

Lemma activity_with_order_index_id (f : ActivityFields.t) :
  activity_with_order_index f = f.
Proof. destruct f. unfold activity_with_order_index. cbn. now rewrite num_or_zero. Qed.

(** The loop over the prepared stops appends one row per stop, with fresh
    ids, and maps every original id to the id of its row. *)
Lemma createStops_spec (tripId : string) (data : list NewStop.t) :
  forall trips rows acts now (m0 : gmap string string),
    NoDup (NewStop._original_stop_id <$> data) ->
    Forall (fun d => NewStop._original_stop_id d <> ""%string) data ->
    exists created m',
      fold_left (TripView.createStop tripId) data
        (Store.mk trips rows acts true now, m0)
      = (Store.mk trips (rows ++ created) acts true now, m')
      /\ Forall2 (fun d c => TripStop.fields c = NewStop.fields d
                             /\ TripStop.trip_id c = tripId) data created
      /\ NoDup (TripStop.id <$> created)
      /\ (forall c, c ∈ created -> TripStop.id c ∉ (TripStop.id <$> rows))
      /\ (forall i d c, data !! i = Some d -> created !! i = Some c ->
            m' !! NewStop._original_stop_id d = Some (TripStop.id c))
      /\ (forall k, k ∉ (NewStop._original_stop_id <$> data) -> m' !! k = m0 !! k).
Proof.
  induction data as [|d ds IH]; intros trips rows acts now m0 Hnd Hne.
  - exists [], m0. rewrite app_nil_r. repeat split; try constructor.
    + intros c Hc. inversion Hc.
    + intros i d c Hd. discriminate Hd.
  - apply NoDup_cons in Hnd as [Hd Hnd]. apply Forall_cons in Hne as [Hd0 Hne].
    set (row := TripStop.mk (fresh (TripStop.id <$> rows)) tripId (NewStop.fields d)).
    destruct (IH trips (rows ++ [row]) acts now
                (<[NewStop._original_stop_id d := TripStop.id row]> m0) Hnd Hne)
      as (created & m' & Hfold & Hall & Hnew & Hfresh & Hmap & Hother).
    exists (row :: created), m'.
    assert (Hrow : TripStop.id row ∉ (TripStop.id <$> created)).
    { intros Hin. apply list_elem_of_fmap in Hin as (c & Hid & Hc).
      apply (Hfresh c Hc). rewrite fmap_app, <- Hid. apply elem_of_app. right.
      now apply list_elem_of_singleton. }
    split; [|split; [|split; [|split; [|split]]]].
    + cbn [fold_left]. unfold TripView.createStop at 2, Store.insert_stop.
      cbn [Store.available Store.trips Store.trip_stops Store.trip_activities
           Store.now].
      fold row. destruct (String.eqb_spec (NewStop._original_stop_id d) "");
        [contradiction|]. cbn [negb TripStop.id].
      rewrite Hfold. now rewrite <- app_assoc.
    + constructor; [split; reflexivity | exact Hall].
    + cbn [fmap list_fmap]. apply NoDup_cons. split; assumption.
    + intros c Hc. apply elem_of_cons in Hc as [->|Hc].
      * apply infinite_is_fresh.
      * intros Hin. apply (Hfresh c Hc). rewrite fmap_app. apply elem_of_app.
        now left.
    + intros [|i] d' c Hd' Hc'; cbn in Hd', Hc'.
      * injection Hd' as <-. injection Hc' as <-.
        rewrite Hother by exact Hd. apply lookup_insert_eq.
      * eapply Hmap; eassumption.
    + intros k Hk. cbn [fmap list_fmap] in Hk. apply not_elem_of_cons in Hk as [Hk1 Hk2].
      rewrite Hother by exact Hk2. now apply lookup_insert_ne.
Qed.

(** The bulk insert appends one row per payload. *)
Lemma insert_activities_spec (payloads : list (string * ActivityFields.t)) :
  forall trips stops rows now,
  exists created,
    Store.insert_activities payloads (Store.mk trips stops rows true now)
    = Store.mk trips stops (rows ++ created) true now
    /\ Forall2 (fun p r => TripActivity.trip_stop_id r = fst p
                           /\ TripActivity.fields r = snd p) payloads created.
Proof.
  unfold Store.insert_activities.
  induction payloads as [|p ps IH]; intros trips stops rows now.
  - exists []. rewrite app_nil_r. split; [reflexivity | constructor].
  - cbn [fold_left]. unfold Store.insert_activity at 2.
    cbn [Store.available Store.trips Store.trip_stops Store.trip_activities
         Store.now snd].
    match goal with
    | |- context [Store.mk trips stops (rows ++ [?r]) true now] =>
        destruct (IH trips stops (rows ++ [r]) now) as (created & Hfold & Hall);
        exists (r :: created)
    end.
    rewrite Hfold, <- app_assoc. split; [reflexivity|].
    constructor; [split; reflexivity | exact Hall].
Qed.

Lemma activitiesToInsert_spec (m : gmap string string) (acts : list TripActivity.t) :
  Forall (fun a => TripActivity.trip_stop_id a <> ""%string
                   /\ is_Some (m !! TripActivity.trip_stop_id a)) acts ->
  Forall2 (fun a p => m !! TripActivity.trip_stop_id a = Some (fst p)
                      /\ snd p = TripActivity.fields a)
    acts
    (TripView.activitiesToInsert m
       ((fun a => NewActivity.mk (activity_with_order_index (TripActivity.fields a))
                    (TripActivity.trip_stop_id a)) <$> acts)).
Proof.
  unfold TripView.activitiesToInsert.
  induction 1 as [|a l [Hne [new Hnew]] _ IH]; [constructor|].
  cbn [fmap list_fmap omap list_omap NewActivity._original_stop_id NewActivity.fields].
  destruct (String.eqb_spec (TripActivity.trip_stop_id a) ""); [contradiction|].
  rewrite Hnew. constructor; [|exact IH].
  split; [exact Hnew | apply activity_with_order_index_id].
Qed.

(** Activities that went to corresponding stops are attached to
    corresponding stops. *)
Lemma attached_corresponding (stops newStops : list TripStop.t)
    (acts newActs : list TripActivity.t) (i : nat) (old new : TripStop.t) :
  NoDup (TripStop.id <$> stops) ->
  NoDup (TripStop.id <$> newStops) ->
  stops !! i = Some old ->
  newStops !! i = Some new ->
  Forall2 (fun a r =>
             TripActivity.fields r = TripActivity.fields a
             /\ exists j os ns,
                  stops !! j = Some os /\ newStops !! j = Some ns
                  /\ TripActivity.trip_stop_id a = TripStop.id os
                  /\ TripActivity.trip_stop_id r = TripStop.id ns)
          acts newActs ->
  attached (TripStop.id new) newActs = attached (TripStop.id old) acts.
Proof.
  intros Hold Hnew Hi Hi'. unfold attached.
  induction 1 as [|a r acts' newActs' (Hf & j & os & ns & Hj & Hj' & Ha & Hr) _ IH];
    [reflexivity|].
  rewrite !filter_cons.
  assert (Hiff : TripActivity.trip_stop_id r = TripStop.id new
                 <-> TripActivity.trip_stop_id a = TripStop.id old).
  { rewrite Ha, Hr. split; intros Heq.
    - assert (j = i); [|congruence].
      apply (NoDup_lookup _ j i (TripStop.id ns) Hnew);
        rewrite list_lookup_fmap; [rewrite Hj' | rewrite Hi']; simpl; congruence.
    - assert (j = i); [|congruence].
      apply (NoDup_lookup _ j i (TripStop.id os) Hold);
        rewrite list_lookup_fmap; [rewrite Hj | rewrite Hi]; simpl; congruence. }
  destruct (decide (TripActivity.trip_stop_id r = TripStop.id new)) as [Hy|Hn].
  - rewrite decide_True by (apply Hiff; exact Hy).
    cbn [fmap list_fmap]. now rewrite Hf, IH.
  - rewrite decide_False by (intros H'; apply Hn, Hiff; exact H'). exact IH.
Qed.

(** The two phases on the prepared export of a trip graph. *)
Lemma insertImported_spec (trip : Trip.t) (stops : list TripStop.t)
    (acts : list TripActivity.t) (exportedAt userId : string) (rng : list string)
    (trips0 : list Trip.t) (rows0 : list TripStop.t) (acts0 : list TripActivity.t)
    (now0 : string) :
  trip_graph trip stops acts ->
  let newTrip :=
    Trip.mk (fresh (Trip.id <$> trips0)) userId (Trip.name trip +:+ " (Imported)")
      (Trip.description trip) (Trip.start_date trip) (Trip.end_date trip)
      (Trip.cover_image trip) false (Some (fst (random_code rng)))
      (Trip.total_budget trip) now0 now0 in
  exists newStops newActs,
    snd (TripView.insertImported
           (prepareImportedTripForInsert (exportTrip trip stops acts exportedAt) userId)
           rng (Store.mk trips0 rows0 acts0 true now0))
    = Store.mk (trips0 ++ [newTrip]) (rows0 ++ newStops) (acts0 ++ newActs) true now0
    /\ Forall2 (fun old new => TripStop.fields new = TripStop.fields old
                               /\ TripStop.trip_id new = Trip.id newTrip)
         stops newStops
    /\ NoDup (TripStop.id <$> newStops)
    /\ Forall2 (fun a r =>
                  TripActivity.fields r = TripActivity.fields a
                  /\ exists j os ns,
                       stops !! j = Some os /\ newStops !! j = Some ns
                       /\ TripActivity.trip_stop_id a = TripStop.id os
                       /\ TripActivity.trip_stop_id r = TripStop.id ns)
         acts newActs.
Proof.
  intros (Hname & Hids & Hnonempty & Hrefs) newTrip.
  unfold TripView.insertImported, prepareImportedTripForInsert, exportTrip.
  cbn [Prepared.trip Prepared.stops Prepared.activities ExportedTrip.trip
       ExportedTrip.stops ExportedTrip.activities TripInsert.user_id TripInsert.name
       TripInsert.description TripInsert.start_date TripInsert.end_date
       TripInsert.cover_image TripInsert.is_public TripInsert.total_budget].
  destruct (random_code rng) as [shareCode rng'] eqn:Hrng.
  unfold Store.insert_trip.
  cbn [Store.available Store.trips Store.trip_stops Store.trip_activities Store.now
       TripInsert.user_id TripInsert.name TripInsert.description
       TripInsert.start_date TripInsert.end_date TripInsert.cover_image
       TripInsert.is_public TripInsert.share_code TripInsert.total_budget fst].
  subst newTrip. cbn [fst]. set (newTrip := Trip.mk _ _ _ _ _ _ _ _ _ _ _ _).
  set (data := (fun s => NewStop.mk (stop_with_order_index (TripStop.fields s))
                           (TripStop.id s)) <$> stops).
  assert (Horig : NewStop._original_stop_id <$> data = TripStop.id <$> stops).
  { subst data. rewrite <- list_fmap_compose. reflexivity. }
  destruct (createStops_spec (Trip.id newTrip) data (trips0 ++ [newTrip]) rows0 acts0
              now0 ∅) as (created & m' & Hfold & Hall & Hnew & _ & Hmap & _).
  { now rewrite Horig. }
  { subst data. apply Forall_fmap. eapply Forall_impl; [exact Hnonempty|].
    intros s Hs. exact Hs. }
  rewrite Hfold.
  assert (Hstops : Forall2 (fun old new => TripStop.fields new = TripStop.fields old
                               /\ TripStop.trip_id new = Trip.id newTrip)
                     stops created).
  { subst data. apply Forall2_fmap_l in Hall.
    eapply Forall2_impl; [exact Hall|]. intros s c [Hf Ht]. split; [|exact Ht].
    rewrite Hf. apply stop_with_order_index_id. }
  assert (Hlookup : forall a, a ∈ acts ->
            exists j os ns, stops !! j = Some os /\ created !! j = Some ns
              /\ TripActivity.trip_stop_id a = TripStop.id os
              /\ m' !! TripActivity.trip_stop_id a = Some (TripStop.id ns)
              /\ TripActivity.trip_stop_id a <> ""%string).
  { intros a Ha. rewrite Forall_forall in Hrefs. specialize (Hrefs a Ha).
    apply list_elem_of_fmap in Hrefs as (os & Hid & Hos).
    apply list_elem_of_lookup_1 in Hos as (j & Hj).
    destruct (Forall2_lookup_l _ _ _ _ _ Hstops Hj) as (ns & Hns & _).
    exists j, os, ns. repeat split; try assumption.
    - rewrite Hid.
      apply (Hmap j (NewStop.mk (stop_with_order_index (TripStop.fields os))
                       (TripStop.id os)) ns); [|exact Hns].
      subst data. now rewrite list_lookup_fmap, Hj.
    - rewrite Hid. rewrite Forall_forall in Hnonempty. apply Hnonempty.
      eapply list_elem_of_lookup_2; exact Hj. }
  pose proof (activitiesToInsert_spec m' acts) as Hins.
  match type of Hins with ?P -> _ => assert (Hpre : P) end.
  { apply Forall_forall. intros a Ha.
    destruct (Hlookup a Ha) as (j & os & ns & _ & _ & _ & Hm & Hne).
    split; [exact Hne | now exists (TripStop.id ns)]. }
  specialize (Hins Hpre). clear Hpre.
  set (toInsert := TripView.activitiesToInsert m' _) in *.
  destruct (insert_activities_spec toInsert (trips0 ++ [newTrip]) (rows0 ++ created)
              acts0 now0) as (rows & Hbulk & Hrows).
  exists created, rows.
  assert (Hacts : Forall2 (fun a r =>
                  TripActivity.fields r = TripActivity.fields a
                  /\ exists j os ns,
                       stops !! j = Some os /\ created !! j = Some ns
                       /\ TripActivity.trip_stop_id a = TripStop.id os
                       /\ TripActivity.trip_stop_id r = TripStop.id ns)
         acts rows).
  { apply Forall2_same_length_lookup. split.
    - apply Forall2_length in Hins. apply Forall2_length in Hrows. congruence.
    - intros i a r Ha Hr.
      destruct (Forall2_lookup_l _ _ _ _ _ Hins Ha) as (p & Hp & Hm & Hf).
      destruct (Forall2_lookup_l _ _ _ _ _ Hrows Hp) as (r' & Hr' & Hid & Hf').
      assert (r' = r) by congruence. subst r'.
      split; [congruence|].
      destruct (Hlookup a (list_elem_of_lookup_2 _ _ _ Ha))
        as (j & os & ns & Hj & Hj' & Hos & Hm' & _).
      exists j, os, ns. repeat split; try assumption. congruence. }
  split; [|split; [exact Hstops | split; [exact Hnew | exact Hacts]]].
  destruct (0 <? length toInsert)%nat eqn:Hlen; cbn [snd].
  - exact Hbulk.
  - apply Nat.ltb_ge in Hlen. destruct toInsert; [|cbn in Hlen; lia].
    apply Forall2_nil_inv_l in Hrows. subst rows. now rewrite app_nil_r.
Qed.

(** The export of the trip screen, whose stops carry the activities loaded
    for them, is the export of a trip graph. *)
Lemma handleExport_trip_graph (trip : Trip.t) (stops : list TripStop.t)
    (exportedAt : string) :
  Trip.name trip <> ""%string ->
  NoDup (TripStop.id <$> stops) ->
  Forall (fun s => TripStop.id s <> ""%string) stops ->
  Forall (fun s => Forall (fun a => TripActivity.trip_stop_id a = TripStop.id s)
                     (activities_of s)) stops ->
  TripView.handleExport trip stops exportedAt
  = exportTrip trip stops (all_activities stops) exportedAt
  /\ trip_graph trip stops (all_activities stops).
Proof.
  intros Hname Hids Hne Hown. split; [reflexivity|].
  unfold trip_graph. repeat split; try assumption.
  unfold all_activities. apply Forall_concat, Forall_fmap.
  apply Forall_forall. intros s Hs. rewrite Forall_forall in Hown.
  eapply Forall_impl; [exact (Hown s Hs)|]. intros a Ha. cbn in Ha. rewrite Ha.
  apply list_elem_of_fmap. now exists s.
Qed.

(** C1. The export of a trip graph passes the structural check, and importing
    it adds one trip, as many stops as the graph has and as many activities:
    the new trip has the fields of the source except its id and timestamps,
    the owner (the importing user), [is_public] (false), the share code (a
    new one) and the name (with " (Imported)" appended); every new stop has
    the fields of the stop it comes from and belongs to the new trip; and the
    activities attached to a new stop are, field for field and in number,
    those attached to the stop it comes from. *)
Theorem export_import_round_trip (trip : Trip.t) (stops : list TripStop.t)
    (activities : list TripActivity.t) (exportedAt userId : string)
    (rng : list string) (st : Store.t)
    (Hgraph : trip_graph trip stops activities)
    (Havailable : Store.available st = true) :
  let document := toJSON (exportTrip trip stops activities exportedAt) in
  let result := snd (TripView.handleImport (Some document) (Some userId) rng st) in
  validateImportedData (Some document) = true
  /\ exists newTrip newStops newActivities,
       Store.trips result = Store.trips st ++ [newTrip]
       /\ Store.trip_stops result = Store.trip_stops st ++ newStops
       /\ Store.trip_activities result = Store.trip_activities st ++ newActivities
       /\ Trip.user_id newTrip = userId
       /\ Trip.name newTrip = Trip.name trip +:+ " (Imported)"
       /\ Trip.is_public newTrip = false
       /\ Trip.share_code newTrip = Some (fst (random_code rng))
       /\ Trip.description newTrip = Trip.description trip
       /\ Trip.start_date newTrip = Trip.start_date trip
       /\ Trip.end_date newTrip = Trip.end_date trip
       /\ Trip.cover_image newTrip = Trip.cover_image trip
       /\ Trip.total_budget newTrip = Trip.total_budget trip
       /\ length newStops = length stops
       /\ Forall2 (fun old new => TripStop.fields new = TripStop.fields old
                                  /\ TripStop.trip_id new = Trip.id newTrip)
            stops newStops
       /\ length newActivities = length activities
       /\ Forall2 (fun old new => TripActivity.fields new = TripActivity.fields old)
            activities newActivities
       /\ (forall i old new,
             stops !! i = Some old -> newStops !! i = Some new ->
             attached (TripStop.id new) newActivities
             = attached (TripStop.id old) activities
             /\ length (filter (fun a => TripActivity.trip_stop_id a = TripStop.id new)
                               newActivities)
                = length (filter (fun a => TripActivity.trip_stop_id a = TripStop.id old)
                                 activities)).
Proof.
  cbv zeta. pose proof Hgraph as (Hname & Hids & _ & _).
  assert (Hvalid : validateImportedData
                     (Some (toJSON (exportTrip trip stops activities exportedAt)))
                   = true).
  { rewrite validate_toJSON. cbn [exportTrip ExportedTrip.trip].
    destruct (String.eqb_spec (Trip.name trip) ""); [contradiction | reflexivity]. }
  split; [exact Hvalid|].
  unfold TripView.handleImport, importTrip. rewrite Hvalid, asExportedTrip_toJSON.
  destruct st as [trips0 rows0 acts0 available now0]. cbn in Havailable.
  subst available.
  destruct (insertImported_spec trip stops activities exportedAt userId rng
              trips0 rows0 acts0 now0 Hgraph)
    as (newStops & newActs & Hresult & Hstops & Hnew & Hacts).
  rewrite Hresult.
  cbn [Store.trips Store.trip_stops Store.trip_activities].
  eexists _, newStops, newActs.
  repeat match goal with |- _ /\ _ => split end; try reflexivity.
  - symmetry. eapply Forall2_length; exact Hstops.
  - exact Hstops.
  - symmetry. eapply Forall2_length; exact Hacts.
  - eapply Forall2_impl; [exact Hacts|]. intros a r [Hf _]. exact Hf.
  - intros i old new Hold Hnew'.
    pose proof (attached_corresponding stops newStops activities newActs i old new
                  Hids Hnew Hold Hnew' Hacts) as Hatt.
    split; [exact Hatt|]. unfold attached in Hatt.
    apply (f_equal length) in Hatt. now rewrite !length_fmap in Hatt.
Qed.

Lemma export_import_round_trip_witness :
  trip_graph europe europe_stops europe_activities
  /\ Store.available Store.empty = true
  /\ exists newTrip newStops newActivities,
       Store.trips
         (snd (TripView.handleImport
                 (Some (toJSON (exportTrip europe europe_stops europe_activities
                                  "2024-06-01T08:00:00.000Z")))
                 (Some "bob"%string) ["z9y8x7w6"%string] Store.empty))
       = Store.trips Store.empty ++ [newTrip]
       /\ Trip.name newTrip = "Europe (Imported)"%string
       /\ length newStops = 2%nat
       /\ length newActivities = 5%nat
       /\ (forall i old new,
             europe_stops !! i = Some old -> newStops !! i = Some new ->
             attached (TripStop.id new) newActivities
             = attached (TripStop.id old) europe_activities).
Proof.
  assert (Hgraph : trip_graph europe europe_stops europe_activities).
  { unfold trip_graph. split; [discriminate|]. split.
    - refine (bool_decide_unpack _ _). vm_compute. exact I.
    - split; [repeat constructor; discriminate|].
      repeat constructor; refine (bool_decide_unpack _ _); vm_compute; exact I. }
  split; [exact Hgraph|]. split; [reflexivity|].
  destruct (export_import_round_trip europe europe_stops europe_activities
              "2024-06-01T08:00:00.000Z" "bob" ["z9y8x7w6"%string] Store.empty
              Hgraph eq_refl)
    as (_ & newTrip & newStops & newActivities & Htrips & _ & _ & _ & Hname & _ & _
        & _ & _ & _ & _ & _ & Hlen & _ & Hlen' & _ & Hatt).
  exists newTrip, newStops, newActivities.
  split; [exact Htrips|]. split; [exact Hname|]. split; [exact Hlen|].
  split; [exact Hlen'|]. intros i old new Hold Hnew.
  destruct (Hatt i old new Hold Hnew) as [H _]. exact H.
Defined.

(** ** The offline data layer *)

Section sort_by.
Context {A : Type} (key : A -> Z).

Lemma insert_by_Permutation (x : A) (l : list A) :
  LocalData.insert_by key x l ≡ₚ x :: l.
Proof.
  induction l as [|y l IH]; [reflexivity|]. cbn [LocalData.insert_by].
  destruct (key x <=? key y); [reflexivity|].
  rewrite IH. apply Permutation_swap.
Qed.

Lemma sort_by_Permutation (l : list A) : LocalData.sort_by key l ≡ₚ l.
Proof.
  induction l as [|x l IH]; [reflexivity|]. cbn [LocalData.sort_by foldr].
  fold (LocalData.sort_by key l). now rewrite insert_by_Permutation, IH.
Qed.

Lemma insert_by_sorted (x : A) (l : list A) :
  StronglySorted (fun a b => key a <= key b) l ->
  StronglySorted (fun a b => key a <= key b) (LocalData.insert_by key x l).
Proof.
  induction 1 as [|y l Hl IH Hy]; cbn [LocalData.insert_by].
  - repeat constructor.
  - destruct (Z.leb_spec (key x) (key y)) as [Hle|Hlt].
    + constructor; [constructor; assumption|].
      constructor; [exact Hle|]. eapply Forall_impl; [exact Hy|].
      intros z Hz. cbn in Hz. lia.
    + constructor; [exact IH|].
      rewrite insert_by_Permutation. constructor; [lia | exact Hy].
Qed.

Lemma sort_by_sorted (l : list A) :
  StronglySorted (fun a b => key a <= key b) (LocalData.sort_by key l).
Proof.
  induction l as [|x l IH]; [constructor|]. cbn [LocalData.sort_by foldr].
  now apply insert_by_sorted.
Qed.

Lemma insert_by_stable (k : Z) (x : A) (l : list A) :
  filter (fun a => key a = k) (LocalData.insert_by key x l)
  = filter (fun a => key a = k) (x :: l).
Proof.
  induction l as [|y l IH]; [reflexivity|]. cbn [LocalData.insert_by].
  destruct (Z.leb_spec (key x) (key y)) as [Hle|Hlt]; [reflexivity|].
  rewrite filter_cons, IH, !filter_cons.
  destruct (decide (key y = k)), (decide (key x = k)); try reflexivity. lia.
Qed.

Lemma sort_by_stable (k : Z) (l : list A) :
  filter (fun a => key a = k) (LocalData.sort_by key l)
  = filter (fun a => key a = k) l.
Proof.
  induction l as [|x l IH]; [reflexivity|]. cbn [LocalData.sort_by foldr].
  fold (LocalData.sort_by key l). now rewrite insert_by_stable, !filter_cons, IH.
Qed.

End sort_by.

(** X1. [getByTrip] returns exactly the stops of the trip that are in the
    storage, in ascending order of [order_index], stops with equal indices
    in the order of the storage, and nothing on an empty storage; [getByStop]
    does the same for the activities of a stop. *)
Theorem local_getBy_sorted (tripId stopId : string) (s : LocalData.Storage) :
  LocalData.stops_getByTrip tripId s
    ≡ₚ filter (fun stop => TripStop.trip_id stop = tripId)
              (LocalData.getStorage (LocalData.TRIP_STOPS s))
  /\ StronglySorted (fun a b => TripStop.order_index a <= TripStop.order_index b)
       (LocalData.stops_getByTrip tripId s)
  /\ (forall k,
        filter (fun stop => TripStop.order_index stop = k)
               (LocalData.stops_getByTrip tripId s)
        = filter (fun stop => TripStop.order_index stop = k)
            (filter (fun stop => TripStop.trip_id stop = tripId)
                    (LocalData.getStorage (LocalData.TRIP_STOPS s))))
  /\ LocalData.stops_getByTrip tripId (LocalData.mkStorage None None None) = []
  /\ LocalData.activities_getByStop stopId s
       ≡ₚ filter (fun a => TripActivity.trip_stop_id a = stopId)
                 (LocalData.getStorage (LocalData.TRIP_ACTIVITIES s))
  /\ StronglySorted
       (fun a b => TripActivity.order_index a <= TripActivity.order_index b)
       (LocalData.activities_getByStop stopId s)
  /\ (forall k,
        filter (fun a => TripActivity.order_index a = k)
               (LocalData.activities_getByStop stopId s)
        = filter (fun a => TripActivity.order_index a = k)
            (filter (fun a => TripActivity.trip_stop_id a = stopId)
                    (LocalData.getStorage (LocalData.TRIP_ACTIVITIES s))))
  /\ LocalData.activities_getByStop stopId (LocalData.mkStorage None None None) = [].
Proof.
  unfold LocalData.stops_getByTrip, LocalData.activities_getByStop.
  repeat split.
  - apply sort_by_Permutation.
  - apply sort_by_sorted.
  - intros k. apply sort_by_stable.
  - apply sort_by_Permutation.
  - apply sort_by_sorted.
  - intros k. apply sort_by_stable.
Qed.

Section find_by_id.
Context {A : Type} (ident : A -> string).

Lemma find_by_cons (id : string) (r : A) (rows : list A) :
  find_by ident id (r :: rows) = if decide (ident r = id) then Some r else find_by ident id rows.
Proof.
  unfold find_by. cbn [list_find]. destruct (decide (ident r = id)); [reflexivity|].
  destruct (list_find _ rows) as [[i x]|]; reflexivity.
Qed.

Lemma find_by_app (id : string) (rows more : list A) :
  find_by ident id (rows ++ more)
  = match find_by ident id rows with
    | Some r => Some r
    | None => find_by ident id more
    end.
Proof.
  induction rows as [|r rows IH]; [reflexivity|].
  rewrite <- app_comm_cons, !find_by_cons. destruct (decide (ident r = id)); auto.
Qed.

Lemma find_by_Some (id : string) (rows : list A) (r : A) :
  find_by ident id rows = Some r -> r ∈ rows /\ ident r = id.
Proof.
  induction rows as [|x rows IH]; [discriminate|]. rewrite find_by_cons.
  destruct (decide (ident x = id)) as [Hx|Hx].
  - intros [= <-]. split; [left | exact Hx].
  - intros H. destruct (IH H) as [Hin Hid]. split; [now right | exact Hid].
Qed.

Lemma find_by_None (id : string) (rows : list A) :
  find_by ident id rows = None <-> forall r, r ∈ rows -> ident r <> id.
Proof.
  induction rows as [|x rows IH].
  - split; [intros _ r Hr; inversion Hr | reflexivity].
  - rewrite find_by_cons. destruct (decide (ident x = id)) as [Hx|Hx].
    + split; [discriminate|]. intros H. exfalso. apply (H x); [left | exact Hx].
    + rewrite IH. split.
      * intros H r Hr. apply elem_of_cons in Hr as [->|Hr]; auto.
      * intros H r Hr. apply H. now right.
Qed.

Lemma find_by_filter_eq (id : string) (rows : list A) :
  find_by ident id (filter (fun r => ident r <> id) rows) = None.
Proof.
  apply find_by_None. intros r Hr. now apply list_elem_of_filter in Hr as [Hne _].
Qed.

Lemma find_by_filter_ne (id removed : string) (rows : list A) :
  id <> removed ->
  find_by ident id (filter (fun r => ident r <> removed) rows) = find_by ident id rows.
Proof.
  intros Hne. induction rows as [|x rows IH]; [reflexivity|].
  rewrite filter_cons, find_by_cons.
  destruct (decide (ident x <> removed)) as [Hx|Hx].
  - rewrite find_by_cons. now rewrite IH.
  - rewrite IH. destruct (decide (ident x = id)) as [Hid|]; [|reflexivity].
    exfalso. apply Hx. congruence.
Qed.

Lemma filter_length_lt (removed : string) (rows : list A) :
  (length (filter (fun r => ident r <> removed) rows) <? length rows)%nat = true
  <-> exists r, r ∈ rows /\ ident r = removed.
Proof.
  rewrite Nat.ltb_lt. induction rows as [|x rows IH].
  - cbn. split; [lia | intros (r & Hr & _); inversion Hr].
  - rewrite filter_cons. pose proof (length_filter (fun r => ident r <> removed) rows).
    destruct (decide (ident x <> removed)) as [Hx|Hx]; cbn [length].
    + rewrite <- Nat.succ_lt_mono, IH. split.
      * intros (r & Hr & Hid). exists r. split; [now right | exact Hid].
      * intros (r & Hr & Hid). apply elem_of_cons in Hr as [->|Hr]; [contradiction|].
        now exists r.
    + split; [|lia]. intros _. exists x. split; [left|].
      destruct (decide (ident x = removed)); [assumption | contradiction].
Qed.

End find_by_id.

Lemma find_by_insert {A} (ident : A -> string) (rows : list A) (i : nat) (x y : A)
    (id : string) :
  list_find (fun r => ident r = ident x) rows = Some (i, x) ->
  ident y = ident x ->
  find_by ident id (<[i := y]> rows)
  = if decide (ident x = id) then Some y else find_by ident id rows.
Proof.
  intros Hfind Hy. revert i Hfind. induction rows as [|r rows IH]; intros i Hfind.
  - discriminate Hfind.
  - cbn [list_find] in Hfind. destruct (decide (ident r = ident x)) as [Hr|Hr].
    + injection Hfind as <- <-. cbn [insert list_insert]. rewrite !find_by_cons, Hy.
      destruct (decide (ident r = id)); reflexivity.
    + destruct (list_find _ rows) as [[j z]|] eqn:Hrows; [|discriminate Hfind].
      cbn in Hfind. injection Hfind as <- <-.
      change (<[S j := y]> (r :: rows)) with (r :: <[j := y]> rows).
      rewrite !find_by_cons, (IH j eq_refl).
      destruct (decide (ident r = id)) as [Hid|Hid]; [|reflexivity].
      rewrite decide_False by congruence. reflexivity.
Qed.

(** X2. After [localTripAPI.create], a lookup by id finds what it found
    before and, for an id that was free, the new trip exactly when the id is
    the generated one; the new trip is appended and the other collections
    are left alone.  A generated id that was already stored therefore keeps
    resolving to the older trip. *)
Theorem local_trip_create_lookup (trip : TripInsert.t) (now later : LocalData.Clock)
    (code id : string) (s : LocalData.Storage) :
  let newTrip := fst (LocalData.trips_create trip now later code s) in
  let s' := snd (LocalData.trips_create trip now later code s) in
  LocalData.trips_getById id s'
  = match LocalData.trips_getById id s with
    | Some old => Some old
    | None => if decide (Trip.id newTrip = id) then Some newTrip else None
    end
  /\ LocalData.trips_getAll None s' = LocalData.trips_getAll None s ++ [newTrip]
  /\ Trip.id newTrip = LocalData.make_id "trip" now code
  /\ LocalData.TRIP_STOPS s' = LocalData.TRIP_STOPS s
  /\ LocalData.TRIP_ACTIVITIES s' = LocalData.TRIP_ACTIVITIES s.
Proof.
  cbv zeta. unfold LocalData.trips_getById, LocalData.trips_create,
    LocalData.trips_getAll. cbn [truthy fst snd LocalData.TRIPS LocalData.getStorage
    default LocalData.TRIP_STOPS LocalData.TRIP_ACTIVITIES Trip.id Trip.created_at
    Trip.updated_at from_option]. unfold Datatypes.id.
  repeat split. rewrite find_by_app, find_by_cons.
  destruct (find_by Trip.id id _); [reflexivity|]. cbn [Trip.id].
  destruct (decide _); reflexivity.
Qed.

(** X3. [localTripAPI.delete] reports a removal exactly when the id was
    stored; afterwards the id resolves to nothing, every other id resolves as
    before, and when nothing was removed the list of trips is unchanged. *)
Theorem local_trip_delete (id : string) (s : LocalData.Storage) :
  let removed := fst (LocalData.trips_delete id s) in
  let s' := snd (LocalData.trips_delete id s) in
  (removed = true <-> is_Some (LocalData.trips_getById id s))
  /\ LocalData.trips_getById id s' = None
  /\ (forall other, other <> id ->
        LocalData.trips_getById other s' = LocalData.trips_getById other s)
  /\ (removed = false ->
      LocalData.trips_getAll None s' = LocalData.trips_getAll None s)
  /\ LocalData.trips_getAll None s' ⊆ LocalData.trips_getAll None s.
Proof.
  cbv zeta. unfold LocalData.trips_getById, LocalData.trips_delete,
    LocalData.trips_getAll.
  cbn [truthy fst snd LocalData.TRIPS LocalData.getStorage default from_option].
  unfold Datatypes.id. set (rows := LocalData.getStorage (LocalData.TRIPS s)).
  split; [|split; [|split; [|split]]].
  - rewrite (filter_length_lt Trip.id). split.
    + intros (r & Hr & Hid). destruct (find_by Trip.id id rows) eqn:Hf; [eauto|].
      exfalso. eapply find_by_None; eauto.
    + intros [r Hr]. apply find_by_Some in Hr as [Hin Hid]. eauto.
  - apply find_by_filter_eq.
  - intros other Hne. now apply find_by_filter_ne.
  - intros Hfalse.
    assert (Hnone : forall r, r ∈ rows -> Trip.id r <> id).
    { intros r Hr Hid. assert (Htrue : (length (filter (fun t : Trip.t => Trip.id t <> id) rows)
                      <? length rows)%nat = true).
      { apply (filter_length_lt Trip.id). eauto. }
      congruence. }
    clear Hfalse. induction rows as [|r rows IH]; [reflexivity|].
    rewrite filter_cons, decide_True by (apply Hnone; left).
    f_equal. apply IH. intros r' Hr'. apply Hnone. now right.
  - intros r Hr. now apply list_elem_of_filter in Hr as [_ Hr].
Qed.

(** X4. [localTripAPI.update] on an id that is not stored returns null and
    writes nothing.  On a stored id it returns the first trip with that id
    overlaid with the updates and stamped with the clock reading, keeps the
    number of trips, and, unless the updates change the id, the id resolves
    to the updated trip afterwards while every other id resolves as before. *)
Theorem local_trip_update (id : string) (updates : LocalData.TripUpdates)
    (now : LocalData.Clock) (s : LocalData.Storage) :
  (LocalData.trips_getById id s = None ->
   LocalData.trips_update id updates now s = (None, s))
  /\ (forall found,
        LocalData.trips_getById id s = Some found ->
        let updated := LocalData.apply_updates found updates now in
        let s' := snd (LocalData.trips_update id updates now s) in
        fst (LocalData.trips_update id updates now s) = Some updated
        /\ Trip.updated_at updated = LocalData.iso now
        /\ length (LocalData.trips_getAll None s')
           = length (LocalData.trips_getAll None s)
        /\ (LocalData.u_id updates = None ->
            LocalData.trips_getById id s' = Some updated
            /\ forall other, other <> id ->
                 LocalData.trips_getById other s' = LocalData.trips_getById other s)).
Proof.
  unfold LocalData.trips_getById, LocalData.trips_update, LocalData.trips_getAll,
    find_by.
  cbn [truthy]. set (rows := LocalData.getStorage (LocalData.TRIPS s)).
  split.
  - destruct (list_find _ rows) as [[i x]|]; [discriminate | reflexivity].
  - intros found. destruct (list_find _ rows) as [[i x]|] eqn:Hfind; [|discriminate].
    intros [= ->]. cbv zeta. cbn [fst snd LocalData.TRIPS default from_option].
    unfold Datatypes.id.
    split; [reflexivity|]. split; [reflexivity|].
    split; [apply length_insert|]. intros Hid.
    pose proof Hfind as Hfound. apply list_find_Some in Hfound as (_ & Hx & _).
    subst id.
    assert (Hsame : Trip.id (LocalData.apply_updates found updates now)
                    = Trip.id found).
    { unfold LocalData.apply_updates. cbn [Trip.id]. now rewrite Hid. }
    pose proof (fun id' => find_by_insert Trip.id rows i found
                  (LocalData.apply_updates found updates now) id' Hfind Hsame) as Hins.
    unfold find_by in Hins. split.
    + rewrite Hins. now rewrite decide_True.
    + intros other Hne. rewrite Hins. rewrite decide_False by congruence. reflexivity.
Qed.

Lemma filter_fmap_commute {A} (P : A -> Prop) `{!forall x, Decision (P x)}
    (f : A -> A) (l : list A) :
  (forall x, P (f x) <-> P x) ->
  filter P (f <$> l) = f <$> filter P l.
Proof.
  intros Hf. induction l as [|x l IH]; [reflexivity|].
  rewrite fmap_cons, !filter_cons.
  destruct (decide (P (f x))) as [Hfx|Hfx], (decide (P x)) as [Hx|Hx].
  - now rewrite fmap_cons, IH.
  - exfalso. apply Hx, (proj1 (Hf x)), Hfx.
  - exfalso. apply Hfx, (proj2 (Hf x)), Hx.
  - exact IH.
Qed.

Lemma reordered_trans (tripId : string) (a b c : TripStop.t) :
  reordered tripId a b -> reordered tripId b c -> reordered tripId a c.
Proof.
  intros [->|[Ha [v ->]]] [->|[Hb [w ->]]]; unfold reordered; eauto.
Qed.

Lemma renumber_reordered (tripId id : string) (index : nat) (stops : list TripStop.t) :
  Forall2 (reordered tripId) stops (LocalData.renumber tripId id index stops).
Proof.
  unfold LocalData.renumber.
  destruct (list_find _ stops) as [[position found]|] eqn:Hfind.
  - apply list_find_Some in Hfind as (Hat & [_ Htrip] & _).
    apply Forall2_same_length_lookup. split; [now rewrite length_alter|].
    intros i x y Hx Hy. destruct (decide (i = position)) as [->|Hne].
    + rewrite list_lookup_alter_eq, Hx in Hy. injection Hy as <-.
      right. split; [congruence | eauto].
    + rewrite list_lookup_alter_ne, Hx in Hy by congruence. injection Hy as <-.
      now left.
  - apply Forall2_same_length_lookup. split; [reflexivity|].
    intros i x y Hx Hy. left. congruence.
Qed.

Lemma renumber_from_reordered (tripId : string) (stopIds : list string) (index : nat)
    (stops : list TripStop.t) :
  Forall2 (reordered tripId) stops (LocalData.renumber_from tripId index stopIds stops).
Proof.
  revert index stops. induction stopIds as [|id rest IH]; intros index stops.
  - apply Forall2_same_length_lookup. split; [reflexivity|].
    intros i x y Hx Hy. left. cbn in Hy. congruence.
  - cbn [LocalData.renumber_from].
    pose proof (renumber_reordered tripId id index stops) as Hone.
    pose proof (IH (S index) (LocalData.renumber tripId id index stops)) as Hrest.
    apply Forall2_same_length_lookup. split.
    + transitivity (length (LocalData.renumber tripId id index stops));
        eauto using Forall2_length.
    + intros i x z Hx Hz.
      destruct (Forall2_lookup_l _ _ _ _ _ Hone Hx) as (y & Hy & Hxy).
      destruct (Forall2_lookup_l _ _ _ _ _ Hrest Hy) as (z' & Hz' & Hyz).
      assert (z' = z) as -> by congruence. eauto using reordered_trans.
Qed.

Lemma reordered_filter_other (tripId other : string) (stops stops' : list TripStop.t) :
  other <> tripId ->
  Forall2 (reordered tripId) stops stops' ->
  filter (fun stop => TripStop.trip_id stop = other) stops'
  = filter (fun stop => TripStop.trip_id stop = other) stops.
Proof.
  intros Hne. induction 1 as [|a b l l' Hab _ IH]; [reflexivity|].
  rewrite !filter_cons, IH. destruct Hab as [->|[Ha [v ->]]]; [reflexivity|].
  cbn [TripStop.trip_id TripStop.set_order_index].
  rewrite !decide_False by congruence. reflexivity.
Qed.

Lemma reordered_filter_ids (tripId : string) (stops stops' : list TripStop.t) :
  Forall2 (reordered tripId) stops stops' ->
  TripStop.id <$> filter (fun stop => TripStop.trip_id stop = tripId) stops'
  = TripStop.id <$> filter (fun stop => TripStop.trip_id stop = tripId) stops.
Proof.
  induction 1 as [|a b l l' Hab _ IH]; [reflexivity|].
  rewrite !filter_cons. destruct Hab as [->|[Ha [v ->]]].
  - destruct (decide _); [rewrite !fmap_cons|]; now rewrite IH.
  - cbn [TripStop.trip_id TripStop.set_order_index].
    rewrite !decide_True by assumption. rewrite !fmap_cons, IH. reflexivity.
Qed.

(** X5. [localTripStopAPI.reorder], whatever ids it is given, touches only
    order indices of stops of the named trip: every other trip lists the same
    stops in the same order afterwards, the named trip lists the same stop
    ids up to order, no stop is added or removed, and trips and activities
    are left alone. *)
Theorem local_reorder_frame (tripId : string) (stopIds : list string)
    (s : LocalData.Storage) :
  let s' := LocalData.stops_reorder tripId stopIds s in
  (forall other, other <> tripId ->
     LocalData.stops_getByTrip other s' = LocalData.stops_getByTrip other s)
  /\ TripStop.id <$> LocalData.stops_getByTrip tripId s'
     ≡ₚ TripStop.id <$> LocalData.stops_getByTrip tripId s
  /\ Forall2 (fun before after =>
                TripStop.set_order_index 0 after = TripStop.set_order_index 0 before)
       (LocalData.getStorage (LocalData.TRIP_STOPS s))
       (LocalData.getStorage (LocalData.TRIP_STOPS s'))
  /\ LocalData.TRIPS s' = LocalData.TRIPS s
  /\ LocalData.TRIP_ACTIVITIES s' = LocalData.TRIP_ACTIVITIES s.
Proof.
  cbv zeta. unfold LocalData.stops_getByTrip, LocalData.stops_reorder.
  cbn [LocalData.TRIP_STOPS LocalData.TRIPS LocalData.TRIP_ACTIVITIES].
  change (LocalData.getStorage (Some ?l)) with l.
  pose proof (renumber_from_reordered tripId stopIds 0
                (LocalData.getStorage (LocalData.TRIP_STOPS s))) as Hall.
  split; [|split; [|split; [|split]]]; try reflexivity.
  - intros other Hne. now rewrite (reordered_filter_other tripId other _ _ Hne Hall).
  - rewrite !sort_by_Permutation. now rewrite (reordered_filter_ids tripId _ _ Hall).
  - eapply Forall2_impl; [exact Hall|].
    intros a b [->|[_ [v ->]]]; reflexivity.
Qed.

Lemma renumber_one_trip_id (tripId id : string) (index : nat) (stop : TripStop.t) :
  TripStop.trip_id (renumber_one tripId id index stop) = TripStop.trip_id stop
  /\ TripStop.id (renumber_one tripId id index stop) = TripStop.id stop.
Proof. unfold renumber_one. destruct (decide _); split; reflexivity. Qed.

Lemma renumber_fmap (tripId id : string) (index : nat) (stops : list TripStop.t) :
  NoDup (TripStop.id <$> filter (fun stop => TripStop.trip_id stop = tripId) stops) ->
  LocalData.renumber tripId id index stops = renumber_one tripId id index <$> stops.
Proof.
  unfold LocalData.renumber. induction stops as [|a stops IH]; [reflexivity|].
  rewrite filter_cons. intros Hdistinct. cbn [list_find]. rewrite fmap_cons.
  unfold renumber_one at 1.
  destruct (decide (TripStop.id a = id /\ TripStop.trip_id a = tripId)) as [[Hid Htrip]|Hno].
  - cbn. f_equal. rewrite decide_True in Hdistinct by exact Htrip.
    rewrite fmap_cons in Hdistinct. apply NoDup_cons in Hdistinct as [Hfresh _].
    symmetry. rewrite <- (list_fmap_id stops) at 2. apply list_fmap_ext.
    intros i b Hb. unfold renumber_one. rewrite decide_False; [reflexivity|].
    intros [Hid' Htrip']. apply Hfresh. apply list_elem_of_fmap. exists b.
    split; [congruence|]. apply list_elem_of_filter.
    split; [exact Htrip' | eauto using list_elem_of_lookup_2].
  - assert (Hrest : NoDup (TripStop.id <$>
               filter (fun stop => TripStop.trip_id stop = tripId) stops)).
    { destruct (decide (TripStop.trip_id a = tripId)); [|exact Hdistinct].
      rewrite fmap_cons in Hdistinct. now apply NoDup_cons in Hdistinct as [_ ?]. }
    specialize (IH Hrest).
    destruct (list_find _ stops) as [[position found]|]; cbn; now rewrite <- IH.
Qed.

Lemma renumber_from_fmap (tripId : string) (stopIds : list string) (index : nat)
    (stops : list TripStop.t) :
  NoDup (TripStop.id <$> filter (fun stop => TripStop.trip_id stop = tripId) stops) ->
  LocalData.renumber_from tripId index stopIds stops
  = renumbered tripId index stopIds <$> stops.
Proof.
  revert index stops. induction stopIds as [|id rest IH]; intros index stops Hdistinct.
  - cbn. now rewrite list_fmap_id.
  - cbn [LocalData.renumber_from renumbered].
    rewrite (renumber_fmap _ _ _ _ Hdistinct), IH.
    + now rewrite <- list_fmap_compose.
    + rewrite filter_fmap_commute by (intros x; now rewrite (proj1 (renumber_one_trip_id _ _ _ _))).
      rewrite <- list_fmap_compose.
      erewrite list_fmap_ext; [exact Hdistinct|].
      intros i x _. cbn. apply renumber_one_trip_id.
Qed.

Lemma renumbered_absent (tripId : string) (stopIds : list string) (index : nat)
    (stop : TripStop.t) :
  TripStop.id stop ∉ stopIds -> renumbered tripId index stopIds stop = stop.
Proof.
  revert index. induction stopIds as [|id rest IH]; intros index Hnot; [reflexivity|].
  cbn [renumbered]. unfold renumber_one. rewrite decide_False.
  - apply IH. intros Hin. apply Hnot. now right.
  - intros [Hid _]. apply Hnot. rewrite Hid. left.
Qed.

Lemma renumbered_ids (tripId : string) (stopIds : list string) (index : nat)
    (stop : TripStop.t) :
  TripStop.id (renumbered tripId index stopIds stop) = TripStop.id stop
  /\ TripStop.trip_id (renumbered tripId index stopIds stop) = TripStop.trip_id stop.
Proof.
  revert index stop. induction stopIds as [|id rest IH]; intros index stop; [easy|].
  cbn [renumbered]. destruct (IH (S index) (renumber_one tripId id index stop)) as [-> ->].
  destruct (renumber_one_trip_id tripId id index stop) as [-> ->]. easy.
Qed.

Lemma renumbered_position (tripId : string) (stopIds : list string) (index : nat)
    (stop : TripStop.t) :
  NoDup stopIds ->
  TripStop.trip_id stop = tripId ->
  TripStop.id stop ∈ stopIds ->
  TripStop.order_index (renumbered tripId index stopIds stop)
  = Z.of_nat (position_in (TripStop.id stop) index stopIds).
Proof.
  revert index stop. induction stopIds as [|id rest IH]; intros index stop Hnodup Htrip Hin.
  - inversion Hin.
  - apply NoDup_cons in Hnodup as [Hfresh Hrest]. cbn [renumbered position_in].
    unfold renumber_one. destruct (decide (TripStop.id stop = id)) as [Hid|Hid].
    + rewrite decide_True by easy. rewrite renumbered_absent; [reflexivity|].
      cbn. now rewrite Hid.
    + rewrite decide_False by (intros []; contradiction).
      apply IH; [assumption..|]. apply elem_of_cons in Hin as [?|?]; [contradiction|assumption].
Qed.

Lemma position_in_lookup (x : string) (stopIds : list string) (index : nat) :
  x ∈ stopIds ->
  (index <= position_in x index stopIds)%nat
  /\ stopIds !! (position_in x index stopIds - index)%nat = Some x.
Proof.
  revert index. induction stopIds as [|id rest IH]; intros index Hin; [inversion Hin|].
  cbn [position_in]. destruct (decide (x = id)) as [->|Hne].
  - rewrite Nat.sub_diag. split; [lia | reflexivity].
  - apply elem_of_cons in Hin as [?|Hin]; [contradiction|].
    destruct (IH (S index) Hin) as [Hle Hat]. split; [lia|].
    replace (position_in x (S index) rest - index)%nat
      with (S (position_in x (S index) rest - S index)) by lia.
    exact Hat.
Qed.

Lemma position_in_seq (stopIds : list string) (index : nat) :
  NoDup stopIds ->
  (fun x => Z.of_nat (position_in x index stopIds)) <$> stopIds
  = Z.of_nat <$> seq index (length stopIds).
Proof.
  revert index. induction stopIds as [|id rest IH]; intros index Hnodup; [reflexivity|].
  apply NoDup_cons in Hnodup as [Hfresh Hrest].
  cbn [length seq]. rewrite !fmap_cons. cbn [position_in].
  rewrite decide_True by reflexivity. f_equal. rewrite <- (IH (S index) Hrest).
  apply list_fmap_ext. intros i x Hx. rewrite decide_False; [reflexivity|].
  intros ->. apply Hfresh. eauto using list_elem_of_lookup_2.
Qed.

Lemma seq_sorted (index n : nat) :
  StronglySorted Z.le (Z.of_nat <$> seq index n).
Proof.
  revert index. induction n as [|n IH]; intros index; [constructor|].
  cbn [seq]. rewrite fmap_cons. constructor; [apply IH|].
  apply Forall_forall. intros z Hz. apply list_elem_of_fmap in Hz as (m & -> & Hm).
  apply elem_of_seq in Hm. lia.
Qed.

(** X6. When the stops of a trip have distinct ids and [reorder] is given
    these ids in some order, [getByTrip] returns the stops in exactly that
    order afterwards, with the order indices 0, 1, 2, ... *)
Theorem local_reorder_getByTrip (tripId : string) (stopIds : list string)
    (s : LocalData.Storage) :
  NoDup (TripStop.id <$> LocalData.stops_getByTrip tripId s) ->
  stopIds ≡ₚ TripStop.id <$> LocalData.stops_getByTrip tripId s ->
  let listed := LocalData.stops_getByTrip tripId
                  (LocalData.stops_reorder tripId stopIds s) in
  TripStop.id <$> listed = stopIds
  /\ TripStop.order_index <$> listed = Z.of_nat <$> seq 0 (length stopIds).
Proof.
  unfold LocalData.stops_getByTrip, LocalData.stops_reorder.
  cbn [LocalData.TRIP_STOPS]. change (LocalData.getStorage (Some ?l)) with l.
  set (stops := LocalData.getStorage (LocalData.TRIP_STOPS s)).
  set (of_trip := fun stop : TripStop.t => TripStop.trip_id stop = tripId).
  rewrite sort_by_Permutation. intros Hdistinct Hperm. cbv zeta.
  assert (Hids : NoDup stopIds) by now rewrite Hperm.
  rewrite (renumber_from_fmap tripId stopIds 0 stops Hdistinct).
  rewrite filter_fmap_commute
    by (intros x; unfold of_trip; now rewrite (proj2 (renumbered_ids _ _ _ _))).
  set (mine := filter of_trip stops) in *.
  set (listed := LocalData.sort_by TripStop.order_index
                   (renumbered tripId 0 stopIds <$> mine)).
  assert (Hmine : forall stop, stop ∈ mine ->
            TripStop.trip_id stop = tripId /\ TripStop.id stop ∈ stopIds).
  { intros stop Hin. split.
    - now apply list_elem_of_filter in Hin as [? _].
    - rewrite Hperm. apply list_elem_of_fmap. eauto. }
  assert (Hkeys : TripStop.order_index <$> (renumbered tripId 0 stopIds <$> mine)
                  = (fun x => Z.of_nat (position_in x 0 stopIds))
                    <$> (TripStop.id <$> mine)).
  { rewrite <- !list_fmap_compose. apply list_fmap_ext. intros i stop Hat. cbn.
    destruct (Hmine stop) as [Htrip Hin]; [eauto using list_elem_of_lookup_2|].
    now apply renumbered_position. }
  assert (Hindices : TripStop.order_index <$> listed
                     = Z.of_nat <$> seq 0 (length stopIds)).
  { apply (StronglySorted_unique_strong Z.le).
    - intros; lia.
    - apply (StronglySorted_fmap _ (fun a b => TripStop.order_index a <= TripStop.order_index b));
        [auto | apply sort_by_sorted].
    - apply seq_sorted.
    - unfold listed. rewrite sort_by_Permutation, Hkeys, <- Hperm.
      now rewrite position_in_seq. }
  split; [|exact Hindices].
  assert (Hlength : length listed = length stopIds).
  { unfold listed. rewrite sort_by_Permutation, length_fmap. rewrite Hperm.
    now rewrite length_fmap. }
  apply (list_eq_same_length _ _ (length stopIds)); [reflexivity | now rewrite length_fmap |].
  intros i x y Hi Hx Hy. rewrite list_lookup_fmap in Hx.
  destruct (listed !! i) as [stop'|] eqn:Hat; [|discriminate]. injection Hx as <-.
  assert (Hindex : TripStop.order_index stop' = Z.of_nat i).
  { assert (Hk : (TripStop.order_index <$> listed) !! i = Some (TripStop.order_index stop'))
      by now rewrite list_lookup_fmap, Hat.
    rewrite Hindices, list_lookup_fmap, lookup_seq_lt in Hk by exact Hi.
    cbn in Hk. congruence. }
  assert (Hin : stop' ∈ renumbered tripId 0 stopIds <$> mine).
  { rewrite <- (sort_by_Permutation TripStop.order_index). eauto using list_elem_of_lookup_2. }
  apply list_elem_of_fmap in Hin as (stop & -> & Hstop).
  destruct (Hmine stop Hstop) as [Htrip Hid].
  rewrite (renumbered_position tripId stopIds 0 stop Hids Htrip Hid) in Hindex.
  destruct (position_in_lookup (TripStop.id stop) stopIds 0 Hid) as [_ Hlook].
  rewrite Nat.sub_0_r in Hlook. apply Nat2Z.inj in Hindex. rewrite Hindex in Hlook.
  rewrite (proj1 (renumbered_ids _ _ _ _)). congruence.
Qed.

Lemma local_reorder_getByTrip_witness :
  let listed := LocalData.stops_getByTrip "trip-1"
                  (LocalData.stops_reorder "trip-1" ["stop-b"; "stop-a"]%string
                     europe_offline) in
  TripStop.id <$> listed = ["stop-b"; "stop-a"]%string
  /\ TripStop.order_index <$> listed = [0; 1].
Proof.
  apply (local_reorder_getByTrip "trip-1" ["stop-b"; "stop-a"]%string europe_offline);
    refine (bool_decide_unpack _ _); vm_compute; exact I.
Defined.

(** ** The itinerary builder on any state *)

Lemma insert_swap_head {A} (l : list A) (j : nat) (a y : A) :
  l !! j = Some y -> y :: <[j := a]> l ≡ₚ a :: l.
Proof.
  revert j. induction l as [|b l IH]; intros [|j] Hj; try discriminate.
  - injection Hj as ->. cbn. apply perm_swap.
  - cbn in Hj. change (<[S j := a]> (b :: l)) with (b :: <[j := a]> l).
    rewrite (Permutation_swap b y), (IH j Hj). apply perm_swap.
Qed.

Lemma insert_swap_Permutation {A} (l : list A) (i j : nat) (x y : A) :
  l !! i = Some x -> l !! j = Some y ->
  <[i := y]> (<[j := x]> l) ≡ₚ l.
Proof.
  revert i j. induction l as [|a l IH]; intros [|i] [|j] Hi Hj; try discriminate.
  - injection Hi as ->. injection Hj as ->. reflexivity.
  - injection Hi as ->. cbn in Hj. cbn. now apply insert_swap_head.
  - injection Hj as ->. cbn in Hi. cbn. now apply insert_swap_head.
  - cbn in Hi, Hj. cbn. f_equiv. now apply IH.
Qed.

Lemma fmap_alter_set_order_index {B} (f : TripStop.t -> B) (v : Z) (i : nat)
    (stops : list TripStop.t) :
  (forall s, f (TripStop.set_order_index v s) = f s) ->
  f <$> alter (TripStop.set_order_index v) i stops = f <$> stops.
Proof.
  intros Hf. revert i. induction stops as [|s stops IH]; intros [|i]; cbn; try reflexivity.
  - now rewrite Hf.
  - f_equal. apply IH.
Qed.

Lemma order_index_alter (v : Z) (i : nat) (stops : list TripStop.t) :
  TripStop.order_index <$> alter (TripStop.set_order_index v) i stops
  = <[i := v]> (TripStop.order_index <$> stops).
Proof.
  revert i. induction stops as [|s stops IH]; intros [|i]; cbn; try reflexivity.
  f_equal. apply IH.
Qed.

Lemma update_stop_order_index_frame (id : string) (v : Z) (st : Store.t) :
  let st' := snd (Store.update_stop_order_index id v st) in
  TripStop.id <$> Store.trip_stops st' = TripStop.id <$> Store.trip_stops st
  /\ Store.trips st' = Store.trips st
  /\ Store.trip_activities st' = Store.trip_activities st.
Proof.
  unfold Store.update_stop_order_index. destruct (Store.available st); cbn; [|easy].
  split; [|easy]. rewrite <- list_fmap_compose. apply list_fmap_ext.
  intros i row _. cbn. destruct (decide _); reflexivity.
Qed.

(** What [handleReorderStop] returns: its arguments, or, for two different
    positions of the list, the list with the order indices exchanged in place
    and, when both updates went through, the two stops exchanged as well. *)
Lemma handleReorderStop_cases (stopId : string) (direction : TripBuilder.Direction)
    (stops : list TripStop.t) (st : Store.t) :
  TripBuilder.handleReorderStop stopId direction stops st = (stops, st)
  \/ exists c n cur other v w,
       c <> n /\ stops !! c = Some cur /\ stops !! n = Some other
       /\ let updated :=
            TripBuilder.assign_order_index n (TripStop.order_index cur)
              (TripBuilder.assign_order_index c (TripStop.order_index other) stops) in
          let st' :=
            snd (Store.update_stop_order_index (TripStop.id other) w
                   (snd (Store.update_stop_order_index stopId v st))) in
          TripBuilder.handleReorderStop stopId direction stops st = (updated, st')
          \/ TripBuilder.handleReorderStop stopId direction stops st
             = (<[n := TripStop.set_order_index (TripStop.order_index other) cur]>
                  (<[c := TripStop.set_order_index (TripStop.order_index cur) other]>
                     updated), st').
Proof.
  unfold TripBuilder.handleReorderStop.
  destruct (list_find _ stops) as [[c found]|]; [|now left].
  set (newIndex := match direction with
                   | TripBuilder.up => Z.of_nat c - 1
                   | TripBuilder.down => Z.of_nat c + 1
                   end).
  destruct (Z.ltb_spec newIndex 0); [now left|].
  destruct (Z.leb_spec (Z.of_nat (length stops)) newIndex); [now left|]. cbn [orb].
  assert (Hcn : c <> Z.to_nat newIndex) by (subst newIndex; destruct direction; lia).
  destruct (stops !! c) as [cur|] eqn:Hc; [|now left].
  destruct (stops !! Z.to_nat newIndex) as [other|] eqn:Hn; [|now left].
  unfold TripBuilder.assign_order_index.
  rewrite list_lookup_alter_ne, list_lookup_alter_eq, Hc by congruence.
  rewrite list_lookup_alter_eq, list_lookup_alter_ne, Hn by exact Hcn.
  cbn [fmap option_fmap option_map].
  right. exists c, (Z.to_nat newIndex), cur, other.
  exists (TripStop.order_index other), (TripStop.order_index cur).
  split; [exact Hcn|]. split; [exact Hc|]. split; [exact Hn|].
  cbv zeta. rewrite !order_index_set_order_index, id_set_order_index.
  destruct (Store.update_stop_order_index stopId _ st) as [error1 st1]. cbn [snd].
  destruct (Store.update_stop_order_index (TripStop.id other) _ st1) as [error2 st2].
  cbn [snd]. destruct (error1 || error2); [now left | now right].
Qed.

(** X7. On any list of stops and any store, [handleReorderStop] neither adds
    nor loses a stop or an order index: the ids and the order indices of the
    state are those of before up to order, the rows of the store keep their
    ids, and trips and activities are left alone. *)
Theorem reorder_keeps_stops (stopId : string) (direction : TripBuilder.Direction)
    (stops : list TripStop.t) (st : Store.t) :
  let result := TripBuilder.handleReorderStop stopId direction stops st in
  TripStop.id <$> fst result ≡ₚ TripStop.id <$> stops
  /\ TripStop.order_index <$> fst result ≡ₚ TripStop.order_index <$> stops
  /\ TripStop.id <$> Store.trip_stops (snd result)
     = TripStop.id <$> Store.trip_stops st
  /\ Store.trips (snd result) = Store.trips st
  /\ Store.trip_activities (snd result) = Store.trip_activities st.
Proof.
  cbv zeta.
  destruct (handleReorderStop_cases stopId direction stops st)
    as [->|(c & n & cur & other & v & w & Hcn & Hc & Hn & Hresult)]; [easy|].
  cbv zeta in Hresult.
  set (updated := TripBuilder.assign_order_index n (TripStop.order_index cur)
          (TripBuilder.assign_order_index c (TripStop.order_index other) stops)) in *.
  assert (Hids : TripStop.id <$> updated = TripStop.id <$> stops).
  { unfold updated, TripBuilder.assign_order_index.
    now rewrite !fmap_alter_set_order_index by reflexivity. }
  assert (Hindices : TripStop.order_index <$> updated ≡ₚ TripStop.order_index <$> stops).
  { unfold updated, TripBuilder.assign_order_index. rewrite !order_index_alter.
    apply insert_swap_Permutation; rewrite list_lookup_fmap; [now rewrite Hn | now rewrite Hc]. }
  assert (Hstore : forall st',
            st' = snd (Store.update_stop_order_index (TripStop.id other) w
                         (snd (Store.update_stop_order_index stopId v st))) ->
            TripStop.id <$> Store.trip_stops st' = TripStop.id <$> Store.trip_stops st
            /\ Store.trips st' = Store.trips st
            /\ Store.trip_activities st' = Store.trip_activities st).
  { intros st' ->.
    destruct (update_stop_order_index_frame (TripStop.id other) w
                (snd (Store.update_stop_order_index stopId v st))) as (-> & -> & ->).
    apply update_stop_order_index_frame. }
  assert (Hswap : <[n := TripStop.set_order_index (TripStop.order_index other) cur]>
                    (<[c := TripStop.set_order_index (TripStop.order_index cur) other]>
                       updated) ≡ₚ updated).
  { apply insert_swap_Permutation; unfold updated, TripBuilder.assign_order_index.
    - rewrite list_lookup_alter_eq, list_lookup_alter_ne, Hn by exact Hcn. reflexivity.
    - rewrite list_lookup_alter_ne, list_lookup_alter_eq, Hc by congruence. reflexivity. }
  destruct Hresult as [-> | ->]; cbn [fst snd].
  - split; [now rewrite Hids|]. split; [exact Hindices|]. now apply Hstore.
  - split; [now rewrite Hswap, Hids|]. split; [now rewrite Hswap|]. now apply Hstore.
Qed.

(** X8. [handleReorderStop] does nothing, to the state and to the store, for
    an id that no stop of the list has, for the first stop moved up, and for a
    last stop moved down when no earlier stop has its id. *)
Theorem reorder_at_the_ends (stopId : string) (stops : list TripStop.t) (st : Store.t) :
  (stopId ∉ TripStop.id <$> stops ->
   forall direction,
     TripBuilder.handleReorderStop stopId direction stops st = (stops, st))
  /\ (forall first rest,
        stops = first :: rest -> TripStop.id first = stopId ->
        TripBuilder.handleReorderStop stopId TripBuilder.up stops st = (stops, st))
  /\ (forall front last,
        stops = front ++ [last] -> TripStop.id last = stopId ->
        stopId ∉ TripStop.id <$> front ->
        TripBuilder.handleReorderStop stopId TripBuilder.down stops st = (stops, st)).
Proof.
  split; [|split].
  - intros Hnot direction. unfold TripBuilder.handleReorderStop.
    destruct (list_find _ stops) as [[c found]|] eqn:Hfind; [|reflexivity].
    apply list_find_Some in Hfind as (Hc & Hid & _). exfalso. apply Hnot.
    apply list_elem_of_fmap. exists found. eauto using list_elem_of_lookup_2.
  - intros first rest -> Hid. unfold TripBuilder.handleReorderStop.
    cbn [list_find]. rewrite decide_True by exact Hid. reflexivity.
  - intros front last -> Hid Hnot. unfold TripBuilder.handleReorderStop.
    destruct (list_find _ (front ++ [last])) as [[c found]|] eqn:Hfind; [|reflexivity].
    apply list_find_Some in Hfind as (Hc & Hfound & _).
    assert (c = length front) as ->.
    { destruct (decide (c < length front)%nat) as [Hlt|Hge].
      - rewrite lookup_app_l in Hc by exact Hlt. exfalso. apply Hnot.
        apply list_elem_of_fmap. exists found. eauto using list_elem_of_lookup_2.
      - apply lookup_lt_Some in Hc. rewrite length_app in Hc. cbn in Hc. lia. }
    rewrite length_app. cbn [length].
    destruct (Z.ltb_spec (Z.of_nat (length front) + 1) 0); [reflexivity|].
    destruct (Z.leb_spec (Z.of_nat (length front + 1)) (Z.of_nat (length front) + 1));
      [reflexivity | lia].
Qed.

Lemma handleReorderStop_rejected (direction : TripBuilder.Direction)
    (stops : list TripStop.t) (st : Store.t) (c n : nat) (cur other : TripStop.t) :
  NoDup (TripStop.id <$> stops) ->
  Store.available st = false ->
  stops !! c = Some cur ->
  stops !! n = Some other ->
  (direction = TripBuilder.up /\ c = S n) \/ (direction = TripBuilder.down /\ n = S c) ->
  TripBuilder.handleReorderStop (TripStop.id cur) direction stops st
  = (TripBuilder.assign_order_index n (TripStop.order_index cur)
       (TripBuilder.assign_order_index c (TripStop.order_index other) stops), st).
Proof.
  intros Hnd Hav Hc Hn Hadj.
  assert (Hcn : c <> n) by (destruct Hadj as [[_ ->]|[_ ->]]; lia).
  pose proof (lookup_lt_Some _ _ _ Hn) as Hln.
  unfold TripBuilder.handleReorderStop. rewrite (list_find_by_id _ _ _ Hnd Hc).
  set (newIndex := match direction with
                   | TripBuilder.up => Z.of_nat c - 1
                   | TripBuilder.down => Z.of_nat c + 1
                   end).
  assert (HnewIndex : newIndex = Z.of_nat n).
  { subst newIndex. destruct Hadj as [[-> ->]|[-> ->]]; lia. }
  rewrite HnewIndex.
  destruct (Z.ltb_spec (Z.of_nat n) 0); [lia|].
  destruct (Z.leb_spec (Z.of_nat (length stops)) (Z.of_nat n)); [lia|].
  cbn [orb]. rewrite Nat2Z.id, Hc, Hn. unfold TripBuilder.assign_order_index.
  rewrite list_lookup_alter_ne, list_lookup_alter_eq, Hc by congruence.
  rewrite list_lookup_alter_eq, list_lookup_alter_ne, Hn by exact Hcn.
  cbn [fmap option_fmap option_map].
  unfold Store.update_stop_order_index. rewrite Hav. cbv beta iota zeta.
  rewrite Hav. reflexivity.
Qed.

(** X9. When the store rejects the two updates, [handleReorderStop] leaves
    the store as it was and every stop at its position, but the two stops have
    already exchanged their order indices in the state: the assignment was
    made on the objects the state holds.  The state has then changed whenever
    the two order indices differ. *)
Theorem reorder_rejected_by_store (stops : list TripStop.t) (st : Store.t)
    (k : nat) (upper lower : TripStop.t)
    (Hids : NoDup (TripStop.id <$> stops))
    (Hrejected : Store.available st = false)
    (Hupper : stops !! k = Some upper)
    (Hlower : stops !! S k = Some lower) :
  let moved_up :=
    TripBuilder.handleReorderStop (TripStop.id lower) TripBuilder.up stops st in
  let moved_down :=
    TripBuilder.handleReorderStop (TripStop.id upper) TripBuilder.down stops st in
  snd moved_up = st
  /\ fst moved_up !! k
     = Some (TripStop.set_order_index (TripStop.order_index lower) upper)
  /\ fst moved_up !! S k
     = Some (TripStop.set_order_index (TripStop.order_index upper) lower)
  /\ (forall i, i <> k -> i <> S k -> fst moved_up !! i = stops !! i)
  /\ TripStop.id <$> fst moved_up = TripStop.id <$> stops
  /\ (TripStop.order_index upper <> TripStop.order_index lower ->
      fst moved_up <> stops)
  /\ moved_down = moved_up.
Proof.
  cbv zeta.
  rewrite (handleReorderStop_rejected TripBuilder.up stops st (S k) k lower upper)
    by (auto; left; auto).
  rewrite (handleReorderStop_rejected TripBuilder.down stops st k (S k) upper lower)
    by (auto; right; auto).
  cbn [fst snd]. unfold TripBuilder.assign_order_index.
  assert (Hk : alter (TripStop.set_order_index (TripStop.order_index lower)) k
                 (alter (TripStop.set_order_index (TripStop.order_index upper)) (S k) stops)
               !! k
               = Some (TripStop.set_order_index (TripStop.order_index lower) upper)).
  { rewrite list_lookup_alter_eq, list_lookup_alter_ne, Hupper by lia. reflexivity. }
  split; [reflexivity|]. split; [exact Hk|]. split; [|split; [|split; [|split]]].
  - rewrite list_lookup_alter_ne, list_lookup_alter_eq, Hlower by lia. reflexivity.
  - intros i Hik HiSk. now rewrite !list_lookup_alter_ne by congruence.
  - now rewrite !fmap_alter_set_order_index by reflexivity.
  - intros Hdiffer Hsame. rewrite Hsame, Hupper in Hk. injection Hk as Hk.
    apply Hdiffer. rewrite Hk at 1. reflexivity.
  - f_equal. apply list_eq. intros i.
    destruct (decide (i = k)) as [->|Hik]; [|destruct (decide (i = S k)) as [->|HiSk]].
    + rewrite list_lookup_alter_ne, list_lookup_alter_eq by lia.
      rewrite list_lookup_alter_eq, list_lookup_alter_ne by lia. reflexivity.
    + rewrite list_lookup_alter_eq, list_lookup_alter_ne by lia.
      rewrite list_lookup_alter_ne, list_lookup_alter_eq by lia. reflexivity.
    + now rewrite !list_lookup_alter_ne by congruence.
Qed.

Lemma reorder_rejected_by_store_witness :
  let moved_up :=
    TripBuilder.handleReorderStop "stop-b" TripBuilder.up europe_stops rejecting_store in
  snd moved_up = rejecting_store
  /\ TripStop.order_index <$> fst moved_up = [1; 0]
  /\ fst moved_up <> europe_stops.
Proof.
  cbv zeta.
  pose proof (fun upper lower =>
    reorder_rejected_by_store europe_stops rejecting_store 0%nat upper lower
      ltac:(refine (bool_decide_unpack _ _); vm_compute; exact I) eq_refl) as H.
  specialize (H _ _ eq_refl eq_refl). cbv zeta in H.
  destruct H as (Hstore & _ & _ & _ & _ & Hchanged & _).
  split; [exact Hstore|]. split; [vm_compute; reflexivity|].
  apply Hchanged. vm_compute. discriminate.
Defined.

(** The stop that [handleAddStop] appends to the state. *)
Lemma handleAddStop_available (trip : Trip.t) (form : TripBuilder.NewStop)
    (stops : list TripStop.t) (st : Store.t) :
  Store.available st = true ->
  TripBuilder.is_blank (TripBuilder.city_name form) = false ->
  let id := fresh (TripStop.id <$> Store.trip_stops st) in
  let fields activities :=
    StopFields.mk None (TripBuilder.city_name form) (Some (TripBuilder.country form))
      (TripBuilder.or_null (TripBuilder.start_date form))
      (TripBuilder.or_null (TripBuilder.end_date form))
      (Z.of_nat (length stops)) 0 0 None activities in
  TripBuilder.handleAddStop trip form stops st
  = (stops ++ [TripStop.mk id (Trip.id trip) (fields (Some []))],
     Store.mk (Store.trips st)
       (Store.trip_stops st ++ [TripStop.mk id (Trip.id trip) (fields None)])
       (Store.trip_activities st) true (Store.now st)).
Proof.
  intros Hav Hblank. cbv zeta.
  unfold TripBuilder.handleAddStop, Store.insert_stop. rewrite Hblank, Hav. reflexivity.
Qed.

(** X10. A run of [handleAddStop] over any number of forms whose city names
    are written in ASCII, on a store that accepts the inserts, skips the
    forms whose city name is blank and appends one stop for each of the
    others, in order, numbered on from the length of the list; the rows get
    ids that the store did not hold, and ids that were distinct stay
    distinct. *)
Theorem add_stops_numbering (trip : Trip.t) (forms : list TripBuilder.NewStop)
    (stops : list TripStop.t) (st : Store.t)
    (Havailable : Store.available st = true)
    (Hascii : Forall (fun form => isAscii (TripBuilder.city_name form) = true) forms) :
  let result :=
    foldl (fun state form => TripBuilder.handleAddStop trip form (fst state) (snd state))
          (stops, st) forms in
  let accepted :=
    filter (fun form => TripBuilder.is_blank (TripBuilder.city_name form) = false)
           forms in
  exists added,
    fst result = stops ++ added
    /\ TripStop.order_index <$> added
       = Z.of_nat <$> seq (length stops) (length accepted)
    /\ TripStop.city_name <$> added = TripBuilder.city_name <$> accepted
    /\ Forall (fun stop => TripStop.trip_id stop = Trip.id trip) added
    /\ TripStop.id <$> Store.trip_stops (snd result)
       = (TripStop.id <$> Store.trip_stops st) ++ (TripStop.id <$> added)
    /\ (NoDup (TripStop.id <$> Store.trip_stops st) ->
        NoDup (TripStop.id <$> Store.trip_stops (snd result))).
Proof.
  cbv zeta. clear Hascii. revert stops st Havailable.
  induction forms as [|form forms IH]; intros stops st Hav.
  - exists []. cbn. rewrite !app_nil_r. repeat split; auto.
  - cbn [foldl fst snd]. rewrite filter_cons.
    destruct (decide (TripBuilder.is_blank (TripBuilder.city_name form) = false))
      as [Hblank|Hblank].
    + rewrite (handleAddStop_available trip form stops st Hav Hblank). cbn [fst snd].
      set (new := TripStop.mk _ _ _).
      set (st1 := Store.mk _ _ _ _ _).
      destruct (IH (stops ++ [new]) st1 eq_refl)
        as (added & Hstate & Hindices & Hcities & Htrip & Hrows & Hdistinct).
      exists (new :: added). rewrite Hstate, <- app_assoc. split; [reflexivity|].
      rewrite length_app in Hindices. cbn [length] in Hindices.
      rewrite Nat.add_1_r in Hindices.
      split; [cbn [length seq]; rewrite !fmap_cons, Hindices; reflexivity|].
      split; [rewrite !fmap_cons, Hcities; reflexivity|].
      split; [constructor; [reflexivity | exact Htrip]|].
      subst st1. cbn [Store.trip_stops] in Hrows, Hdistinct.
      rewrite fmap_app in Hrows, Hdistinct. rewrite <- app_assoc in Hrows.
      split; [exact Hrows|].
      intros Hnodup. apply Hdistinct. apply NoDup_app. split; [exact Hnodup|].
      split; [|apply NoDup_singleton].
      intros x Hx Hnew. cbn in Hnew. apply list_elem_of_singleton in Hnew. subst x.
      exact (infinite_is_fresh _ Hx).
    + assert (Hskip : TripBuilder.handleAddStop trip form stops st = (stops, st)).
      { unfold TripBuilder.handleAddStop.
        destruct (TripBuilder.is_blank (TripBuilder.city_name form)); [reflexivity|].
        now contradiction Hblank. }
      rewrite Hskip. apply IH, Hav.
Qed.


Lemma add_stops_numbering_witness :
  exists added,
    fst (foldl (fun state form =>
                  TripBuilder.handleAddStop paris_trip form (fst state) (snd state))
               (Store.trip_stops store_with_paris, store_with_paris)
               [city "Rome"; city "  "; city "Vienna"])
    = Store.trip_stops store_with_paris ++ added
    /\ TripStop.order_index <$> added = [1; 2]
    /\ TripStop.city_name <$> added = ["Rome"; "Vienna"]%string.
Proof.
  destruct (add_stops_numbering paris_trip
              [city "Rome"; city "  "; city "Vienna"]
              (Store.trip_stops store_with_paris) store_with_paris eq_refl
              ltac:(repeat constructor))
    as (added & Hstate & Hindices & Hcities & _).
  exists added. split; [exact Hstate|]. split; [exact Hindices | exact Hcities].
Defined.


Lemma with_activities_same (s : TripStop.t) :
  TripBuilder.with_activities (TripStop.activities s) s = s.
Proof. destruct s as [i t []]. reflexivity. Qed.

Lemma with_activities_twice (a b : option (list TripActivity.t)) (s : TripStop.t) :
  TripBuilder.with_activities a (TripBuilder.with_activities b s)
  = TripBuilder.with_activities a s.
Proof. reflexivity. Qed.

(** X12. [handleAddActivity] leaves the stops of the state in place with
    their ids, changes no stop that has another id, and leaves the trips and
    the stops of the store alone; for an id that no stop of the state has, and
    on a store that rejects the insert, it changes nothing at all. *)
Theorem add_activity_frame (is_custom : bool) (stopId : string)
    (activity : TripBuilder.PartialActivity) (stops : list TripStop.t) (st : Store.t) :
  let result := TripBuilder.handleAddActivity is_custom stopId activity stops st in
  TripStop.id <$> fst result = TripStop.id <$> stops
  /\ Forall2 (fun before after => TripStop.id before <> stopId -> after = before)
       stops (fst result)
  /\ Store.trips (snd result) = Store.trips st
  /\ Store.trip_stops (snd result) = Store.trip_stops st
  /\ (stopId ∉ TripStop.id <$> stops -> result = (stops, st))
  /\ (Store.available st = false -> result = (stops, st)).
Proof.
  cbv zeta. unfold TripBuilder.handleAddActivity, Store.insert_activity.
  assert (Hrefl : Forall2 (fun before after : TripStop.t =>
                             TripStop.id before <> stopId -> after = before) stops stops).
  { apply Forall2_same_length_lookup. split; [reflexivity|]. intros; congruence. }
  destruct (list_find _ stops) as [[k stop]|] eqn:Hfind; [|easy].
  apply list_find_Some in Hfind as (Hk & Hid & _).
  destruct (Store.available st); [|cbn; repeat split; auto].
  cbn [fst snd Store.trips Store.trip_stops].
  split; [|split; [|split; [|split; [|split]]]]; try reflexivity.
  - rewrite <- list_fmap_compose. apply list_fmap_ext. intros i s _. cbn.
    destruct (decide _); reflexivity.
  - apply Forall2_fmap_r, Forall2_same_length_lookup. split; [reflexivity|].
    intros i x y Hx Hy Hne. assert (y = x) as -> by congruence.
    now rewrite decide_False by exact Hne.
  - intros Hnot. exfalso. apply Hnot. apply list_elem_of_fmap. exists stop.
    eauto using list_elem_of_lookup_2.
  - discriminate.
Qed.

(** X13. On a store that accepts the requests, when the state has a stop with
    the id, every such stop holds an array of activities and the state shows
    stored activities only, [handleAddActivity] appends to each of these
    arrays one activity, numbered with the length of the array of the first
    such stop, and [handleDeleteActivity] of that activity restores the state
    and the store. *)
Theorem add_then_delete_activity (is_custom : bool) (activity : TripBuilder.PartialActivity)
    (stops : list TripStop.t) (st : Store.t) (k : nat) (stop : TripStop.t)
    (Havailable : Store.available st = true)
    (Hfirst : list_find (fun s => TripStop.id s = TripStop.id stop) stops = Some (k, stop))
    (Hshown : Forall (fun s =>
                 TripStop.id s = TripStop.id stop ->
                 exists shown, TripStop.activities s = Some shown
                   /\ (TripActivity.id <$> shown)
                      ⊆ (TripActivity.id <$> Store.trip_activities st)) stops) :
  let added :=
    TripBuilder.handleAddActivity is_custom (TripStop.id stop) activity stops st in
  exists data,
    fst added
    = (fun s => if decide (TripStop.id s = TripStop.id stop)
                then TripBuilder.with_activities
                       (Some (default [] (TripStop.activities s) ++ [data])) s
                else s) <$> stops
    /\ TripActivity.trip_stop_id data = TripStop.id stop
    /\ TripActivity.order_index data
       = Z.of_nat (length (default [] (TripStop.activities stop)))
    /\ Store.trip_activities (snd added) = Store.trip_activities st ++ [data]
    /\ TripBuilder.handleDeleteActivity (TripStop.id stop) (TripActivity.id data)
         (fst added) (snd added)
       = (stops, st).
Proof.
  cbv zeta. unfold TripBuilder.handleAddActivity, Store.insert_activity.
  rewrite Hfirst, Havailable. cbn [fst snd Store.trip_activities].
  set (data := TripActivity.mk _ _ _). exists data.
  split; [reflexivity|]. split; [reflexivity|]. split; [reflexivity|].
  split; [reflexivity|].
  pose proof (infinite_is_fresh (TripActivity.id <$> Store.trip_activities st)) as Hfresh.
  assert (Hkeep : forall rows : list TripActivity.t,
            (TripActivity.id <$> rows) ⊆ (TripActivity.id <$> Store.trip_activities st) ->
            filter (fun a => TripActivity.id a ≠ TripActivity.id data) rows = rows).
  { intros rows Hrows. induction rows as [|row rows IH]; [reflexivity|].
    rewrite filter_cons, decide_True.
    - f_equal. apply IH. intros x Hx. apply Hrows. rewrite fmap_cons. now right.
    - intros Hid. apply Hfresh. cbn [data TripActivity.id] in Hid. rewrite <- Hid.
      apply Hrows. rewrite fmap_cons. left. }
  assert (Hdrop : forall rows : list TripActivity.t,
            (TripActivity.id <$> rows) ⊆ (TripActivity.id <$> Store.trip_activities st) ->
            filter (fun a => TripActivity.id a ≠ TripActivity.id data) (rows ++ [data])
            = rows).
  { intros rows Hrows. rewrite filter_app, (Hkeep rows Hrows), filter_cons.
    rewrite decide_False by auto. rewrite filter_nil. apply app_nil_r. }
  unfold TripBuilder.handleDeleteActivity, Store.delete_activity.
  cbn [Store.available Store.trips Store.trip_stops Store.trip_activities Store.now].
  rewrite Hdrop by (intros x Hx; exact Hx). f_equal.
  - rewrite <- list_fmap_compose. rewrite <- (list_fmap_id stops) at 2.
    apply list_fmap_ext. intros i s Hs. cbn.
    destruct (decide (TripStop.id s = TripStop.id stop)) as [Hid|Hid].
    + cbn [TripBuilder.with_activities TripStop.id]. rewrite decide_True by exact Hid.
      rewrite Forall_forall in Hshown.
      destruct (Hshown s (list_elem_of_lookup_2 _ _ _ Hs) Hid) as (shown & Hacts & Hsub).
      rewrite with_activities_twice. rewrite Hacts at 1. cbn [default from_option].
      unfold Datatypes.id. cbn [TripStop.activities TripBuilder.with_activities
        TripStop.fields StopFields.activities fmap option_fmap option_map].
      change (fresh (TripActivity.id <$> Store.trip_activities st))
        with (TripActivity.id data).
      rewrite (Hdrop shown Hsub), <- Hacts. apply with_activities_same.
    + rewrite decide_False by exact Hid. reflexivity.
  - destruct st. cbn in *. now subst.
Qed.

(** X14. [toggleStopExpand] changes the membership of the given stop only,
    and a second toggle of the same stop restores the set. *)
Theorem toggleStopExpand_involution (stopId : string) (expandedStops : gset string) :
  TripBuilder.toggleStopExpand stopId (TripBuilder.toggleStopExpand stopId expandedStops)
  = expandedStops
  /\ (stopId ∈ TripBuilder.toggleStopExpand stopId expandedStops
      <-> stopId ∉ expandedStops)
  /\ (forall other, other <> stopId ->
        other ∈ TripBuilder.toggleStopExpand stopId expandedStops
        <-> other ∈ expandedStops).
Proof.
  unfold TripBuilder.toggleStopExpand.
  destruct (decide (stopId ∈ expandedStops)) as [Hin|Hout].
  - assert (Hnot : stopId ∉ expandedStops ∖ {[stopId]}).
    { rewrite elem_of_difference, elem_of_singleton. intros [_ Hne]. now apply Hne. }
    rewrite decide_False by exact Hnot. split; [|split].
    + apply set_eq. intros x.
      rewrite elem_of_union, elem_of_difference, elem_of_singleton.
      destruct (decide (x = stopId)) as [->|]; tauto.
    + tauto.
    + intros other Hne. rewrite elem_of_difference, elem_of_singleton. tauto.
  - assert (Hyes : stopId ∈ expandedStops ∪ {[stopId]}).
    { rewrite elem_of_union, elem_of_singleton. now right. }
    rewrite decide_True by exact Hyes. split; [|split].
    + apply set_eq. intros x.
      rewrite elem_of_difference, elem_of_union, elem_of_singleton.
      destruct (decide (x = stopId)) as [->|]; tauto.
    + tauto.
    + intros other Hne. rewrite elem_of_union, elem_of_singleton. tauto.
Qed.

Lemma add_then_delete_activity_witness :
  let stops := [two_day_stop "2024-01-01"] in
  let added :=
    TripBuilder.handleAddActivity false "s1" unnamed_activity stops store_with_museum in
  exists data,
    TripActivity.order_index data = 1
    /\ Store.trip_activities (snd added) = [museum_on "2024-01-01"; data]
    /\ TripBuilder.handleDeleteActivity "s1" (TripActivity.id data) (fst added) (snd added)
       = (stops, store_with_museum).
Proof.
  cbv zeta.
  destruct (add_then_delete_activity false unnamed_activity
              [two_day_stop "2024-01-01"] store_with_museum 0
              (two_day_stop "2024-01-01") eq_refl eq_refl
              ltac:(constructor; [|constructor]; intros _; eexists;
                    split; [reflexivity | intros x Hx; exact Hx]))
    as (data & _ & _ & Hindex & Hrows & Hback).
  exists data. split; [exact Hindex|]. split; [exact Hrows | exact Hback].
Defined.

(** ** Copying a shared trip *)

Lemma activitiesToInsert_fields (newStopId : string) (activities : list TripActivity.t) :
  SharedTripView.activitiesToInsert newStopId activities
  = (fun activity => (newStopId, TripActivity.fields activity)) <$> activities.
Proof.
  unfold SharedTripView.activitiesToInsert. apply list_fmap_ext.
  intros i [id stop []] _. reflexivity.
Qed.

Lemma copyStops_spec (newTripId : string) (stops : list TripStop.t) :
  forall trips rows acts now,
  exists copies,
    fold_left (SharedTripView.copyStop newTripId) stops
      (Store.mk trips rows acts true now)
    = Store.mk trips (rows ++ (fst <$> copies)) (acts ++ concat (snd <$> copies))
        true now
    /\ Forall2 (copy_of newTripId) stops copies
    /\ NoDup (TripStop.id <$> (fst <$> copies))
    /\ (forall c, c ∈ copies -> TripStop.id (fst c) ∉ (TripStop.id <$> rows)).
Proof.
  induction stops as [|stop stops IH]; intros trips rows acts now.
  - exists []. cbn. rewrite !app_nil_r. repeat split; try constructor.
    intros c Hc. inversion Hc.
  - set (row := TripStop.mk (fresh (TripStop.id <$> rows)) newTripId
                  (SharedTripView.stopToInsert stop)).
    assert (Hgroup : exists group,
              SharedTripView.copyStop newTripId (Store.mk trips rows acts true now) stop
              = Store.mk trips (rows ++ [row]) (acts ++ group) true now
              /\ Forall2 (fun activity r =>
                            TripActivity.trip_stop_id r = TripStop.id row
                            /\ TripActivity.fields r = TripActivity.fields activity)
                   (default [] (TripStop.activities stop)) group).
    { unfold SharedTripView.copyStop, Store.insert_stop.
      cbn [Store.available Store.trips Store.trip_stops Store.trip_activities Store.now].
      fold row. destruct (TripStop.activities stop) as [[|a l]|].
      - exists []. rewrite app_nil_r. split; [reflexivity | constructor].
      - destruct (insert_activities_spec
                    (SharedTripView.activitiesToInsert (TripStop.id row) (a :: l))
                    trips (rows ++ [row]) acts now) as (group & Hins & Hall).
        exists group. split; [exact Hins|].
        rewrite activitiesToInsert_fields in Hall.
        apply Forall2_fmap_l in Hall. exact Hall.
      - exists []. rewrite app_nil_r. split; [reflexivity | constructor]. }
    destruct Hgroup as (group & Hstep & Hall).
    destruct (IH trips (rows ++ [row]) (acts ++ group) now)
      as (copies & Hfold & Hcopies & Hnew & Hfresh).
    exists ((row, group) :: copies).
    assert (Hrow : TripStop.id row ∉ (TripStop.id <$> (fst <$> copies))).
    { intros Hin. apply list_elem_of_fmap in Hin as (r & Hid & Hr).
      apply list_elem_of_fmap in Hr as (c & -> & Hc).
      apply (Hfresh c Hc). rewrite fmap_app, <- Hid. apply elem_of_app. right.
      now apply list_elem_of_singleton. }
    split; [|split; [|split]].
    + cbn [fold_left]. rewrite Hstep, Hfold. cbn [fmap list_fmap fst snd concat].
      now rewrite <- !app_assoc.
    + constructor; [|exact Hcopies]. split; [reflexivity|]. split; [reflexivity|].
      exact Hall.
    + cbn [fmap list_fmap fst]. apply NoDup_cons. split; assumption.
    + intros c Hc. apply elem_of_cons in Hc as [->|Hc].
      * apply infinite_is_fresh.
      * intros Hin. apply (Hfresh c Hc). rewrite fmap_app. apply elem_of_app. now left.
Qed.

(** X15. For a signed-in user and a store that accepts the inserts,
    [handleCopyTrip] adds one private trip owned by the user, named after the
    shared trip with the suffix " (Copy)", with a new share code and the other
    trip fields of the shared trip; for each stop of the view, in order, one
    stop row of the new trip with the same nine columns, and for each of its
    nested activities, in order, one activity row of that new stop with the
    same fields.  The new stops get distinct ids that the store did not hold,
    whatever the ids of the stops of the view; nothing else is written. *)
Theorem copy_trip (userId : string) (trip : Trip.t) (stops : list TripStop.t)
    (rng : list string) (st : Store.t)
    (Havailable : Store.available st = true) :
  exists newTrip copies,
    SharedTripView.handleCopyTrip (Some userId) (Some trip) stops rng st
    = (true, snd (random_code rng),
       Store.mk (Store.trips st ++ [newTrip])
         (Store.trip_stops st ++ (fst <$> copies))
         (Store.trip_activities st ++ concat (snd <$> copies))
         true (Store.now st))
    /\ newTrip
       = Trip.mk (fresh (Trip.id <$> Store.trips st)) userId
           (Trip.name trip +:+ " (Copy)") (Trip.description trip)
           (Trip.start_date trip) (Trip.end_date trip) (Trip.cover_image trip)
           false (Some (fst (random_code rng))) (Trip.total_budget trip)
           (Store.now st) (Store.now st)
    /\ Forall2 (copy_of (Trip.id newTrip)) stops copies
    /\ NoDup (TripStop.id <$> (fst <$> copies))
    /\ (forall c, c ∈ copies ->
          TripStop.id (fst c) ∉ (TripStop.id <$> Store.trip_stops st)).
Proof.
  unfold SharedTripView.handleCopyTrip, Store.insert_trip.
  destruct (random_code rng) as [shareCode rng'] eqn:Hcode. rewrite Havailable.
  cbn [TripInsert.user_id TripInsert.name TripInsert.description TripInsert.start_date
       TripInsert.end_date TripInsert.cover_image TripInsert.is_public
       TripInsert.share_code TripInsert.total_budget fst snd].
  set (newTrip := Trip.mk _ _ _ _ _ _ _ _ _ _ _ _).
  destruct (copyStops_spec (Trip.id newTrip) stops (Store.trips st ++ [newTrip])
              (Store.trip_stops st) (Store.trip_activities st) (Store.now st))
    as (copies & Hfold & Hcopies & Hnew & Hfresh).
  exists newTrip, copies. rewrite Hfold. repeat split; assumption.
Qed.

Lemma copy_trip_witness :
  exists newTrip copies,
    Store.trips (snd (SharedTripView.handleCopyTrip (Some "bob"%string) (Some europe)
                        europe_stops ["c0py1234"%string] (store_of europe)))
    = [europe; newTrip]
    /\ Trip.name newTrip = "Europe (Copy)"%string
    /\ Trip.is_public newTrip = false
    /\ Forall2 (copy_of (Trip.id newTrip)) europe_stops copies.
Proof.
  destruct (copy_trip "bob" europe europe_stops ["c0py1234"%string] (store_of europe)
              eq_refl) as (newTrip & copies & Hresult & -> & Hcopies & _).
  eexists _, copies. rewrite Hresult. split; [reflexivity|].
  split; [reflexivity|]. split; [reflexivity | exact Hcopies].
Defined.

(** X16. [handleCopyTrip] writes nothing and sets no flag when nobody is
    signed in, when the view holds no trip, and when the store rejects the
    insert of the trip; only in the last case has a share code been drawn. *)
Theorem copy_trip_refused (user : option string) (trip : option Trip.t)
    (stops : list TripStop.t) (rng : list string) (st : Store.t) :
  (user = None \/ trip = None ->
   SharedTripView.handleCopyTrip user trip stops rng st = (false, rng, st))
  /\ (Store.available st = false ->
      forall userId shared,
        user = Some userId -> trip = Some shared ->
        SharedTripView.handleCopyTrip user trip stops rng st
        = (false, snd (random_code rng), st)).
Proof.
  split.
  - intros [-> | ->]; [reflexivity | destruct user; reflexivity].
  - intros Hrejected userId shared -> ->.
    unfold SharedTripView.handleCopyTrip, Store.insert_trip.
    destruct (random_code rng). now rewrite Hrejected.
Qed.

(** ** The totals of the screens *)

Lemma fold_estimated_cost (activities : list TripActivity.t) (acc : Z) :
  fold_left (fun total a => total + num_or (TripActivity.estimated_cost a) 0)
    activities acc
  = acc + Zsum TripActivity.estimated_cost activities.
Proof.
  revert acc. induction activities as [|a l IH]; intros acc; cbn [fold_left].
  - cbn. lia.
  - rewrite IH, num_or_zero, Zsum_cons. lia.
Qed.

Lemma meal_and_other_costs (activities : list TripActivity.t) :
  meal_costs activities + other_costs activities
  = Zsum TripActivity.estimated_cost activities.
Proof.
  unfold meal_costs, other_costs. induction activities as [|a l IH]; [reflexivity|].
  cbn [List.filter]. destruct (is_meal_category (TripActivity.category a));
    cbn [negb]; rewrite !Zsum_cons; lia.
Qed.

Lemma Zsum_Permutation {A} (f : A -> Z) (l k : list A) :
  l ≡ₚ k -> Zsum f l = Zsum f k.
Proof.
  induction 1 as [|x l k _ IH|x y l|l k m _ IH1 _ IH2];
    rewrite ?Zsum_cons; lia.
Qed.

Lemma calculateTotalCost_eq (stops : list TripStop.t) :
  TripView.calculateTotalCost stops
  = Zsum TripStop.transport_cost stops + Zsum TripStop.accommodation_cost stops
    + Zsum TripActivity.estimated_cost (all_activities stops).
Proof.
  unfold TripView.calculateTotalCost.
  enough (Hacc : forall acc,
            fold_left
              (fun total stop =>
                 fold_left (fun total activity =>
                              total + num_or (TripActivity.estimated_cost activity) 0)
                   (activities_of stop)
                   (total + num_or (TripStop.transport_cost stop) 0
                    + num_or (TripStop.accommodation_cost stop) 0))
              stops acc
            = acc + (Zsum TripStop.transport_cost stops
                     + Zsum TripStop.accommodation_cost stops
                     + Zsum TripActivity.estimated_cost (all_activities stops)))
    by (rewrite Hacc; lia).
  induction stops as [|s l IH]; intros acc; cbn [fold_left].
  - cbn. lia.
  - rewrite IH, fold_estimated_cost, !num_or_zero, !Zsum_cons.
    unfold all_activities. cbn [fmap list_fmap concat]. rewrite Zsum_app. lia.
Qed.

(** X17. For amounts that are whole numbers and add up exactly, the total
    of the trip view, the total of the shared view and the sum of the bars of
    the budget screen are one number: transport plus accommodation plus the
    estimated costs of all activities, whatever the order of the stops.  The
    total of the budget screen is that number plus the meal allowance of 1500
    per stop, added exactly when the activities that count as meals cost
    nothing. *)
Theorem totals_of_the_screens (stops : list TripStop.t)
    (Hexact : exact_amounts stops) :
  TripView.calculateTotalCost stops
  = Zsum TripStop.transport_cost stops + Zsum TripStop.accommodation_cost stops
    + Zsum TripActivity.estimated_cost (all_activities stops)
  /\ SharedTripView.totalCost stops = TripView.calculateTotalCost stops
  /\ Zsum (fun bar => Transport bar + Accommodation bar + Activities bar) (barData stops)
     = TripView.calculateTotalCost stops
  /\ totalEstimated stops
     = TripView.calculateTotalCost stops
       + (if meal_costs (all_activities stops) =? 0
          then Z.of_nat (length stops) * 1500 else 0)
  /\ (forall stops', stops ≡ₚ stops' ->
        exact_amounts stops'
        /\ TripView.calculateTotalCost stops' = TripView.calculateTotalCost stops).
Proof.
  split; [apply calculateTotalCost_eq|]. split; [|split; [|split]].
  - clear Hexact. rewrite calculateTotalCost_eq. unfold SharedTripView.totalCost.
    enough (Hacc : forall acc,
      fold_left
        (fun sum stop =>
           let stopCost :=
             match TripStop.activities stop with
             | Some activities =>
                 num_or (fold_left
                           (fun a act => a + num_or (TripActivity.estimated_cost act) 0)
                           activities 0) 0
             | None => 0
             end in
           sum + stopCost + num_or (TripStop.transport_cost stop) 0
           + num_or (TripStop.accommodation_cost stop) 0)
        stops acc
      = acc + (Zsum TripStop.transport_cost stops
               + Zsum TripStop.accommodation_cost stops
               + Zsum TripActivity.estimated_cost (all_activities stops)))
      by (rewrite Hacc; lia).
    induction stops as [|s l IH]; intros acc; cbn [fold_left].
    + cbn. lia.
    + rewrite IH, !num_or_zero, !Zsum_cons. unfold all_activities.
      cbn [fmap list_fmap concat]. rewrite Zsum_app. unfold activities_of at 2.
      destruct (TripStop.activities s) as [activities|]; cbn [default from_option].
      * rewrite num_or_zero, fold_estimated_cost. unfold Datatypes.id. lia.
      * cbn. lia.
  - clear Hexact. rewrite calculateTotalCost_eq. unfold barData.
    induction stops as [|s l IH]; [reflexivity|].
    rewrite fmap_cons, !Zsum_cons, IH. cbn [Transport Accommodation Activities].
    rewrite !num_or_zero. unfold all_activities. cbn [fmap list_fmap concat].
    rewrite Zsum_app. unfold activities_of at 2.
    destruct (TripStop.activities s) as [activities|]; cbn [default from_option].
    + rewrite num_or_zero, fold_estimated_cost. unfold Datatypes.id. lia.
    + cbn. lia.
  - unfold totalEstimated. rewrite calculateCosts_eq, calculateTotalCost_eq.
    cbn [Costs.transport Costs.accommodation Costs.activities Costs.meals].
    rewrite <- (meal_and_other_costs (all_activities stops)).
    unfold num_or, MEAL_ALLOWANCE_PER_STOP.
    destruct (Z.eqb_spec (meal_costs (all_activities stops)) 0) as [Hzero|_]; lia.
  - intros stops' Hperm.
    assert (Hactivities : all_activities stops ≡ₚ all_activities stops')
      by (unfold all_activities; now rewrite Hperm).
    split.
    + unfold exact_amounts in *.
      rewrite <- (Zsum_Permutation _ _ _ Hperm), <- (Zsum_Permutation _ _ _ Hactivities).
      exact Hexact.
    + rewrite !calculateTotalCost_eq.
      rewrite (Zsum_Permutation TripStop.transport_cost _ _ Hperm).
      rewrite (Zsum_Permutation TripStop.accommodation_cost _ _ Hperm).
      f_equal. symmetry. now apply Zsum_Permutation.
Qed.

Lemma totals_of_the_screens_witness :
  exact_amounts [example_stop]
  /\ SharedTripView.totalCost [example_stop] = TripView.calculateTotalCost [example_stop]
  /\ totalEstimated [example_stop] = TripView.calculateTotalCost [example_stop] + 1500.
Proof.
  assert (Hexact : exact_amounts [example_stop]) by (vm_compute; discriminate).
  split; [exact Hexact|].
  destruct (totals_of_the_screens [example_stop] Hexact) as (_ & Hshared & _ & Htotal & _).
  split; [exact Hshared | exact Htotal].
Defined.

Lemma estimated_budget_total (trip : Trip.t) (stops : list TripStop.t) :
  calculateEstimatedBudget trip stops
  = if truthy (Trip.start_date trip) && truthy (Trip.end_date trip)
    then num_add (of_Z (TripView.calculateTotalCost stops))
           (num_mul (inclusiveDays (default "" (Trip.start_date trip))
                       (default "" (Trip.end_date trip)))
              (of_Z MEAL_ALLOWANCE_PER_DAY))
    else of_Z (TripView.calculateTotalCost stops).
Proof. reflexivity. Qed.

(** X18. [calculateEstimatedBudget] is the total of the trip view for a trip
    that lacks a date.  For a trip whose two dates are calendar days it adds
    1500 for each day from the first to the last, both included, which takes
    money off when the trip ends more than a day before it starts; when a
    date is present but is an Invalid Date the budget is NaN. *)
Theorem estimated_budget (trip : Trip.t) (stops : list TripStop.t) :
  let total := TripView.calculateTotalCost stops in
  (truthy (Trip.start_date trip) && truthy (Trip.end_date trip) = false ->
   calculateEstimatedBudget trip stops = of_Z total)
  /\ (forall s e y m d y' m' d',
        Trip.start_date trip = Some s -> Trip.end_date trip = Some e ->
        parse_ymd s = Some (y, m, d) -> parse_ymd e = Some (y', m', d') ->
        number_eq (calculateEstimatedBudget trip stops)
          (of_Z (total
                 + 1500 * (days_from_civil y' m' d' - days_from_civil y m d + 1))))
  /\ (forall s e,
        Trip.start_date trip = Some s -> Trip.end_date trip = Some e ->
        s <> ""%string -> e <> ""%string ->
        parseISO s = None \/ parseISO e = None ->
        calculateEstimatedBudget trip stops = NaN).
Proof.
  cbv zeta. rewrite estimated_budget_total. split; [|split].
  - intros ->. reflexivity.
  - intros s e y m d y' m' d' -> -> Hs He.
    assert (Hdated : forall t ymd, parse_ymd t = Some ymd -> truthy (Some t) = true).
    { intros t ymd Ht. cbn. destruct (String.eqb_spec t "") as [->|_]; [|reflexivity].
      discriminate Ht. }
    rewrite (Hdated s _ Hs), (Hdated e _ He). cbn [andb default from_option].
    unfold Datatypes.id, inclusiveDays, parseISO. rewrite Hs, He.
    cbn [differenceInDays].
    replace (days_from_civil y' m' d' * MS_PER_DAY - days_from_civil y m d * MS_PER_DAY)
      with ((days_from_civil y' m' d' - days_from_civil y m d) * MS_PER_DAY) by lia.
    rewrite Z.quot_mul by (unfold MS_PER_DAY; lia).
    unfold of_Z, MEAL_ALLOWANCE_PER_DAY. cbn [num_add num_mul number_eq].
    rewrite !inject_Z_plus, !inject_Z_mult, !inject_Z_plus. ring.
  - intros s e -> -> Hs He Hbad. cbn [truthy].
    destruct (String.eqb_spec s "") as [|_]; [contradiction|].
    destruct (String.eqb_spec e "") as [|_]; [contradiction|].
    cbn [negb andb default from_option]. unfold Datatypes.id, inclusiveDays.
    destruct Hbad as [-> | ->];
      [destruct (parseISO e) | destruct (parseISO s)]; reflexivity.
Qed.

(** ** Conflict alerts: too many activities in a day *)

Lemma inject_Z_pos (D : Z) : 0 < D -> (0 < inject_Z D)%Q.
Proof. intros H. change 0%Q with (inject_Z 0). now rewrite <- Zlt_Qlt. Qed.

Lemma inject_Z_nonzero (D : Z) : D <> 0 -> ~ (inject_Z D == 0)%Q.
Proof. intros H Heq. apply H. now apply inject_Z_injective. Qed.

Lemma per_day_le (n D : Z) (Dq : Q) :
  (Dq == inject_Z D)%Q -> 0 < D ->
  Qle_bool (inject_Z n / Dq) (inject_Z 5) = (n <=? 5 * D).
Proof.
  intros HD Hpos. rewrite HD. pose proof (inject_Z_pos D Hpos) as HDpos.
  destruct (Z.leb_spec n (5 * D)) as [Hle|Hlt].
  - apply Qle_bool_iff. apply Qle_shift_div_r; [exact HDpos|].
    rewrite <- inject_Z_mult, <- Zle_Qle. exact Hle.
  - destruct (Qle_bool (inject_Z n / inject_Z D) (inject_Z 5)) eqn:Hb; [|reflexivity].
    apply Qle_bool_iff in Hb. exfalso. revert Hb. apply Qlt_not_le.
    apply Qlt_shift_div_l; [exact HDpos|].
    rewrite <- inject_Z_mult, <- Zlt_Qlt. exact Hlt.
Qed.

Lemma per_day_negative (n D : Z) (Dq : Q) :
  (Dq == inject_Z D)%Q -> D < 0 -> 0 <= n ->
  Qle_bool (inject_Z n / Dq) (inject_Z 5) = true.
Proof.
  intros HD Hneg Hn. rewrite HD. apply Qle_bool_iff.
  assert (Hflip : (inject_Z n / inject_Z D == inject_Z (- n) / inject_Z (- D))%Q).
  { rewrite !inject_Z_opp. field. apply inject_Z_nonzero. lia. }
  rewrite Hflip. apply Qle_shift_div_r; [apply inject_Z_pos; lia|].
  rewrite <- inject_Z_mult, <- Zle_Qle. lia.
Qed.

Lemma round_per_day (n D : Z) (Dq : Q) :
  (Dq == inject_Z D)%Q -> 0 < D ->
  Qfloor (inject_Z n / Dq + (1 # 2)) = (2 * n + D) / (2 * D).
Proof.
  intros HD Hpos. rewrite Zdiv_Qdiv. apply Qfloor_comp.
  rewrite HD, inject_Z_plus, !inject_Z_mult. field. apply inject_Z_nonzero. lia.
Qed.

(** X19. For a stop that has activities and whose two dates are calendar
    days, the second loop of [ConflictAlerts] counts the days from the first
    to the last, both included.  With a positive number of days it pushes one
    warning exactly when there are more than five activities per day, and the
    message shows their number per day rounded to the nearest whole number, a
    half going up.  When the stop ends the day before it starts the number of
    days is zero and the warning reads "Infinity activities/day"; when it ends
    earlier still there is no warning. *)
Theorem too_many_activities (stop : TripStop.t) (activities : list TripActivity.t)
    (s e : string) (y m d y' m' d' : Z)
    (Hactivities : TripStop.activities stop = Some activities)
    (Hsome : activities <> [])
    (Hstart : TripStop.start_date stop = Some s)
    (Hend : TripStop.end_date stop = Some e)
    (Hs : parse_ymd s = Some (y, m, d))
    (He : parse_ymd e = Some (y', m', d')) :
  let n := Z.of_nat (length activities) in
  let days := days_from_civil y' m' d' - days_from_civil y m d + 1 in
  let warn (perDay : string) :=
    Alert.mk activities_alert
      (TripStop.city_name stop +:+ " has " +:+ perDay
         +:+ " activities/day - consider spreading them out") warning in
  checkStopActivities stop
  = if 0 <? days
    then (if 5 * days <? n then [warn (pretty ((2 * n + days) / (2 * days)))] else [])
    else if days =? 0 then [warn "Infinity"%string] else [].
Proof.
  cbv zeta. unfold checkStopActivities. rewrite Hactivities, Hstart, Hend.
  destruct (String.eqb_spec s "") as [->|_]; [discriminate Hs|].
  destruct (String.eqb_spec e "") as [->|_]; [discriminate He|].
  destruct activities as [|a l]; [contradiction|]. cbn [length Nat.eqb orb].
  set (n := Z.of_nat (S (length l))).
  assert (Hn : 0 < n) by (subst n; lia).
  unfold inclusiveDays, parseISO. rewrite Hs, He. cbn [differenceInDays].
  replace (days_from_civil y' m' d' * MS_PER_DAY - days_from_civil y m d * MS_PER_DAY)
    with ((days_from_civil y' m' d' - days_from_civil y m d) * MS_PER_DAY) by lia.
  rewrite Z.quot_mul by (unfold MS_PER_DAY; lia).
  set (between := days_from_civil y' m' d' - days_from_civil y m d).
  set (Dq := (inject_Z between + inject_Z 1)%Q).
  assert (HD : (Dq == inject_Z (between + 1))%Q)
    by (subst Dq; now rewrite inject_Z_plus).
  change (num_add (of_Z between) (of_Z 1)) with (Finite Dq).
  unfold of_Z. cbn [num_div]. unfold Qis_zero.
  destruct (Z.ltb_spec 0 (between + 1)) as [Hpos|Hnonpos].
  - assert (Hnz : Qeq_bool Dq 0 = false).
    { destruct (Qeq_bool Dq 0) eqn:Hz; [|reflexivity]. apply Qeq_bool_iff in Hz.
      rewrite HD in Hz. apply inject_Z_nonzero in Hz; [contradiction | lia]. }
    rewrite Hnz. unfold num_gt, num_lt. cbn [num_le].
    rewrite (per_day_le n (between + 1) Dq HD Hpos).
    rewrite Z.leb_antisym, negb_involutive.
    destruct (5 * (between + 1) <? n); [|reflexivity].
    unfold tooManyAlert. cbn [Math_round]. unfold of_Z. cbn [number_text].
    rewrite Qfloor_Z, (round_per_day n (between + 1) Dq HD Hpos). reflexivity.
  - destruct (Z.eqb_spec (between + 1) 0) as [Hzero|Hnonzero].
    + assert (Hz : Qeq_bool Dq 0 = true).
      { apply Qeq_bool_iff. rewrite HD, Hzero. reflexivity. }
      rewrite Hz.
      assert (Hnn : Qeq_bool (inject_Z n) 0 = false).
      { destruct (Qeq_bool (inject_Z n) 0) eqn:Hq; [|reflexivity].
        apply Qeq_bool_iff in Hq. apply inject_Z_nonzero in Hq; [contradiction | lia]. }
      rewrite Hnn.
      assert (Hneg : Qis_neg (inject_Z n) = false).
      { unfold Qis_neg. apply negb_false_iff, Qle_bool_iff.
        change 0%Q with (inject_Z 0). rewrite <- Zle_Qle. lia. }
      rewrite Hneg. reflexivity.
    + assert (Hnz : Qeq_bool Dq 0 = false).
      { destruct (Qeq_bool Dq 0) eqn:Hz; [|reflexivity]. apply Qeq_bool_iff in Hz.
        rewrite HD in Hz. apply inject_Z_nonzero in Hz; [contradiction | lia]. }
      rewrite Hnz. unfold num_gt, num_lt. cbn [num_le].
      rewrite (per_day_negative n (between + 1) Dq HD) by lia. reflexivity.
Qed.

Lemma too_many_activities_witness :
  checkStopActivities (crowded_stop 11 "2024-01-01" "2024-01-02")
  = [Alert.mk activities_alert
       "Jaipur has 6 activities/day - consider spreading them out" warning]
  /\ checkStopActivities (crowded_stop 3 "2024-01-02" "2024-01-01")
     = [Alert.mk activities_alert
          "Jaipur has Infinity activities/day - consider spreading them out" warning].
Proof.
  split.
  - exact (too_many_activities (crowded_stop 11 "2024-01-01" "2024-01-02")
             (replicate 11 sightseeing) "2024-01-01" "2024-01-02" 2024 1 1 2024 1 2
             eq_refl ltac:(discriminate) eq_refl eq_refl eq_refl eq_refl).
  - vm_compute. reflexivity.
Defined.

(** X20. The second loop of [ConflictAlerts] pushes at most one alert for
    each stop, always a warning of the type "activities", and none for a stop
    without activities, without a start or an end date, or with a date that
    is an Invalid Date. *)
Theorem too_many_activities_never (stops : list TripStop.t) :
  (length (tooManyActivitiesAlerts stops) <= length stops)%nat
  /\ Forall (fun alert => Alert.type alert = activities_alert
                          /\ Alert.severity alert = warning)
       (tooManyActivitiesAlerts stops)
  /\ (forall stop,
        activities_of stop = [] \/ truthy (TripStop.start_date stop) = false
        \/ truthy (TripStop.end_date stop) = false ->
        checkStopActivities stop = [])
  /\ (forall stop s e,
        TripStop.start_date stop = Some s -> TripStop.end_date stop = Some e ->
        parseISO s = None \/ parseISO e = None ->
        checkStopActivities stop = []).
Proof.
  assert (Hone : forall stop,
            checkStopActivities stop = []
            \/ exists perDay, checkStopActivities stop = [tooManyAlert stop perDay]).
  { intros stop. unfold checkStopActivities.
    destruct (TripStop.activities stop), (TripStop.start_date stop),
      (TripStop.end_date stop); auto.
    destruct (_ || _ || _); auto. destruct (num_gt _ _); eauto. }
  split; [|split; [|split]].
  - unfold tooManyActivitiesAlerts. induction stops as [|stop stops IH]; [reflexivity|].
    rewrite fmap_cons. cbn [concat]. rewrite length_app. cbn [length].
    destruct (Hone stop) as [-> | [perDay ->]]; cbn [length]; lia.
  - unfold tooManyActivitiesAlerts. induction stops as [|stop stops IH]; [constructor|].
    rewrite fmap_cons. cbn [concat]. apply Forall_app. split; [|exact IH].
    destruct (Hone stop) as [-> | [perDay ->]]; repeat constructor.
  - intros stop. unfold checkStopActivities, activities_of, truthy.
    destruct (TripStop.activities stop) as [[|a l]|], (TripStop.start_date stop) as [s|],
      (TripStop.end_date stop) as [e|]; try reflexivity.
    cbn [default from_option length Nat.eqb orb]. unfold Datatypes.id.
    intros [Hnil | [Hs | He]]; [discriminate Hnil | |].
    + apply negb_false_iff in Hs. now rewrite Hs.
    + apply negb_false_iff in He. rewrite He. now rewrite orb_true_r.
  - intros stop s e Hs He Hbad. unfold checkStopActivities. rewrite Hs, He.
    destruct (TripStop.activities stop) as [activities|]; [|reflexivity].
    destruct (_ || _ || _); [reflexivity|]. unfold inclusiveDays.
    destruct Hbad as [-> | ->]; [destruct (parseISO e) | destruct (parseISO s)];
      reflexivity.
Qed.

(** ** Share links *)


Lemma filter_two {A} (P : A -> Prop) `{!forall x, Decision (P x)}
    (l : list A) (i j : nat) (a b : A) :
  (i < j)%nat -> l !! i = Some a -> l !! j = Some b -> P a -> P b ->
  (2 <= length (filter P l))%nat.
Proof.
  intros Hij Hi Hj Ha Hb. rewrite <- (take_drop_middle l j b Hj), filter_app, filter_cons.
  rewrite decide_True by exact Hb. rewrite length_app. cbn [length].
  assert (Hin : a ∈ filter P (take j l)).
  { apply list_elem_of_filter. split; [exact Ha|].
    apply (list_elem_of_lookup_2 _ i). rewrite lookup_take_lt by exact Hij. exact Hi. }
  destruct (filter P (take j l)); [inversion Hin | cbn [length]; lia].
Qed.

(** X21. [loadSharedTrip] finds a trip only if the trip is stored, public
    and the only public trip with the share code; when two public trips have
    the code, or the store does not answer, it finds none, and a link without
    a code resolves to nothing. *)
Theorem loadSharedTrip_sound (shareCode : string) (st : Store.t) :
  (forall row,
     Sharing.loadSharedTrip shareCode st = Some row ->
     row ∈ Store.trips st
     /\ Trip.is_public row = true
     /\ Trip.share_code row = Some shareCode
     /\ forall other, other ∈ Store.trips st ->
          Trip.is_public other = true -> Trip.share_code other = Some shareCode ->
          other = row)
  /\ (forall i j a b,
        i <> j -> Store.trips st !! i = Some a -> Store.trips st !! j = Some b ->
        Trip.is_public a = true -> Trip.share_code a = Some shareCode ->
        Trip.is_public b = true -> Trip.share_code b = Some shareCode ->
        Sharing.loadSharedTrip shareCode st = None)
  /\ (Store.available st = false -> Sharing.loadSharedTrip shareCode st = None)
  /\ (forall origin, Sharing.resolve (Sharing.mkUrl origin "") st = None).
Proof.
  unfold Sharing.loadSharedTrip. split; [|split; [|split]].
  - intros row. destruct (Store.available st); [|discriminate].
    set (matching := filter _ (Store.trips st)).
    destruct matching as [|found [|]] eqn:Hmatching; try discriminate.
    intros [= ->].
    assert (Hrow : row ∈ matching) by (rewrite Hmatching; left).
    apply list_elem_of_filter in Hrow as [[Hcode Hpublic] Hin].
    repeat split; try assumption.
    intros other Hother Hp Hc.
    assert (Hfound : other ∈ matching) by (apply list_elem_of_filter; auto).
    rewrite Hmatching in Hfound. now apply list_elem_of_singleton in Hfound.
  - intros i j a b Hij Hi Hj Hpa Hca Hpb Hcb.
    destruct (Store.available st); [|reflexivity].
    assert (Htwo : (2 <= length (filter (fun row => Trip.share_code row = Some shareCode
                                          ∧ Trip.is_public row = true)
                                  (Store.trips st)))%nat).
    { destruct (decide (i < j)%nat).
      - apply (filter_two _ _ i j a b); auto.
      - apply (filter_two _ _ j i b a); auto. lia. }
    destruct (filter _ (Store.trips st)) as [|x [|y l]]; cbn in Htwo; try lia.
    reflexivity.
  - intros ->. reflexivity.
  - reflexivity.
Qed.



(** ** Suggested spots *)

(** X23. On a store that accepts the requests, [handleAddSpot] adds exactly
    one activity, with the fields of the spot, order index 0 and the custom
    flag, to a stop of the trip that bears the name of the destination.  The
    stop is the stored one when exactly one stop of the trip bears that name;
    in every other case, several such stops included, it is a new stop with
    order index 0 appended to the stops.  The trips are left alone. *)
Theorem add_spot_lands_on_destination (trip : Trip.t) (destination country : string)
    (spot : DestinationSuggestions.TouristSpot) (st : Store.t)
    (Havailable : Store.available st = true) :
  let st' := DestinationSuggestions.handleAddSpot trip destination country spot st in
  let matching :=
    filter (fun row => TripStop.trip_id row = Trip.id trip
                       ∧ TripStop.city_name row = destination)
           (Store.trip_stops st) in
  exists target activity,
    Store.trip_activities st' = Store.trip_activities st ++ [activity]
    /\ TripActivity.trip_stop_id activity = TripStop.id target
    /\ TripActivity.fields activity
       = ActivityFields.mk None (DestinationSuggestions.name spot)
           (Some (DestinationSuggestions.description spot)) None None
           (num_or (DestinationSuggestions.duration spot) 3)
           (DestinationSuggestions.estimatedCost spot) 0
           (Some (DestinationSuggestions.category spot)) true
    /\ target ∈ Store.trip_stops st'
    /\ TripStop.trip_id target = Trip.id trip
    /\ TripStop.city_name target = destination
    /\ Store.trips st' = Store.trips st
    /\ (forall row, matching = [row] -> TripStop.id row <> ""%string ->
          target = row /\ Store.trip_stops st' = Store.trip_stops st)
    /\ (length matching <> 1%nat ->
        Store.trip_stops st' = Store.trip_stops st ++ [target]
        /\ TripStop.order_index target = 0
        /\ TripStop.id target ∉ (TripStop.id <$> Store.trip_stops st)).
Proof.
  cbv zeta. unfold DestinationSuggestions.handleAddSpot.
  set (matching := filter _ (Store.trip_stops st)).
  set (new := TripStop.mk (fresh (TripStop.id <$> Store.trip_stops st)) (Trip.id trip)
                (StopFields.mk None destination (Some country) None None 0 0 0 None None)).
  assert (Hinsert : Store.insert_stop (Trip.id trip)
                      (StopFields.mk None destination (Some country) None None 0 0 0
                         None None) st
                    = (Some new,
                       Store.mk (Store.trips st) (Store.trip_stops st ++ [new])
                         (Store.trip_activities st) true (Store.now st))).
  { unfold Store.insert_stop. now rewrite Havailable. }
  assert (Hnew : exists activity,
            (match (let '(newStop, st') :=
                      Store.insert_stop (Trip.id trip)
                        (StopFields.mk None destination (Some country) None None
                           0 0 0 None None) st in
                    (TripStop.id <$> newStop, st')) with
             | (Some stopId, st') =>
                 snd (Store.insert_activity stopId
                        (ActivityFields.mk None (DestinationSuggestions.name spot)
                           (Some (DestinationSuggestions.description spot)) None None
                           (num_or (DestinationSuggestions.duration spot) 3)
                           (DestinationSuggestions.estimatedCost spot) 0
                           (Some (DestinationSuggestions.category spot)) true) st')
             | (None, st') => st'
             end)
            = Store.mk (Store.trips st) (Store.trip_stops st ++ [new])
                (Store.trip_activities st ++ [activity]) true (Store.now st)
            /\ TripActivity.trip_stop_id activity = TripStop.id new
            /\ TripActivity.fields activity
               = ActivityFields.mk None (DestinationSuggestions.name spot)
                   (Some (DestinationSuggestions.description spot)) None None
                   (num_or (DestinationSuggestions.duration spot) 3)
                   (DestinationSuggestions.estimatedCost spot) 0
                   (Some (DestinationSuggestions.category spot)) true).
  { rewrite Hinsert. cbn [fmap option_fmap option_map].
    unfold Store.insert_activity. cbn [Store.available snd Store.trips Store.trip_stops
      Store.trip_activities Store.now]. eexists. split; [reflexivity|]. split; reflexivity. }
  assert (Hfresh : TripStop.id new ∉ (TripStop.id <$> Store.trip_stops st))
    by apply infinite_is_fresh.
  destruct matching as [|row [|second more]] eqn:Hmatching; cbn [Store.single].
  - destruct Hnew as (activity & -> & Htarget & Hfields).
    exists new, activity. cbn [Store.trips Store.trip_stops Store.trip_activities].
    repeat split; try assumption; try reflexivity; try discriminate.
    apply elem_of_app. right. left.
  - assert (Hrow : row ∈ filter (fun row => TripStop.trip_id row = Trip.id trip
                                   ∧ TripStop.city_name row = destination)
                          (Store.trip_stops st)).
    { fold matching. rewrite Hmatching. left. }
    apply list_elem_of_filter in Hrow as [[Htrip Hcity] Hin].
    destruct (String.eqb_spec (TripStop.id row) "") as [Hempty|Hid].
    + destruct Hnew as (activity & -> & Htarget & Hfields).
      exists new, activity. cbn [Store.trips Store.trip_stops Store.trip_activities].
      split; [reflexivity|]. split; [exact Htarget|]. split; [exact Hfields|].
      split; [apply elem_of_app; right; left|]. split; [reflexivity|].
      split; [reflexivity|]. split; [reflexivity|]. split.
      * intros row' [= <-] Hnonempty. contradiction.
      * intros Hlength. now contradiction Hlength.
    + unfold Store.insert_activity. rewrite Havailable. cbn [snd].
      eexists row, _. cbn [Store.trips Store.trip_stops Store.trip_activities].
      split; [reflexivity|]. split; [reflexivity|]. split; [reflexivity|].
      split; [exact Hin|]. split; [exact Htrip|]. split; [exact Hcity|].
      split; [reflexivity|]. split.
      * intros row' [= <-] _. split; reflexivity.
      * cbn [length]. congruence.
  - destruct Hnew as (activity & -> & Htarget & Hfields).
    exists new, activity. cbn [Store.trips Store.trip_stops Store.trip_activities].
    repeat split; try assumption; try reflexivity; try discriminate.
    apply elem_of_app. right. left.
Qed.

Lemma add_spot_lands_on_destination_witness :
  let st' := DestinationSuggestions.handleAddSpot paris_trip "Paris" "France" temple
               store_with_paris in
  Store.trip_stops st' = Store.trip_stops store_with_paris
  /\ exists activity,
       Store.trip_activities st' = [activity]
       /\ TripActivity.trip_stop_id activity = "s1"%string.
Proof.
  cbv zeta.
  destruct (add_spot_lands_on_destination paris_trip "Paris" "France" temple
              store_with_paris eq_refl)
    as (target & activity & Hrows & Hstop & _ & _ & _ & _ & _ & Hreused & _).
  destruct (Hreused _ eq_refl ltac:(discriminate)) as [-> Hstops].
  split; [exact Hstops|]. exists activity. split; [exact Hrows | exact Hstop].
Defined.

(** ** What an import can write *)

Lemma createStops_any (tripId : string) (data : list NewStop.t) :
  forall trips rows acts now (m0 : gmap string string),
  exists created m',
    fold_left (TripView.createStop tripId) data (Store.mk trips rows acts true now, m0)
    = (Store.mk trips (rows ++ created) acts true now, m')
    /\ Forall (fun c => TripStop.trip_id c = tripId) created
    /\ length created = length data
    /\ (forall k v, m' !! k = Some v ->
          m0 !! k = Some v \/ v ∈ (TripStop.id <$> created)).
Proof.
  induction data as [|d ds IH]; intros trips rows acts now m0.
  - exists [], m0. rewrite app_nil_r. repeat split; auto.
  - set (row := TripStop.mk (fresh (TripStop.id <$> rows)) tripId (NewStop.fields d)).
    cbn [fold_left]. unfold TripView.createStop at 2, Store.insert_stop.
    cbn [Store.available Store.trips Store.trip_stops Store.trip_activities Store.now].
    fold row.
    destruct (negb (String.eqb (NewStop._original_stop_id d) "")) eqn:Hkey.
    + destruct (IH trips (rows ++ [row]) acts now
                  (<[NewStop._original_stop_id d := TripStop.id row]> m0))
        as (created & m' & -> & Hall & Hlen & Hmap).
      exists (row :: created), m'. rewrite <- app_assoc.
      split; [reflexivity|]. split; [constructor; [reflexivity | exact Hall]|].
      split; [cbn [length]; now rewrite Hlen|].
      intros k v Hk. destruct (Hmap k v Hk) as [Hold|Hnew].
      * destruct (decide (k = NewStop._original_stop_id d)) as [->|Hne].
        -- rewrite lookup_insert_eq in Hold. injection Hold as <-. right.
           rewrite fmap_cons. left.
        -- rewrite lookup_insert_ne in Hold by congruence. now left.
      * right. rewrite fmap_cons. now right.
    + destruct (IH trips (rows ++ [row]) acts now m0)
        as (created & m' & -> & Hall & Hlen & Hmap).
      exists (row :: created), m'. rewrite <- app_assoc.
      split; [reflexivity|]. split; [constructor; [reflexivity | exact Hall]|].
      split; [cbn [length]; now rewrite Hlen|].
      intros k v Hk. destruct (Hmap k v Hk) as [Hold|Hnew]; [now left|].
      right. rewrite fmap_cons. now right.
Qed.

Lemma activitiesToInsert_mapped (stopIdMap : gmap string string)
    (newActivitiesData : list NewActivity.t) :
  Forall (fun p => exists k, stopIdMap !! k = Some (fst p))
    (TripView.activitiesToInsert stopIdMap newActivitiesData)
  /\ (length (TripView.activitiesToInsert stopIdMap newActivitiesData)
      <= length newActivitiesData)%nat.
Proof.
  unfold TripView.activitiesToInsert.
  induction newActivitiesData as [|a l [IH1 IH2]]; [split; [constructor | reflexivity]|].
  cbn [omap list_omap].
  destruct (String.eqb (NewActivity._original_stop_id a) ""); [split; [assumption|]|].
  - cbn [length]. lia.
  - destruct (stopIdMap !! NewActivity._original_stop_id a) as [newStopId|] eqn:Hmap.
    + split; [constructor; [eauto | exact IH1] | cbn [length]; lia].
    + split; [exact IH1 | cbn [length]; lia].
Qed.

Lemma insertImported_safe (prepared : Prepared.t) (rng : list string) (st : Store.t) :
  let st' := snd (TripView.insertImported prepared rng st) in
  exists newTrips newStops newActivities,
    Store.trips st' = Store.trips st ++ newTrips
    /\ Store.trip_stops st' = Store.trip_stops st ++ newStops
    /\ Store.trip_activities st' = Store.trip_activities st ++ newActivities
    /\ (length newTrips <= 1)%nat
    /\ Forall (fun t => Trip.user_id t = TripInsert.user_id (Prepared.trip prepared)
                        /\ Trip.is_public t = TripInsert.is_public (Prepared.trip prepared)
                        /\ Trip.id t ∉ (Trip.id <$> Store.trips st)) newTrips
    /\ Forall (fun s => TripStop.trip_id s ∈ (Trip.id <$> newTrips)) newStops
    /\ Forall (fun a => TripActivity.trip_stop_id a ∈ (TripStop.id <$> newStops))
         newActivities
    /\ (length newStops <= length (Prepared.stops prepared))%nat
    /\ (length newActivities <= length (Prepared.activities prepared))%nat.
Proof.
  cbv zeta. unfold TripView.insertImported, Store.insert_trip.
  destruct (random_code rng) as [shareCode rng'].
  destruct (Store.available st) eqn:Hav.
  - cbn [TripInsert.user_id TripInsert.name TripInsert.description TripInsert.start_date
         TripInsert.end_date TripInsert.cover_image TripInsert.is_public
         TripInsert.share_code TripInsert.total_budget].
    set (row := Trip.mk _ _ _ _ _ _ _ _ _ _ _ _).
    destruct (createStops_any (Trip.id row) (Prepared.stops prepared)
                (Store.trips st ++ [row]) (Store.trip_stops st)
                (Store.trip_activities st) (Store.now st) ∅)
      as (created & m' & -> & Hall & Hlen & Hmap).
    destruct (activitiesToInsert_mapped m' (Prepared.activities prepared))
      as [Hmapped Hcount].
    set (toInsert := TripView.activitiesToInsert m' (Prepared.activities prepared)) in *.
    destruct (insert_activities_spec toInsert (Store.trips st ++ [row])
                (Store.trip_stops st ++ created) (Store.trip_activities st) (Store.now st))
      as (rows & Hins & Hrows).
    assert (Hstore : snd (if (0 <? length toInsert)%nat
                          then (rng', Store.insert_activities toInsert
                                        (Store.mk (Store.trips st ++ [row])
                                           (Store.trip_stops st ++ created)
                                           (Store.trip_activities st) true (Store.now st)))
                          else (rng', Store.mk (Store.trips st ++ [row])
                                        (Store.trip_stops st ++ created)
                                        (Store.trip_activities st) true (Store.now st)))
                     = Store.mk (Store.trips st ++ [row]) (Store.trip_stops st ++ created)
                         (Store.trip_activities st ++ rows) true (Store.now st)).
    { destruct toInsert as [|p ps]; cbn [length Nat.ltb Nat.leb snd].
      - cbn in Hins. injection Hins as Hins. rewrite <- Hins. reflexivity.
      - exact Hins. }
    rewrite Hstore. exists [row], created, rows.
    cbn [Store.trips Store.trip_stops Store.trip_activities].
    split; [reflexivity|]. split; [reflexivity|]. split; [reflexivity|].
    split; [reflexivity|]. split.
    { constructor; [|constructor]. split; [reflexivity|]. split; [reflexivity|].
      apply infinite_is_fresh. }
    split.
    { eapply Forall_impl; [exact Hall|]. intros s ->. left. }
    split.
    { apply Forall_forall. intros a Ha.
      apply list_elem_of_lookup_1 in Ha as [i Hi].
      destruct (Forall2_lookup_r _ _ _ _ _ Hrows Hi) as (p & Hp & Hstop & _).
      rewrite Hstop. rewrite Forall_forall in Hmapped.
      destruct (Hmapped p (list_elem_of_lookup_2 _ _ _ Hp)) as [k Hk].
      destruct (Hmap k _ Hk) as [Hempty|Hnew]; [|exact Hnew].
      rewrite lookup_empty in Hempty. discriminate. }
    split; [lia|]. rewrite <- (Forall2_length _ _ _ Hrows). exact Hcount.
  - cbn [snd]. exists [], [], []. rewrite !app_nil_r. cbn [length].
    repeat split; auto; try constructor; lia.
Qed.

(** X24. Whatever file is imported, by whomever, into whatever store,
    provided the file, when it passes the structural check, has the fields of
    an export at their declared types (its ids may repeat, and its activities
    may name stops that it does not hold), [handleImport] only appends: the
    stored rows stay as they are, at most one trip is added, and that trip is
    private, owned by the importing user and has a new id; every stop added
    belongs to that trip, and every activity added belongs to one of the
    stops added.  Without a trip nothing is added. *)
Theorem import_is_safe (parsed : option js_value) (user : option string)
    (rng : list string) (st : Store.t)
    (Htyped : forall data, importTrip parsed = Some data -> asExportedTrip data <> None) :
  let st' := snd (TripView.handleImport parsed user rng st) in
  exists newTrips newStops newActivities,
    Store.trips st' = Store.trips st ++ newTrips
    /\ Store.trip_stops st' = Store.trip_stops st ++ newStops
    /\ Store.trip_activities st' = Store.trip_activities st ++ newActivities
    /\ (length newTrips <= 1)%nat
    /\ Forall (fun t => Some (Trip.user_id t) = user
                        /\ Trip.is_public t = false
                        /\ Trip.id t ∉ (Trip.id <$> Store.trips st)) newTrips
    /\ Forall (fun s => TripStop.trip_id s ∈ (Trip.id <$> newTrips)) newStops
    /\ Forall (fun a => TripActivity.trip_stop_id a ∈ (TripStop.id <$> newStops))
         newActivities.
Proof.
  cbv zeta.
  assert (Hnothing : exists newTrips newStops newActivities,
            Store.trips st = Store.trips st ++ newTrips
            /\ Store.trip_stops st = Store.trip_stops st ++ newStops
            /\ Store.trip_activities st = Store.trip_activities st ++ newActivities
            /\ (length newTrips <= 1)%nat
            /\ Forall (fun t => Some (Trip.user_id t) = user
                                /\ Trip.is_public t = false
                                /\ Trip.id t ∉ (Trip.id <$> Store.trips st)) newTrips
            /\ Forall (fun s => TripStop.trip_id s ∈ (Trip.id <$> newTrips)) newStops
            /\ Forall (fun a => TripActivity.trip_stop_id a ∈ (TripStop.id <$> newStops))
                 newActivities).
  { exists [], [], []. rewrite !app_nil_r. cbn [length].
    repeat split; auto; constructor. }
  unfold TripView.handleImport.
  destruct user as [userId|]; [|exact Hnothing].
  destruct (importTrip parsed) as [importedData|]; [|exact Hnothing].
  specialize (Htyped importedData eq_refl).
  destruct (asExportedTrip importedData) as [doc|]; [|contradiction].
  destruct (insertImported_safe (prepareImportedTripForInsert doc userId) rng st)
    as (newTrips & newStops & newActivities & Htrips & Hstops & Hacts & Hone & Hnew
        & Hbelong & Hattached & _).
  exists newTrips, newStops, newActivities. repeat split; try assumption.
  eapply Forall_impl; [exact Hnew|]. cbn. intros t (-> & -> & Hfresh). auto.
Qed.

Lemma import_is_safe_witness :
  let st' :=
    snd (TripView.handleImport (Some (toJSON stray_export)) (Some "bob"%string)
           ["z9y8x7w6"%string] (store_of paris_trip)) in
  exists newTrips newStops newActivities,
    Store.trips st' = [paris_trip] ++ newTrips
    /\ Store.trip_stops st' = newStops
    /\ Store.trip_activities st' = newActivities
    /\ Forall (fun t => Trip.user_id t = "bob"%string /\ Trip.is_public t = false)
         newTrips
    /\ Forall (fun a => TripActivity.trip_stop_id a ∈ (TripStop.id <$> newStops))
         newActivities.
Proof.
  cbv zeta.
  destruct (import_is_safe (Some (toJSON stray_export)) (Some "bob"%string)
              ["z9y8x7w6"%string] (store_of paris_trip)
              ltac:(intros data H; vm_compute in H; injection H as <-;
                    vm_compute; discriminate))
    as (newTrips & newStops & newActivities & Htrips & Hstops & Hacts & _ & Hnew
        & _ & Hattached).
  exists newTrips, newStops, newActivities.
  split; [exact Htrips|]. split; [exact Hstops|]. split; [exact Hacts|].
  split; [|exact Hattached].
  eapply Forall_impl; [exact Hnew|]. cbn. intros t ([= ->] & Hprivate & _). auto.
Defined.

(** ** Searching the list of trips *)

Lemma string_app_assoc (a b c : string) : (a +:+ b) +:+ c = a +:+ (b +:+ c).
Proof.
  induction a as [|x a IH]; [reflexivity|].
  change (String x ((a +:+ b) +:+ c) = String x (a +:+ (b +:+ c))). now rewrite IH.
Qed.

Lemma lower_char_idempotent (c : ascii) : lower_char (lower_char c) = lower_char c.
Proof.
  unfold lower_char.
  destruct ((65 <=? nat_of_ascii c) && (nat_of_ascii c <=? 90))%nat eqn:Hupper;
    [|now rewrite Hupper].
  apply andb_true_iff in Hupper as [Hlo Hhi].
  apply Nat.leb_le in Hlo, Hhi.
  rewrite nat_ascii_embedding by lia.
  replace ((65 <=? nat_of_ascii c + 32) && (nat_of_ascii c + 32 <=? 90))%nat with false;
    [reflexivity|].
  symmetry. apply andb_false_iff. right. apply Nat.leb_gt. lia.
Qed.

Lemma toLowerCase_idempotent (s : string) : toLowerCase (toLowerCase s) = toLowerCase s.
Proof.
  induction s as [|c s IH]; [reflexivity|]. cbn [toLowerCase].
  now rewrite lower_char_idempotent, IH.
Qed.

Lemma includes_lower_iff (label query : string) :
  includes (toLowerCase label) (toLowerCase query) = true
  <-> contains_ignoring_case label query.
Proof.
  rewrite includes_toLowerCase by apply toLowerCase_idempotent.
  unfold contains_ignoring_case, eq_ignore_case.
  split; intros (pre & mid & post & Hlabel & Hmid); exists pre, mid, post;
    (split; [exact Hlabel|]); now rewrite Hmid, ?toLowerCase_idempotent.
Qed.

Lemma contains_ignoring_case_part (label before query after : string) :
  contains_ignoring_case label (before +:+ query +:+ after) ->
  contains_ignoring_case label query.
Proof.
  unfold contains_ignoring_case, eq_ignore_case.
  intros (pre & mid & post & -> & Hmid). rewrite !toLowerCase_app in Hmid.
  apply toLowerCase_split in Hmid as (m1 & rest & -> & _ & Hrest).
  apply toLowerCase_split in Hrest as (m2 & m3 & -> & Hm2 & _).
  exists (pre +:+ m1), m2, (m3 +:+ post). split; [|exact Hm2].
  now rewrite !string_app_assoc.
Qed.

(** X25. For a search text and trip names written in ASCII, the list of
    trips shows, in their order, exactly the trips whose name contains the
    search text, the case of letters apart: all of them for an empty text, the
    same ones for two texts that differ in case only, and never a trip more
    when text is added before or after the search text. *)
Theorem filteredTrips_search (searchQuery : string) (trips : list Trip.t)
    (Hquery : isAscii searchQuery = true)
    (Hnames : Forall (fun trip => isAscii (Trip.name trip) = true) trips) :
  (forall trip,
     trip ∈ MyTrips.filteredTrips searchQuery trips
     <-> trip ∈ trips /\ contains_ignoring_case (Trip.name trip) searchQuery)
  /\ MyTrips.filteredTrips searchQuery trips `sublist_of` trips
  /\ MyTrips.filteredTrips "" trips = trips
  /\ (forall other,
        isAscii other = true -> toLowerCase other = toLowerCase searchQuery ->
        MyTrips.filteredTrips other trips = MyTrips.filteredTrips searchQuery trips)
  /\ (forall before after,
        isAscii before = true -> isAscii after = true ->
        MyTrips.filteredTrips (before +:+ searchQuery +:+ after) trips
        `sublist_of` MyTrips.filteredTrips searchQuery trips).
Proof.
  clear Hquery Hnames. unfold MyTrips.filteredTrips.
  assert (Hiff : forall q trip,
            trip ∈ List.filter (fun trip => includes (toLowerCase (Trip.name trip))
                                              (toLowerCase q)) trips
            <-> trip ∈ trips /\ contains_ignoring_case (Trip.name trip) q).
  { intros q trip. rewrite list_elem_of_In, List.filter_In, <- list_elem_of_In.
    now rewrite includes_lower_iff. }
  split; [apply Hiff|]. clear Hiff. split; [|split; [|split]].
  - induction trips as [|t l IH]; [constructor|]. cbn [List.filter].
    destruct (includes _ _); now constructor.
  - induction trips as [|t l IH]; [reflexivity|]. cbn [List.filter].
    assert (Hany : forall s, includes s "" = true) by (intros []; reflexivity).
    change (toLowerCase "") with ""%string. rewrite Hany. f_equal.
    exact IH.
  - intros other _ ->. reflexivity.
  - intros before after _ _. induction trips as [|t l IH]; [constructor|].
    cbn [List.filter].
    destruct (includes (toLowerCase (Trip.name t))
                (toLowerCase (before +:+ searchQuery +:+ after))) eqn:Hlong.
    + assert (Hshort : includes (toLowerCase (Trip.name t)) (toLowerCase searchQuery)
                       = true).
      { apply includes_lower_iff. eapply contains_ignoring_case_part.
        apply includes_lower_iff. exact Hlong. }
      rewrite Hshort. now constructor.
    + destruct (includes (toLowerCase (Trip.name t)) (toLowerCase searchQuery));
        [now constructor | exact IH].
Qed.

Lemma filteredTrips_search_witness :
  MyTrips.filteredTrips "EUR" [europe; trip_dated None None] `sublist_of`
    [europe; trip_dated None None]
  /\ (europe ∈ MyTrips.filteredTrips "EUR" [europe; trip_dated None None]
      <-> europe ∈ [europe; trip_dated None None]
          /\ contains_ignoring_case (Trip.name europe) "EUR").
Proof.
  destruct (filteredTrips_search "EUR" [europe; trip_dated None None] eq_refl
              ltac:(repeat constructor)) as (Hiff & Hsub & _).
  split; [exact Hsub | apply Hiff].
Defined.

(** ** The offline data layer: stops and activities *)

Lemma filter_filter_comm {A} (P Q : A -> Prop) `{!forall x, Decision (P x)}
    `{!forall x, Decision (Q x)} (l : list A) :
  filter P (filter Q l) = filter Q (filter P l).
Proof.
  induction l as [|x l IH]; [reflexivity|]. rewrite !filter_cons.
  destruct (decide (Q x)) as [HQ|HQ], (decide (P x)) as [HP|HP];
    rewrite ?filter_cons, ?decide_True, ?decide_False by assumption; now rewrite ?IH.
Qed.

(** X26. In the offline layer a created stop is listed with the stops of
    its trip and with no other trip's; a deleted stop is no longer listed,
    the other stops are, and its activities stay in storage, as the stops of a
    deleted trip do: a delete removes the rows of one collection only. *)
Theorem local_stops_create_delete (tripId : string) (stop : StopFields.t)
    (now : LocalData.Clock) (code id : string) (s : LocalData.Storage) :
  let created := LocalData.stops_create tripId stop now code s in
  let deleted := LocalData.stops_delete id s in
  LocalData.stops_getByTrip tripId (snd created)
    ≡ₚ fst created :: LocalData.stops_getByTrip tripId s
  /\ (forall other, other <> tripId ->
        LocalData.stops_getByTrip other (snd created)
        = LocalData.stops_getByTrip other s)
  /\ fst created = TripStop.mk (LocalData.make_id "stop" now code) tripId stop
  /\ (forall trip,
        LocalData.stops_getByTrip trip (snd deleted)
        ≡ₚ filter (fun row => TripStop.id row <> id) (LocalData.stops_getByTrip trip s))
  /\ (fst deleted = true
      <-> exists row, row ∈ LocalData.getStorage (LocalData.TRIP_STOPS s)
                      /\ TripStop.id row = id)
  /\ (forall stopId,
        LocalData.activities_getByStop stopId (snd deleted)
        = LocalData.activities_getByStop stopId s)
  /\ (forall trip,
        LocalData.stops_getByTrip trip (snd (LocalData.trips_delete id s))
        = LocalData.stops_getByTrip trip s).
Proof.
  cbv zeta. unfold LocalData.stops_getByTrip, LocalData.stops_create,
    LocalData.stops_delete, LocalData.activities_getByStop, LocalData.trips_delete.
  cbn [fst snd LocalData.TRIP_STOPS LocalData.TRIP_ACTIVITIES].
  change (LocalData.getStorage (Some ?l)) with l.
  set (rows := LocalData.getStorage (LocalData.TRIP_STOPS s)).
  split; [|split; [|split; [|split; [|split; [|split]]]]]; try reflexivity.
  - rewrite !sort_by_Permutation, filter_app, filter_cons.
    rewrite decide_True by reflexivity. rewrite filter_nil.
    now rewrite <- Permutation_cons_append.
  - intros other Hne. rewrite filter_app, filter_cons.
    rewrite decide_False by (cbn; congruence). now rewrite filter_nil, app_nil_r.
  - intros trip. rewrite !sort_by_Permutation. now rewrite filter_filter_comm.
  - apply (filter_length_lt TripStop.id).
Qed.

(** X27. In the offline layer a created activity is listed with the
    activities of its stop and with no other stop's; a deleted activity is no
    longer listed and the others are; [delete] reports a removal exactly when
    the id was stored, and neither function touches trips or stops. *)
Theorem local_activities_create_delete (stopId : string) (activity : ActivityFields.t)
    (now : LocalData.Clock) (code id : string) (s : LocalData.Storage) :
  let created := LocalData.activities_create stopId activity now code s in
  let deleted := LocalData.activities_delete id s in
  LocalData.activities_getByStop stopId (snd created)
    ≡ₚ fst created :: LocalData.activities_getByStop stopId s
  /\ (forall other, other <> stopId ->
        LocalData.activities_getByStop other (snd created)
        = LocalData.activities_getByStop other s)
  /\ fst created = TripActivity.mk (LocalData.make_id "activity" now code) stopId activity
  /\ (forall stop,
        LocalData.activities_getByStop stop (snd deleted)
        ≡ₚ filter (fun row => TripActivity.id row <> id)
             (LocalData.activities_getByStop stop s))
  /\ (fst deleted = true
      <-> exists row, row ∈ LocalData.getStorage (LocalData.TRIP_ACTIVITIES s)
                      /\ TripActivity.id row = id)
  /\ (forall trip,
        LocalData.stops_getByTrip trip (snd created) = LocalData.stops_getByTrip trip s
        /\ LocalData.stops_getByTrip trip (snd deleted) = LocalData.stops_getByTrip trip s)
  /\ LocalData.TRIPS (snd created) = LocalData.TRIPS s
  /\ LocalData.TRIPS (snd deleted) = LocalData.TRIPS s.
Proof.
  cbv zeta. unfold LocalData.activities_getByStop, LocalData.activities_create,
    LocalData.activities_delete, LocalData.stops_getByTrip.
  cbn [fst snd LocalData.TRIP_STOPS LocalData.TRIP_ACTIVITIES LocalData.TRIPS].
  change (LocalData.getStorage (Some ?l)) with l.
  set (rows := LocalData.getStorage (LocalData.TRIP_ACTIVITIES s)).
  split; [|split; [|split; [|split; [|split; [|split; [|split]]]]]]; try reflexivity.
  - rewrite !sort_by_Permutation, filter_app, filter_cons.
    rewrite decide_True by reflexivity. rewrite filter_nil.
    now rewrite <- Permutation_cons_append.
  - intros other Hne. rewrite filter_app, filter_cons.
    rewrite decide_False by (cbn; congruence). now rewrite filter_nil, app_nil_r.
  - intros stop. rewrite !sort_by_Permutation. now rewrite filter_filter_comm.
  - apply (filter_length_lt TripActivity.id).
  - intros trip. split; reflexivity.
Qed.

(** X28. [localTripAPI.getAll] with the id of a user lists trips of that
    user only, in their stored order; a created trip is added at the end of
    the list of its owner and of no other user, and a deleted trip leaves
    every list without changing the rest of it.  With the empty text for an
    id the trips of every user are returned. *)
Theorem local_trips_getAll (userId : string) (s : LocalData.Storage)
    (Huser : userId <> ""%string) :
  Forall (fun trip => Trip.user_id trip = userId) (LocalData.trips_getAll (Some userId) s)
  /\ LocalData.trips_getAll (Some userId) s `sublist_of` LocalData.trips_getAll None s
  /\ (forall trip now later code,
        let created := LocalData.trips_create trip now later code s in
        LocalData.trips_getAll (Some userId) (snd created)
        = LocalData.trips_getAll (Some userId) s
          ++ (if decide (TripInsert.user_id trip = userId) then [fst created] else []))
  /\ (forall id,
        LocalData.trips_getAll (Some userId) (snd (LocalData.trips_delete id s))
        = filter (fun trip => Trip.id trip <> id) (LocalData.trips_getAll (Some userId) s))
  /\ LocalData.trips_getAll (Some "") s = LocalData.trips_getAll None s.
Proof.
  unfold LocalData.trips_getAll, LocalData.trips_create, LocalData.trips_delete.
  cbn [truthy String.eqb negb fst snd LocalData.TRIPS].
  change (LocalData.getStorage (Some ?l)) with l.
  destruct (String.eqb_spec userId "") as [|_]; [contradiction|]. cbn [negb].
  set (trips := LocalData.getStorage (LocalData.TRIPS s)).
  split; [|split; [|split; [|split]]].
  - apply Forall_forall. intros trip Hin.
    apply list_elem_of_filter in Hin as [Hu _]. congruence.
  - apply sublist_filter.
  - intros trip now later code. cbv zeta. rewrite filter_app, filter_cons, filter_nil.
    cbn [Trip.user_id].
    destruct (decide (TripInsert.user_id trip = userId)) as [Hu|Hu].
    + now rewrite decide_True by congruence.
    + now rewrite decide_False by congruence.
  - intros id. apply filter_filter_comm.
  - reflexivity.
Qed.

Lemma local_trips_getAll_witness :
  Forall (fun trip => Trip.user_id trip = "alice"%string)
    (LocalData.trips_getAll (Some "alice"%string)
       (LocalData.mkStorage (Some [europe; paris_trip]) None None))
  /\ LocalData.trips_getAll (Some "alice"%string)
       (LocalData.mkStorage (Some [europe; paris_trip]) None None)
     = [europe].
Proof.
  split; [|reflexivity].
  apply (local_trips_getAll "alice"
           (LocalData.mkStorage (Some [europe; paris_trip]) None None)).
  discriminate.
Defined.

(** ** The offline data layer: cities *)

Section map_set.
Context {V : Type}.

Lemma map_set_find_eq (key : string) (value : V) (map : JsMap V) :
  find_by fst key (map_set key value map) = Some (key, value).
Proof.
  induction map as [|[k v] rest IH]; cbn [map_set].
  - rewrite find_by_cons. now rewrite decide_True.
  - destruct (decide (k = key)) as [->|Hne]; rewrite find_by_cons; cbn [fst].
    + now rewrite decide_True.
    + now rewrite decide_False.
Qed.

Lemma map_set_find_ne (key other : string) (value : V) (map : JsMap V) :
  other <> key ->
  find_by fst other (map_set key value map) = find_by fst other map.
Proof.
  intros Hne. induction map as [|[k v] rest IH]; cbn [map_set].
  - rewrite find_by_cons. cbn [fst]. now rewrite decide_False by congruence.
  - destruct (decide (k = key)) as [->|Hk]; rewrite !find_by_cons; cbn [fst].
    + now rewrite !decide_False by congruence.
    + destruct (decide (k = other)); [reflexivity | exact IH].
Qed.

Lemma map_set_keys (key : string) (value : V) (map : JsMap V) :
  fst <$> map_set key value map
  = if decide (key ∈ fst <$> map) then fst <$> map else (fst <$> map) ++ [key].
Proof.
  induction map as [|[k v] rest IH]; cbn [map_set].
  - rewrite decide_False by (intros H; inversion H). reflexivity.
  - destruct (decide (k = key)) as [->|Hk].
    + rewrite decide_True by (rewrite fmap_cons; left). reflexivity.
    + rewrite !fmap_cons, IH. cbn [fst].
      destruct (decide (key ∈ fst <$> rest)) as [Hin|Hout].
      * rewrite decide_True by now right. reflexivity.
      * rewrite decide_False; [reflexivity|].
        intros Hin. apply elem_of_cons in Hin as [?|?]; [congruence | contradiction].
Qed.

Lemma map_set_NoDup (key : string) (value : V) (map : JsMap V) :
  NoDup (fst <$> map) -> NoDup (fst <$> map_set key value map).
Proof.
  intros Hnodup. rewrite map_set_keys.
  destruct (decide (key ∈ fst <$> map)) as [Hin|Hout]; [exact Hnodup|].
  apply NoDup_app. split; [exact Hnodup|]. split; [|apply NoDup_singleton].
  intros x Hx Hkey. apply list_elem_of_singleton in Hkey. now subst.
Qed.

Lemma map_set_values (P : V -> Prop) (key : string) (value : V) (map : JsMap V) :
  P value -> Forall (fun entry => P (snd entry)) map ->
  Forall (fun entry => P (snd entry)) (map_set key value map).
Proof.
  intros Hvalue. induction 1 as [|[k v] rest Hv Hrest IH]; cbn [map_set].
  - now repeat constructor.
  - destruct (decide (k = key)); constructor; cbn [snd]; auto.
Qed.

End map_set.

Lemma map_set_keyed (c : City.t) (map : JsMap City.t) :
  Forall (fun entry => City.id (snd entry) = fst entry) map ->
  Forall (fun entry => City.id (snd entry) = fst entry) (map_set (City.id c) c map).
Proof.
  induction 1 as [|[k v] rest Hv Hrest IH]; cbn [map_set].
  - now repeat constructor.
  - destruct (decide (k = City.id c)); constructor; cbn [fst snd]; auto.
Qed.

(** The map after the cities of a list have been set one after the other:
    without duplicate keys, every city under its id, and under an id the
    last city of the list with that id, or else what the map held. *)
Lemma set_cities_spec (cities : list City.t) (map : JsMap City.t) :
  let map' := foldl (fun map c => map_set (City.id c) c map) map cities in
  (NoDup (fst <$> map) -> NoDup (fst <$> map'))
  /\ (Forall (fun entry => City.id (snd entry) = fst entry) map ->
      Forall (fun entry => City.id (snd entry) = fst entry) map')
  /\ (forall P : City.t -> Prop,
        Forall P cities -> Forall (fun entry => P (snd entry)) map ->
        Forall (fun entry => P (snd entry)) map')
  /\ (forall id,
        find_by fst id map'
        = match find_by City.id id (reverse cities) with
          | Some c => Some (id, c)
          | None => find_by fst id map
          end).
Proof.
  cbv zeta. revert map. induction cities as [|c cities IH] using rev_ind; intros map.
  - cbn. repeat split; auto.
  - rewrite foldl_snoc, reverse_snoc.
    destruct (IH map) as (Hnodup & Hkeyed & Hvalues & Hfind).
    split; [|split; [|split]].
    + intros H. apply map_set_NoDup. auto.
    + intros H. apply map_set_keyed. auto.
    + intros P HP Hmap. apply Forall_app in HP as [Hcities Hc].
      apply Forall_cons in Hc as [Hc _]. apply map_set_values; auto.
    + intros id. rewrite find_by_cons.
      destruct (decide (City.id c = id)) as [<-|Hne].
      * apply map_set_find_eq.
      * rewrite map_set_find_ne by congruence. apply Hfind.
Qed.

Lemma find_by_keyed (id : string) (map : JsMap City.t) :
  Forall (fun entry => City.id (snd entry) = fst entry) map ->
  find_by City.id id (snd <$> map) = snd <$> find_by fst id map.
Proof.
  induction 1 as [|[k v] rest Hv _ IH]; [reflexivity|].
  rewrite fmap_cons, !find_by_cons. cbn [fst snd] in *. rewrite Hv.
  destruct (decide (k = id)); [reflexivity | exact IH].
Qed.

(** X29. [localCityAPI.getAll] returns every id once; under an id [getById]
    finds the last stored city with that id, or else the last city of the
    static list with it, so that stored data is preferred; and every city
    returned is a stored one or a static one. *)
Theorem local_cities_merge (STATIC_CITIES : list City.t) (stored : option (list City.t)) :
  let all := LocalCities.getAll STATIC_CITIES stored in
  NoDup (City.id <$> all)
  /\ (forall id,
        LocalCities.getById STATIC_CITIES stored id
        = match find_by City.id id (reverse (LocalData.getStorage stored)) with
          | Some c => Some c
          | None => find_by City.id id (reverse STATIC_CITIES)
          end)
  /\ (forall c, c ∈ all -> c ∈ LocalData.getStorage stored \/ c ∈ STATIC_CITIES).
Proof.
  cbv zeta. unfold LocalCities.getById, LocalCities.getAll, map_of.
  rewrite foldl_fmap. cbn [fst snd].
  set (staticMap := foldl (fun map c => map_set (City.id c) c map) [] STATIC_CITIES).
  set (cities := LocalData.getStorage stored).
  set (merged := foldl (fun map c => map_set (City.id c) c map) staticMap cities).
  destruct (set_cities_spec STATIC_CITIES []) as (Hnodup0 & Hkeyed0 & Hvalues0 & Hfind0).
  destruct (set_cities_spec cities staticMap) as (Hnodup & Hkeyed & Hvalues & Hfind).
  fold staticMap in Hnodup0, Hkeyed0, Hvalues0, Hfind0.
  fold merged in Hnodup, Hkeyed, Hvalues, Hfind.
  assert (Hkeys : Forall (fun entry => City.id (snd entry) = fst entry) merged)
    by (apply Hkeyed, Hkeyed0; constructor).
  assert (Hids : City.id <$> (snd <$> merged) = fst <$> merged).
  { rewrite <- list_fmap_compose. apply Forall_fmap_ext_1.
    eapply Forall_impl; [exact Hkeys|]. auto. }
  split; [|split].
  - rewrite Hids. apply Hnodup, Hnodup0. constructor.
  - intros id. rewrite (find_by_keyed id merged Hkeys), Hfind.
    destruct (find_by City.id id (reverse cities)) as [c|]; [reflexivity|].
    rewrite Hfind0.
    destruct (find_by City.id id (reverse STATIC_CITIES)); reflexivity.
  - intros c Hc. apply list_elem_of_fmap in Hc as ([k v] & -> & Hentry).
    assert (Hall : Forall (fun entry : string * City.t =>
                             snd entry ∈ cities \/ snd entry ∈ STATIC_CITIES) merged).
    { apply (Hvalues (fun c => c ∈ cities \/ c ∈ STATIC_CITIES)).
      - apply Forall_forall. auto.
      - apply (Hvalues0 (fun c => c ∈ cities \/ c ∈ STATIC_CITIES)); [|constructor].
        apply Forall_forall. auto. }
    rewrite Forall_forall in Hall. exact (Hall _ Hentry).
Qed.
